(** * wallet-watcher: subscription reconciliation and alert fan-out

    A shallow embedding of the JavaScript sources of the wallet tracker
    (src/utils/formatters.js, src/utils/validators.js, src/models/index.js,
    src/config/index.js, src/services/moralis.service.js,
    src/services/bot.service.js, src/services/webhook.service.js) and the
    properties of its specification that are settled against them.

    Conventions.
    - A JS string is a [string]: its bytes in UTF-8.  [toLowerCase] and
      [toUpperCase] map the ASCII letters and leave every other byte as
      it is; the addresses, tickers and digests the services compare are
      ASCII.
    - A JS [BigInt] is a [Z]; [/] and [%] on BigInt truncate toward zero
      ([Z.quot], [Z.rem]).
    - A [try { ... } catch] block is a computation in the [completion]
      monad; the catch handler is the match on [Throw].
    - The Mongo collections are lists of documents, each with its [_id];
      [createdAt] and [updatedAt] are left out.  The calls to the
      database and to Telegram complete; the requests to the stream
      provider are recorded and its answers are inputs.
    - A command handler runs to its end before the next one starts. *)

From Stdlib Require Import ZArith List String Ascii Bool Lia Arith.
Import ListNotations.

Open Scope string_scope.
Open Scope Z_scope.

(* ================================================================== *)
(** * Completions: normal results and thrown exceptions                *)
(* ================================================================== *)

Inductive exn : Type :=
| TypeError
| RangeError
| SyntaxError
| Error.

Inductive completion (A : Type) : Type :=
| Normal (a : A)
| Throw (e : exn).

Arguments Normal {A} a.
Arguments Throw {A} e.

Definition bind {A B : Type} (c : completion A) (k : A -> completion B)
  : completion B :=
  match c with
  | Normal a => k a
  | Throw e => Throw e
  end.

(** [try { body } catch (error) { handler }]. *)
Definition try_catch {A : Type} (body : completion A)
  (handler : exn -> completion A) : completion A :=
  match body with
  | Normal a => Normal a
  | Throw e => handler e
  end.

Declare Scope js_scope.
Delimit Scope js_scope with js.
Notation "x <- c ;; k" := (bind c (fun x => k))
  (at level 61, c at next level, right associativity) : js_scope.

(* ================================================================== *)
(** * String primitives of the JS runtime                              *)
(* ================================================================== *)

Module JsString.

Definition is_upper (c : ascii) : bool :=
  let n := nat_of_ascii c in (65 <=? n)%nat && (n <=? 90)%nat.

Definition is_lower (c : ascii) : bool :=
  let n := nat_of_ascii c in (97 <=? n)%nat && (n <=? 122)%nat.

Definition is_digit (c : ascii) : bool :=
  let n := nat_of_ascii c in (48 <=? n)%nat && (n <=? 57)%nat.

Definition lower_char (c : ascii) : ascii :=
  if is_upper c then ascii_of_nat (nat_of_ascii c + 32) else c.

Definition upper_char (c : ascii) : ascii :=
  if is_lower c then ascii_of_nat (nat_of_ascii c - 32) else c.

Fixpoint map_string (f : ascii -> ascii) (s : string) : string :=
  match s with
  | EmptyString => EmptyString
  | String c t => String (f c) (map_string f t)
  end.

(** [s.toLowerCase()] and [s.toUpperCase()]. *)
Definition toLowerCase (s : string) : string := map_string lower_char s.
Definition toUpperCase (s : string) : string := map_string upper_char s.

Fixpoint repeat_char (c : ascii) (n : nat) : string :=
  match n with
  | O => EmptyString
  | S k => String c (repeat_char c k)
  end.

(** [s.padStart(n, c)] for a one-character filler. *)
Definition padStart (s : string) (n : nat) (c : ascii) : string :=
  repeat_char c (n - String.length s) ++ s.

(** [s.slice(0, n)]. *)
Fixpoint slice0 (n : nat) (s : string) : string :=
  match n, s with
  | O, _ => EmptyString
  | S _, EmptyString => EmptyString
  | S k, String c t => String c (slice0 k t)
  end.

(** [s.slice(-n)] : the last [n] characters. *)
Fixpoint drop (n : nat) (s : string) : string :=
  match n, s with
  | O, _ => s
  | S _, EmptyString => EmptyString
  | S k, String _ t => drop k t
  end.

Definition slice_last (n : nat) (s : string) : string :=
  drop (String.length s - n) s.

(** [s.replace(/0+$/, '')]. *)
Fixpoint strip_trailing_zeros (s : string) : string :=
  match s with
  | EmptyString => EmptyString
  | String c t =>
      let t' := strip_trailing_zeros t in
      if Ascii.eqb c "0" && String.eqb t' EmptyString
      then EmptyString
      else String c t'
  end.

(** Truthiness of a string: only [''] is falsy. *)
Definition truthy (s : string) : bool := negb (String.eqb s EmptyString).

(** [l.includes(x)] on an array of strings. *)
Definition includes (l : list string) (x : string) : bool :=
  existsb (String.eqb x) l.

(** [l.join(' ')]. *)
Fixpoint join_space (l : list string) : string :=
  match l with
  | [] => EmptyString
  | [x] => x
  | x :: t => x ++ " " ++ join_space t
  end.

(** The ASCII white space and line terminators. *)
Definition is_space (c : ascii) : bool :=
  let n := nat_of_ascii c in
  (n =? 32)%nat || ((9 <=? n)%nat && (n <=? 13)%nat).

(** The other white space and line terminators, in UTF-8: U+00A0,
    U+1680, U+2000 to U+200A, U+2028, U+2029, U+202F, U+205F, U+3000
    and U+FEFF. *)
Definition wide_spaces : list (list nat) :=
  [ [194; 160]; [225; 154; 128];
    [226; 128; 128]; [226; 128; 129]; [226; 128; 130]; [226; 128; 131];
    [226; 128; 132]; [226; 128; 133]; [226; 128; 134]; [226; 128; 135];
    [226; 128; 136]; [226; 128; 137]; [226; 128; 138];
    [226; 128; 168]; [226; 128; 169]; [226; 128; 175];
    [226; 129; 159]; [227; 128; 128]; [239; 187; 191] ]%nat.

Fixpoint after_bytes (bs : list nat) (s : string) : option string :=
  match bs, s with
  | [], _ => Some s
  | b :: bs', String c t =>
      if (nat_of_ascii c =? b)%nat then after_bytes bs' t else None
  | _ :: _, EmptyString => None
  end.

(** The string after one leading white-space character, if it has
    one; [seqs] are the UTF-8 sequences to look for. *)
Definition after_space (seqs : list (list nat)) (s : string)
  : option string :=
  match s with
  | EmptyString => None
  | String c t =>
      if is_space c then Some t
      else
        fold_right
          (fun bs found =>
             match after_bytes bs s with
             | Some r => Some r
             | None => found
             end)
          None seqs
  end.

Fixpoint trim_left (fuel : nat) (seqs : list (list nat)) (s : string)
  : string :=
  match fuel with
  | O => s
  | S f =>
      match after_space seqs s with
      | Some r => trim_left f seqs r
      | None => s
      end
  end.

Fixpoint reverse (s acc : string) : string :=
  match s with
  | EmptyString => acc
  | String c t => reverse t (String c acc)
  end.

(** [s.trim()], as StringToBigInt strips white space. *)
Definition trim (s : string) : string :=
  let s1 := trim_left (String.length s) wide_spaces s in
  reverse
    (trim_left (String.length s1) (map (@rev nat) wide_spaces)
       (reverse s1 EmptyString))
    EmptyString.

End JsString.

(* ================================================================== *)
(** * BigInt: conversion from strings and numbers, printing            *)
(* ================================================================== *)

Module JsBigInt.
Import JsString.

Definition digit_value (c : ascii) : option Z :=
  let n := Z.of_nat (nat_of_ascii c) in
  if is_digit c then Some (n - 48)
  else if ((97 <=? n) && (n <=? 102))%Z then Some (n - 87)
  else if ((65 <=? n) && (n <=? 70))%Z then Some (n - 55)
  else None.

(** Value of a non-empty digit string in a radix, most significant
    digit first; [None] on a character that is not a digit of it. *)
Fixpoint digits_value (radix : Z) (acc : Z) (s : string) : option Z :=
  match s with
  | EmptyString => Some acc
  | String c t =>
      match digit_value c with
      | Some d => if (d <? radix)%Z then digits_value radix (radix * acc + d) t
                  else None
      | None => None
      end
  end.

Definition parse_digits (radix : Z) (s : string) : completion Z :=
  match s with
  | EmptyString => Throw SyntaxError
  | _ => match digits_value radix 0 s with
         | Some v => Normal v
         | None => Throw SyntaxError
         end
  end.

(** [BigInt(s)] for a string [s] (StringToBigInt): white space is
    trimmed, the empty string is [0n], a decimal literal may carry a
    sign, [0x], [0o] and [0b] literals may not; anything else is a
    SyntaxError. *)
Definition of_string (s : string) : completion Z :=
  match trim s with
  | EmptyString => Normal 0
  | String "0" (String "x" t) | String "0" (String "X" t) => parse_digits 16 t
  | String "0" (String "o" t) | String "0" (String "O" t) => parse_digits 8 t
  | String "0" (String "b" t) | String "0" (String "B" t) => parse_digits 2 t
  | String "-" t => (v <- parse_digits 10 t ;; Normal (- v))%js
  | String "+" t => parse_digits 10 t
  | t => parse_digits 10 t
  end.

(** A Number as far as [BigInt(n)] can tell: an integer, a finite
    non-integer, or one of NaN and the infinities. *)
Inductive number : Type :=
| Integral (z : Z)
| Fractional
| NonFinite.

(** [BigInt(n)] for a Number: a RangeError unless [n] is an integer. *)
Definition of_number (n : number) : completion Z :=
  match n with
  | Integral z => Normal z
  | Fractional | NonFinite => Throw RangeError
  end.

(** The double nearest to a positive integer [m] (ties to even). *)
Definition nearest_double (m : Z) : Z :=
  let e := Z.log2 m in
  if e <? 53 then m
  else
    let sh := e - 52 in
    let q := Z.shiftr m sh in
    let r := m - Z.shiftl q sh in
    let half := Z.shiftl 1 (sh - 1) in
    let q' := if (half <? r) || ((r =? half) && Z.odd q) then q + 1 else q in
    Z.shiftl q' sh.

(** The Numbers that reach [formatValue] as [decimals], from the
    chain configuration and from [parseInt]: the integers, [NaN] and
    the infinities. *)
Inductive Decimals : Type :=
| Int (d : Z)
| NaN
| Infinity
| NegInfinity.

(** [10 ** decimals].  The powers up to [10 ** 22] are doubles and are
    exact; above, the result is the double that approximates the
    power; beyond the range of doubles it is [Infinity]; a negative
    exponent gives a fraction, or 0 once it underflows. *)
Definition pow10 (decimals : Decimals) : number :=
  match decimals with
  | Int d =>
      if d <? -323 then Integral 0
      else if d <? 0 then Fractional
      else if d <=? 22 then Integral (10 ^ d)
      else if d <=? 308 then Integral (nearest_double (10 ^ d))
      else NonFinite
  | NaN | Infinity => NonFinite
  | NegInfinity => Integral 0
  end.

(** The length [padStart] pads to, where the code reaches it: then
    [decimals] is an integer from 0 to 308. *)
Definition pad_length (decimals : Decimals) : nat :=
  match decimals with
  | Int d => Z.to_nat d
  | NaN | Infinity | NegInfinity => O
  end.

(** [a / b] and [a % b] on BigInt: division by [0n] is a RangeError. *)
Definition div (a b : Z) : completion Z :=
  if b =? 0 then Throw RangeError else Normal (Z.quot a b).

Definition rem (a b : Z) : completion Z :=
  if b =? 0 then Throw RangeError else Normal (Z.rem a b).

Definition digit_char (d : Z) : ascii := ascii_of_nat (48 + Z.to_nat d).

(** Decimal digits of a natural number, most significant first. *)
Fixpoint digits_acc (fuel : nat) (n : Z) (acc : string) : string :=
  let acc' := String (digit_char (n mod 10)) acc in
  match fuel with
  | O => acc'
  | S f => if n <? 10 then acc' else digits_acc f (n / 10) acc'
  end.

Definition digits (n : Z) : string :=
  digits_acc (Z.to_nat (Z.log2 n)) n EmptyString.

(** [b.toString()]. *)
Definition toString (z : Z) : string :=
  if z <? 0 then String "-" (digits (- z)) else digits z.

End JsBigInt.

(* ================================================================== *)
(** * src/utils/formatters.js : formatValue                            *)
(* ================================================================== *)

Module Formatters.
Import JsString.

(** The body of the [try] block of [formatValue]. *)
Definition formatValue_try (value : string)
  (decimals : JsBigInt.Decimals) : completion string :=
  (v <- JsBigInt.of_string value ;;
   p <- JsBigInt.of_number (JsBigInt.pow10 decimals) ;;
   amount <- JsBigInt.div v p ;;
   v' <- JsBigInt.of_string value ;;
   p' <- JsBigInt.of_number (JsBigInt.pow10 decimals) ;;
   remainder <- JsBigInt.rem v' p' ;;
   let decimalPart :=
     padStart (JsBigInt.toString remainder)
       (JsBigInt.pad_length decimals) "0" in
   if (amount =? 0) && (remainder =? 0) then Normal "0"
   else
     let amountStr := JsBigInt.toString amount in
     let decimalStr := strip_trailing_zeros (slice0 8 decimalPart) in
     if truthy decimalStr
     then Normal (amountStr ++ "." ++ decimalStr)
     else Normal amountStr)%js.

(** [formatValue(value, decimals)]: the whole body is the [try] block
    and the [catch] returns ['0']. *)
Definition formatValue (value : string) (decimals : JsBigInt.Decimals)
  : completion string :=
  try_catch (formatValue_try value decimals) (fun _ => Normal "0").

(** [formatAddress(address, short)] of validators.js. *)
Definition formatAddress (address : string) (short : bool) : string :=
  if negb (truthy address) then EmptyString
  else if short && (12 <? String.length address)%nat
       then slice0 6 address ++ "..." ++ slice_last 4 address
       else address.

End Formatters.

(* ================================================================== *)
(** * Decimal rendering of an amount, as the specification words it    *)
(* ================================================================== *)

Module AmountSpec.

(** The [k] low decimal digits of [f], most significant first. *)
Fixpoint fixed_digits (k : nat) (f : Z) : string :=
  match k with
  | O => EmptyString
  | S k' => fixed_digits k' (f / 10)
              ++ String (JsBigInt.digit_char (f mod 10)) EmptyString
  end.

(** Dropping the trailing zero digits of a [k]-digit fraction [f]. *)
Fixpoint trim_frac (k : nat) (f : Z) : nat * Z :=
  match k with
  | O => (O, f)
  | S k' => if f mod 10 =? 0 then trim_frac k' (f / 10) else (k, f)
  end.

(** [value / 10^d] in decimal: the integer part, then, unless it is
    zero, a point and the fraction without trailing zeros.  With
    [keep = Some m] the fraction is first truncated to its [m] leading
    digits; with [None] it is exact. *)
Definition render (keep : option nat) (value : Z) (d : nat) : string :=
  let q := value / 10 ^ Z.of_nat d in
  let r := value mod 10 ^ Z.of_nat d in
  let k := match keep with Some m => Nat.min d m | None => d end in
  let '(k', f') := trim_frac k (r / 10 ^ Z.of_nat (d - k)) in
  match k' with
  | O => JsBigInt.digits q
  | S _ => JsBigInt.digits q ++ "." ++ fixed_digits k' f'
  end.

(** The exact rendering of the specification. *)
Definition exact (value : Z) (d : nat) : string := render None value d.

(** The rendering truncated to eight fractional digits. *)
Definition truncated8 (value : Z) (d : nat) : string :=
  render (Some 8%nat) value d.

End AmountSpec.

(* ================================================================== *)
(** * src/config/index.js                                              *)
(* ================================================================== *)

Module Config.

Record ChainConfig : Type := {
  name : string;
  moralisChain : string;
  explorer : string;
  nativeSymbol : string;
  decimals : Z;
  icon : string
}.

(** [CHAIN_CONFIG], in the order of its keys. *)
Definition CHAIN_CONFIG : list (string * ChainConfig) :=
  [ ("ETH", {| name := "Ethereum"; moralisChain := "0x1";
               explorer := "https://etherscan.io";
               nativeSymbol := "ETH"; decimals := 18; icon := "⟠" |});
    ("BSC", {| name := "BNB Smart Chain"; moralisChain := "0x38";
               explorer := "https://bscscan.com";
               nativeSymbol := "BNB"; decimals := 18; icon := "🟡" |});
    ("POLYGON", {| name := "Polygon"; moralisChain := "0x89";
                   explorer := "https://polygonscan.com";
                   nativeSymbol := "MATIC"; decimals := 18; icon := "🟣" |});
    ("AVALANCHE", {| name := "Avalanche"; moralisChain := "0xa86a";
                     explorer := "https://snowtrace.io";
                     nativeSymbol := "AVAX"; decimals := 18; icon := "🔺" |});
    ("ARBITRUM", {| name := "Arbitrum"; moralisChain := "0xa4b1";
                    explorer := "https://arbiscan.io";
                    nativeSymbol := "ETH"; decimals := 18; icon := "🔵" |});
    ("OPTIMISM", {| name := "Optimism"; moralisChain := "0xa";
                    explorer := "https://optimistic.etherscan.io";
                    nativeSymbol := "ETH"; decimals := 18; icon := "🔴" |});
    ("BASE", {| name := "Base"; moralisChain := "0x2105";
                explorer := "https://basescan.org";
                nativeSymbol := "ETH"; decimals := 18; icon := "🔷" |});
    ("SOL", {| name := "Solana"; moralisChain := "solana";
               explorer := "https://solscan.io";
               nativeSymbol := "SOL"; decimals := 9; icon := "◎" |}) ].

(** [CHAIN_CONFIG[ticker]]. *)
Fixpoint lookup (table : list (string * ChainConfig)) (ticker : string)
  : option ChainConfig :=
  match table with
  | [] => None
  | (k, c) :: rest => if String.eqb k ticker then Some c else lookup rest ticker
  end.

(** The part of [config] the two services read; it comes from the
    environment. *)
Record t : Type := {
  webhookSecret : string;          (* config.moralis.webhookSecret *)
  webhookPublicUrl : string;       (* config.server.webhookPublicUrl *)
  webhookPath : string;            (* config.server.webhookPath *)
  rateLimitWindowMs : Z;           (* config.security.rateLimitWindowMs *)
  rateLimitMaxRequests : Z;        (* config.security.rateLimitMaxRequests *)
  supported : list string          (* config.chains.supported *)
}.

End Config.

(* ================================================================== *)
(** * src/utils/validators.js                                          *)
(* ================================================================== *)

(** The two functions of the [ethers] package the validators call.
    [getAddress] returns the checksummed form or throws. *)
Class Ethers : Type := {
  isAddress : string -> bool;
  getAddress : string -> completion string
}.

Module Validators.
Import JsString.

(** [{isValid: true, normalizedAddress}] or [{isValid: false, error}]. *)
Inductive validation : Type :=
| Valid (normalizedAddress : string)
| Invalid (error : string).

Definition isValid (v : validation) : bool :=
  match v with Valid _ => true | Invalid _ => false end.

Definition validateEvmAddress `{Ethers} (address : string) : validation :=
  match (if isAddress address
         then (n <- getAddress address ;; Normal (Valid n))%js
         else Normal (Invalid "Invalid EVM address format")) with
  | Normal v => v
  | Throw _ => Invalid "Invalid EVM address format"
  end.

Definition base58_alphabet : string :=
  "123456789ABCDEFGHJKLMNPQRSTUVWXYZabcdefghijkmnopqrstuvwxyz".

Fixpoint index_of (c : ascii) (s : string) (i : Z) : option Z :=
  match s with
  | EmptyString => None
  | String a t => if Ascii.eqb a c then Some i else index_of c t (i + 1)
  end.

Fixpoint all_chars (p : ascii -> bool) (s : string) : bool :=
  match s with
  | EmptyString => true
  | String c t => p c && all_chars p t
  end.

Definition is_base58_char (c : ascii) : bool :=
  match index_of c base58_alphabet 0 with Some _ => true | None => false end.

(** [/^[1-9A-HJ-NP-Za-km-z]{32,44}$/.test(address)]. *)
Definition solanaAddressRegex (address : string) : bool :=
  all_chars is_base58_char address
  && (32 <=? String.length address)%nat
  && (String.length address <=? 44)%nat.

Fixpoint base58_value (acc : Z) (s : string) : completion Z :=
  match s with
  | EmptyString => Normal acc
  | String c t =>
      match index_of c base58_alphabet 0 with
      | Some d => base58_value (58 * acc + d) t
      | None => Throw Error
      end
  end.

Fixpoint leading_ones (s : string) : nat :=
  match s with
  | String "1" t => S (leading_ones t)
  | _ => O
  end.

(** Number of bytes of [bs58.decode(s)]: one zero byte for each leading
    ['1'], then the big-endian bytes of the base-58 number. *)
Definition bs58_decode_length (s : string) : completion nat :=
  (v <- base58_value 0 s ;;
   let bytes := if v =? 0 then O else S (Z.to_nat (Z.log2 v / 8)) in
   Normal (leading_ones s + bytes)%nat)%js.

Definition validateSolanaAddress (address : string) : validation :=
  match (if negb (solanaAddressRegex address)
         then Normal (Invalid "Invalid Solana address format")
         else (len <- bs58_decode_length address ;;
               if (len =? 32)%nat then Normal (Valid address)
               else Normal (Invalid "Invalid Solana address length"))%js) with
  | Normal v => v
  | Throw _ => Invalid "Invalid Solana address format"
  end.

Definition evm_chains : list string :=
  ["ETH"; "BSC"; "POLYGON"; "AVALANCHE"; "ARBITRUM"; "OPTIMISM"; "BASE"].

Definition validateAddress `{Ethers} (address chainTicker : string)
  : validation :=
  let chain := toUpperCase chainTicker in
  if includes evm_chains chain then
    match validateEvmAddress address with
    | Valid n => Valid n
    | Invalid _ =>
        Invalid ("Invalid " ++ chain ++ " address format. Expected 0x... format.")
    end
  else if String.eqb chain "SOL" then
    match validateSolanaAddress address with
    | Valid n => Valid n
    | Invalid _ =>
        Invalid "Invalid Solana address format. Expected Base58 encoded address."
    end
  else Invalid ("Unsupported chain: " ++ chain).

Definition is_alias_char (c : ascii) : bool :=
  is_upper c || is_lower c || is_digit c
  || Ascii.eqb c "_" || Ascii.eqb c "-" || is_space c.

(** [validateAlias(alias).isValid]. *)
Definition validateAlias (alias : string) : bool :=
  if negb (truthy alias) then true
  else if (32 <? String.length alias)%nat then false
  else all_chars is_alias_char alias.

End Validators.

(* ================================================================== *)
(** * src/models/index.js                                              *)
(* ================================================================== *)

Definition ObjectId : Type := nat.

Module TrackedWallet.

Record t : Type := {
  _id : ObjectId;
  address : string;
  chainTicker : string;
  alias : option string;
  trackingUserIds : list Z;
  moralisStreamId : option string
}.

(** The filter [{ address, chainTicker }]. *)
Definition matches (a c : string) (w : t) : bool :=
  String.eqb (address w) a && String.eqb (chainTicker w) c.

(** [TrackedWallet.findOne({ address: a, chainTicker: c })]. *)
Definition findOne (coll : list t) (a c : string) : option t :=
  find (matches a c) coll.

(** [TrackedWallet.find({ trackingUserIds: userId })]. *)
Definition find_tracking (coll : list t) (userId : Z) : list t :=
  filter (fun w => existsb (Z.eqb userId) (trackingUserIds w)) coll.

(** [wallet.save()] on a document read from the collection.  The
    [pre('save')] hook of the schema sets [updatedAt], one of the two
    time stamps the record leaves out: what is proved of a saved
    document is about its other fields. *)
Fixpoint save (coll : list t) (w : t) : list t :=
  match coll with
  | [] => []
  | x :: rest =>
      if (_id x =? _id w)%nat then w :: rest else x :: save rest w
  end.

(** [TrackedWallet.deleteOne({ _id: id })]. *)
Fixpoint deleteOne (coll : list t) (id : ObjectId) : list t :=
  match coll with
  | [] => []
  | x :: rest =>
      if (_id x =? id)%nat then rest else x :: deleteOne rest id
  end.

End TrackedWallet.

Module User.

Record t : Type := {
  telegramId : Z;
  username : option string;
  trackedWalletIds : list ObjectId
}.

(** [User.findOneAndUpdate({ telegramId }, { telegramId, username },
    { upsert: true, new: true })]. *)
Fixpoint upsert (coll : list t) (id : Z) (uname : option string) : list t :=
  match coll with
  | [] => [ {| telegramId := id; username := uname; trackedWalletIds := [] |} ]
  | u :: rest =>
      if telegramId u =? id
      then {| telegramId := id; username := uname;
              trackedWalletIds := trackedWalletIds u |} :: rest
      else u :: upsert rest id uname
  end.

(** Apply an update to the first user with this [telegramId]. *)
Fixpoint update (coll : list t) (id : Z) (f : list ObjectId -> list ObjectId)
  : list t :=
  match coll with
  | [] => []
  | u :: rest =>
      if telegramId u =? id
      then {| telegramId := telegramId u; username := username u;
              trackedWalletIds := f (trackedWalletIds u) |} :: rest
      else u :: update rest id f
  end.

(** [{ $addToSet: { trackedWalletIds: w } }]. *)
Definition addToSet (w : ObjectId) (l : list ObjectId) : list ObjectId :=
  if existsb (Nat.eqb w) l then l else (l ++ [w])%list.

(** [{ $pull: { trackedWalletIds: w } }]. *)
Definition pull (w : ObjectId) (l : list ObjectId) : list ObjectId :=
  filter (fun x => negb (x =? w)%nat) l.

End User.

(** The database: the two collections and the next fresh [_id]. *)
Record Database : Type := {
  users : list User.t;
  wallets : list TrackedWallet.t;
  next_id : ObjectId
}.

Definition empty_db : Database :=
  {| users := []; wallets := []; next_id := O |}.
(* ================================================================== *)
(** * src/services/moralis.service.js                                  *)
(* ================================================================== *)

Module MoralisService.
Import JsString.

(** What the provider sends back for a created stream. *)
Record StreamData : Type := { id : string }.

(** The outcome of one HTTP request made with axios: a response with
    its status and (when there is one) its data, or a rejected
    promise (network error, timeout, status outside 2xx). *)
Inductive http_outcome : Type :=
| Response (status : Z) (data : option StreamData)
| Rejected.

(** The requests sent to the provider. *)
Inductive request : Type :=
| PostStream (isSolana : bool) (address chainTicker webhookUrl : string)
| DeleteStream (isSolana : bool) (streamId : string).

(** [createStream(address, chainTicker, webhookUrl, description)]:
    the stream data or [null], and the requests made. *)
Definition createStream (address chainTicker webhookUrl : string)
  (answer : http_outcome) : option StreamData * list request :=
  match Config.lookup Config.CHAIN_CONFIG (toUpperCase chainTicker) with
  | None => (None, [])
  | Some _ =>
      let isSolana := String.eqb (toUpperCase chainTicker) "SOL" in
      let sent := [PostStream isSolana address chainTicker webhookUrl] in
      match answer with
      | Response status data =>
          if (status =? 200) || (status =? 201) then (data, sent)
          else (None, sent)
      | Rejected => (None, sent)
      end
  end.

(** [deleteStream(streamId, isSolana)]. *)
Definition deleteStream (streamId : string) (isSolana : bool)
  (answer : http_outcome) : bool * list request :=
  let sent := [DeleteStream isSolana streamId] in
  match answer with
  | Response status _ => ((status =? 200) || (status =? 204), sent)
  | Rejected => (false, sent)
  end.

End MoralisService.

(* ================================================================== *)
(** * src/services/bot.service.js                                      *)
(* ================================================================== *)

Module BotService.
Import JsString.

(** [userCommandCounts]: a Map from user id to an array of time stamps. *)
Definition CommandCounts : Type := list (Z * list Z).

Fixpoint counts_get (m : CommandCounts) (userId : Z) : option (list Z) :=
  match m with
  | [] => None
  | (k, v) :: rest => if k =? userId then Some v else counts_get rest userId
  end.

Fixpoint counts_set (m : CommandCounts) (userId : Z) (v : list Z)
  : CommandCounts :=
  match m with
  | [] => [(userId, v)]
  | (k, v0) :: rest =>
      if k =? userId then (k, v) :: rest
      else (k, v0) :: counts_set rest userId v
  end.

Record State : Type := {
  db : Database;
  userCommandCounts : CommandCounts
}.

Definition initial : State :=
  {| db := empty_db; userCommandCounts := [] |}.

(** [checkRateLimit(userId)] at time [now].  The array pushed to is the
    one stored in the map. *)
Definition checkRateLimit (cfg : Config.t) (m : CommandCounts)
  (userId now : Z) : bool * CommandCounts :=
  let timestamps :=
    match counts_get m userId with Some l => l | None => [] end in
  let filtered :=
    filter (fun ts => now - ts <? Config.rateLimitWindowMs cfg) timestamps in
  if Z.of_nat (List.length filtered) >=? Config.rateLimitMaxRequests cfg
  then (false, counts_set m userId filtered)
  else (true, counts_set m userId (filtered ++ [now])%list).

(** What a command handler reads from [ctx]: the sender and
    [ctx.message.text.split(/\s+/).slice(1)]. *)
Record Context : Type := {
  from_id : Z;
  from_username : option string;
  args : list string
}.

(** The message the handler ends with. *)
Inductive reply : Type :=
| RateLimited            (* You're sending commands too quickly *)
| InvalidFormat          (* Invalid format! Usage: ... *)
| UnsupportedChain       (* Unsupported chain: ... *)
| InvalidAlias           (* the alias validation error *)
| InvalidAddress (error : string)
| AlreadyTracking        (* You're already tracking this wallet! *)
| NowTracking            (* Now tracking wallet! *)
| StreamFailed           (* Failed to create tracking stream *)
| TrackingStarted        (* Tracking started! *)
| NotTracking            (* You're not tracking this wallet. *)
| StoppedTracking        (* Stopped tracking wallet *)
| ErrorOccurred.         (* the catch block: An error occurred *)

Record Result : Type := {
  message : reply;
  state : State;
  requests : list MoralisService.request
}.

Definition with_db (st : State) (d : Database) : State :=
  {| db := d; userCommandCounts := userCommandCounts st |}.

Definition with_counts (st : State) (m : CommandCounts) : State :=
  {| db := db st; userCommandCounts := m |}.

(** The final [editMessageText] of a successful command reads
    [CHAIN_CONFIG[chainTicker].icon]; on an unknown ticker that throws
    and the catch block replies. *)
Definition confirm (chainTicker : string) (ok : reply) : reply :=
  match Config.lookup Config.CHAIN_CONFIG chainTicker with
  | Some _ => ok
  | None => ErrorOccurred
  end.

(** [/track], from "Ensure user exists" on: the request passed the
    rate limit and the validations. *)
Definition subscribe (cfg : Config.t) (st : State) (userId : Z)
  (username : option string) (chainTicker normalizedAddress : string)
  (alias : option string) (answer : MoralisService.http_outcome)
  : Result :=
  let d := db st in
  let users1 := User.upsert (users d) userId username in
  match TrackedWallet.findOne (wallets d)
          (toLowerCase normalizedAddress) chainTicker with
  | Some wallet =>
      if existsb (Z.eqb userId) (TrackedWallet.trackingUserIds wallet)
      then
        {| message := AlreadyTracking;
           state := with_db st {| users := users1; wallets := wallets d;
                                  next_id := next_id d |};
           requests := [] |}
      else
        let wallet' :=
          {| TrackedWallet._id := TrackedWallet._id wallet;
             TrackedWallet.address := TrackedWallet.address wallet;
             TrackedWallet.chainTicker := TrackedWallet.chainTicker wallet;
             TrackedWallet.alias := TrackedWallet.alias wallet;
             TrackedWallet.trackingUserIds :=
               (TrackedWallet.trackingUserIds wallet ++ [userId])%list;
             TrackedWallet.moralisStreamId :=
               TrackedWallet.moralisStreamId wallet |} in
        {| message := confirm chainTicker NowTracking;
           state :=
             with_db st
               {| users := User.update users1 userId
                             (User.addToSet (TrackedWallet._id wallet));
                  wallets := TrackedWallet.save (wallets d) wallet';
                  next_id := next_id d |};
           requests := [] |}
  | None =>
      let webhookUrl :=
        Config.webhookPublicUrl cfg ++ Config.webhookPath cfg in
      let '(streamData, sent) :=
        MoralisService.createStream normalizedAddress chainTicker
          webhookUrl answer in
      match streamData with
      | None =>
          {| message := StreamFailed;
             state := with_db st {| users := users1; wallets := wallets d;
                                    next_id := next_id d |};
             requests := sent |}
      | Some data =>
          let wallet :=
            {| TrackedWallet._id := next_id d;
               TrackedWallet.address := toLowerCase normalizedAddress;
               TrackedWallet.chainTicker := chainTicker;
               TrackedWallet.alias := alias;
               TrackedWallet.trackingUserIds := [userId];
               TrackedWallet.moralisStreamId :=
                 Some (MoralisService.id data) |} in
          {| message := confirm chainTicker TrackingStarted;
             state :=
               with_db st
                 {| users := User.update users1 userId
                               (User.addToSet (next_id d));
                    wallets := (wallets d ++ [wallet])%list;
                    next_id := S (next_id d) |};
             requests := sent |}
      end
  end.

(** [bot.command('track', ...)]. *)
Definition track `{Ethers} (cfg : Config.t) (st : State) (ctx : Context)
  (now : Z) (answer : MoralisService.http_outcome) : Result :=
  let userId := from_id ctx in
  let '(allowed, counts) :=
    checkRateLimit cfg (userCommandCounts st) userId now in
  let st := with_counts st counts in
  let stop (r : reply) := {| message := r; state := st; requests := [] |} in
  if negb allowed then stop RateLimited
  else
    match args ctx with
    | arg0 :: arg1 :: rest =>
        let chainTicker := toUpperCase arg0 in
        let address := arg1 in
        let joined := join_space rest in
        let alias := if truthy joined then Some joined else None in
        if negb (includes (Config.supported cfg) chainTicker)
        then stop UnsupportedChain
        else if match alias with
                | Some a => negb (Validators.validateAlias a)
                | None => false
                end
        then stop InvalidAlias
        else
          match Validators.validateAddress address chainTicker with
          | Validators.Invalid e => stop (InvalidAddress e)
          | Validators.Valid normalizedAddress =>
              subscribe cfg st userId (from_username ctx) chainTicker
                normalizedAddress alias answer
          end
    | _ => stop InvalidFormat
    end.

(** [/untrack], from the lookup of the wallet on. *)
Definition unsubscribe (st : State) (userId : Z)
  (chainTicker normalizedAddress : string)
  (answer : MoralisService.http_outcome) : Result :=
  let d := db st in
  match TrackedWallet.findOne (wallets d)
          (toLowerCase normalizedAddress) chainTicker with
  | None => {| message := NotTracking; state := st; requests := [] |}
  | Some wallet =>
      if negb (existsb (Z.eqb userId) (TrackedWallet.trackingUserIds wallet))
      then {| message := NotTracking; state := st; requests := [] |}
      else
        let remaining :=
          filter (fun id => negb (id =? userId))
            (TrackedWallet.trackingUserIds wallet) in
        let '(wallets', sent) :=
          match remaining with
          | [] =>
              let sent :=
                match TrackedWallet.moralisStreamId wallet with
                | Some streamId =>
                    if truthy streamId
                    then snd (MoralisService.deleteStream streamId
                                (String.eqb chainTicker "SOL") answer)
                    else []
                | None => []
                end in
              (TrackedWallet.deleteOne (wallets d)
                 (TrackedWallet._id wallet), sent)
          | _ :: _ =>
              (TrackedWallet.save (wallets d)
                 {| TrackedWallet._id := TrackedWallet._id wallet;
                    TrackedWallet.address := TrackedWallet.address wallet;
                    TrackedWallet.chainTicker :=
                      TrackedWallet.chainTicker wallet;
                    TrackedWallet.alias := TrackedWallet.alias wallet;
                    TrackedWallet.trackingUserIds := remaining;
                    TrackedWallet.moralisStreamId :=
                      TrackedWallet.moralisStreamId wallet |}, [])
          end in
        {| message := confirm chainTicker StoppedTracking;
           state :=
             with_db st
               {| users := User.update (users d) userId
                             (User.pull (TrackedWallet._id wallet));
                  wallets := wallets';
                  next_id := next_id d |};
           requests := sent |}
  end.

(** [bot.command('untrack', ...)]. *)
Definition untrack `{Ethers} (cfg : Config.t) (st : State) (ctx : Context)
  (now : Z) (answer : MoralisService.http_outcome) : Result :=
  let userId := from_id ctx in
  let '(allowed, counts) :=
    checkRateLimit cfg (userCommandCounts st) userId now in
  let st := with_counts st counts in
  let stop (r : reply) := {| message := r; state := st; requests := [] |} in
  if negb allowed then stop RateLimited
  else
    match args ctx with
    | arg0 :: arg1 :: _ =>
        let chainTicker := toUpperCase arg0 in
        match Validators.validateAddress arg1 chainTicker with
        | Validators.Invalid e => stop (InvalidAddress e)
        | Validators.Valid normalizedAddress =>
            unsubscribe st userId chainTicker normalizedAddress answer
        end
    | _ => stop InvalidFormat
    end.

(** The two commands that change subscriptions, with the time they are
    handled at and the provider's answer to the request they make, if
    they make one. *)
Inductive command : Type :=
| Track (ctx : Context) (now : Z) (answer : MoralisService.http_outcome)
| Untrack (ctx : Context) (now : Z) (answer : MoralisService.http_outcome).

Definition handle `{Ethers} (cfg : Config.t) (st : State) (c : command)
  : Result :=
  match c with
  | Track ctx now answer => track cfg st ctx now answer
  | Untrack ctx now answer => untrack cfg st ctx now answer
  end.

(** The state after a sequence of commands, each handled to its end
    before the next. *)
Definition run `{Ethers} (cfg : Config.t) (cs : list command) (st : State)
  : State :=
  fold_left (fun s c => state (handle cfg s c)) cs st.

End BotService.
(* ================================================================== *)
(** * node:crypto : SHA-256, HMAC and hex digests                      *)
(* ================================================================== *)

Module Crypto.

Definition bytes_of_string (s : string) : list Z :=
  map (fun c => Z.of_nat (nat_of_ascii c)) (list_ascii_of_string s).

Definition w32 (x : Z) : Z := Z.land x 4294967295.

Definition rotr (n x : Z) : Z :=
  Z.lor (Z.shiftr x n) (w32 (Z.shiftl x (32 - n))).

Definition Ch (x y z : Z) : Z :=
  Z.lxor (Z.land x y) (Z.land (Z.lxor x 4294967295) z).

Definition Maj (x y z : Z) : Z :=
  Z.lxor (Z.lxor (Z.land x y) (Z.land x z)) (Z.land y z).

Definition Sigma0 (x : Z) : Z :=
  Z.lxor (Z.lxor (rotr 2 x) (rotr 13 x)) (rotr 22 x).

Definition Sigma1 (x : Z) : Z :=
  Z.lxor (Z.lxor (rotr 6 x) (rotr 11 x)) (rotr 25 x).

Definition sigma0 (x : Z) : Z :=
  Z.lxor (Z.lxor (rotr 7 x) (rotr 18 x)) (Z.shiftr x 3).

Definition sigma1 (x : Z) : Z :=
  Z.lxor (Z.lxor (rotr 17 x) (rotr 19 x)) (Z.shiftr x 10).

(** The first sixty-four primes. *)
Definition primes : list Z :=
  [2; 3; 5; 7; 11; 13; 17; 19; 23; 29; 31; 37; 41; 43; 47; 53; 59; 61; 67;
   71; 73; 79; 83; 89; 97; 101; 103; 107; 109; 113; 127; 131; 137; 139;
   149; 151; 157; 163; 167; 173; 179; 181; 191; 193; 197; 199; 211; 223;
   227; 229; 233; 239; 241; 251; 257; 263; 269; 271; 277; 281; 283; 293;
   307; 311].

(** The integer cube root, one bit at a time from bit [bits - 1]. *)
Fixpoint cube_root (bits : nat) (n x : Z) : Z :=
  match bits with
  | O => x
  | S b =>
      let y := x + Z.shiftl 1 (Z.of_nat b) in
      cube_root b n (if y * y * y <=? n then y else x)
  end.

(** The round constants: the first 32 bits of the fractional parts of
    the cube roots of the primes; the initial hash value: the same of
    the square roots of the first eight. *)
Definition K : list Z :=
  Eval vm_compute in
    map (fun p => w32 (cube_root 36 (Z.shiftl p 96) 0)) primes.

Definition H0 : list Z :=
  Eval vm_compute in
    map (fun p => w32 (Z.sqrt (Z.shiftl p 64))) (firstn 8 primes).

(** Big-endian bytes of [x] on [n] bytes. *)
Fixpoint be_bytes (n : nat) (x : Z) : list Z :=
  match n with
  | O => []
  | S k => (be_bytes k (Z.shiftr x 8) ++ [Z.land x 255])%list
  end.

(** The message, a 1 bit, zeros, and the bit length on 64 bits, up to a
    multiple of 64 bytes. *)
Definition pad (msg : list Z) : list Z :=
  let len := Z.of_nat (List.length msg) in
  let zeros := Z.to_nat ((55 - len) mod 64) in
  (msg ++ [128] ++ repeat 0 zeros ++ be_bytes 8 (8 * len))%list.

Fixpoint words (fuel : nat) (bs : list Z) : list Z :=
  match fuel, bs with
  | S f, b0 :: b1 :: b2 :: b3 :: rest =>
      (16777216 * b0 + 65536 * b1 + 256 * b2 + b3) :: words f rest
  | _, _ => []
  end.

Fixpoint blocks (fuel : nat) (ws : list Z) : list (list Z) :=
  match fuel, ws with
  | O, _ | _, [] => []
  | S f, _ => firstn 16 ws :: blocks f (skipn 16 ws)
  end.

(** One round on the working variables [a; b; c; d; e; f; g; h]. *)
Definition round (st : list Z) (k w : Z) : list Z :=
  match st with
  | [a; b; c; d; e; f; g; h] =>
      let T1 := h + Sigma1 e + Ch e f g + k + w in
      let T2 := Sigma0 a + Maj a b c in
      [w32 (T1 + T2); a; b; c; w32 (d + T1); e; f; g]
  | _ => st
  end.

(** The 64 rounds over a sliding window of sixteen schedule words. *)
Fixpoint rounds (ks : list Z) (window : list Z) (st : list Z) : list Z :=
  match ks with
  | [] => st
  | k :: ks' =>
      let w := nth 0 window 0 in
      let next :=
        w32 (sigma1 (nth 14 window 0) + nth 9 window 0
             + sigma0 (nth 1 window 0) + w) in
      rounds ks' (tl window ++ [next])%list (round st k w)
  end.

Definition compress (h : list Z) (block : list Z) : list Z :=
  map (fun p => w32 (fst p + snd p)) (combine h (rounds K block h)).

Definition sha256 (msg : list Z) : list Z :=
  let ws := words (List.length msg + 72) (pad msg) in
  let h := fold_left compress (blocks (List.length ws) ws) H0 in
  flat_map (be_bytes 4) h.

(** HMAC (RFC 2104) with SHA-256, whose block is 64 bytes. *)
Definition hmac_sha256 (key msg : list Z) : list Z :=
  let key0 := if (64 <? List.length key)%nat then sha256 key else key in
  let key1 := (key0 ++ repeat 0 (64 - List.length key0))%list in
  let ipad := map (Z.lxor 54) key1 in
  let opad := map (Z.lxor 92) key1 in
  sha256 (opad ++ sha256 (ipad ++ msg))%list.

Definition hex_digit (d : Z) : ascii :=
  if d <? 10 then ascii_of_nat (48 + Z.to_nat d)
  else ascii_of_nat (87 + Z.to_nat d).

(** [.digest('hex')]. *)
Fixpoint hex (bs : list Z) : string :=
  match bs with
  | [] => EmptyString
  | b :: rest => String (hex_digit (b / 16)) (String (hex_digit (b mod 16)) (hex rest))
  end.

(** [crypto.createHmac('sha256', key).update(data).digest('hex')]. *)
Definition createHmac_sha256_hex (key data : string) : string :=
  hex (hmac_sha256 (bytes_of_string key) (bytes_of_string data)).

(** [crypto.timingSafeEqual(Buffer.from(a), Buffer.from(b))]: a
    RangeError when the two buffers differ in length. *)
Definition timingSafeEqual (a b : string) : completion bool :=
  if (String.length a =? String.length b)%nat
  then Normal (String.eqb a b)
  else Throw RangeError.

End Crypto.

(* ================================================================== *)
(** * JSON values, JSON.stringify and the express.json() body parser   *)
(* ================================================================== *)

Module Json.
Import JsString.

(** A parsed JSON value.  Numbers are the integers a double holds
    exactly; an object lists its properties in enumeration order. *)
#[local] Set Warnings "-register-all".
Inductive t : Type :=
| JNull
| JBool (b : bool)
| JNum (n : Z)
| JStr (s : string)
| JArr (items : list t)
| JObj (fields : list (string * t)).

Definition dquote : ascii := ascii_of_nat 34.
Definition backslash : ascii := ascii_of_nat 92.

(** One character of a quoted JSON string (QuoteJSONString). *)
Definition quote_char (c : ascii) : string :=
  let n := nat_of_ascii c in
  if Ascii.eqb c dquote then String backslash (String dquote "")
  else if Ascii.eqb c backslash then String backslash (String backslash "")
  else if (n =? 8)%nat then String backslash "b"
  else if (n =? 9)%nat then String backslash "t"
  else if (n =? 10)%nat then String backslash "n"
  else if (n =? 12)%nat then String backslash "f"
  else if (n =? 13)%nat then String backslash "r"
  else if (n <? 32)%nat
       then String backslash
              ("u00" ++ String (Crypto.hex_digit (Z.of_nat (n / 16)))
                          (String (Crypto.hex_digit (Z.of_nat (n mod 16))) ""))
  else String c "".

Fixpoint quote_body (s : string) : string :=
  match s with
  | EmptyString => EmptyString
  | String c t => quote_char c ++ quote_body t
  end.

Definition quote (s : string) : string :=
  String dquote (quote_body s ++ String dquote "").

Fixpoint join_comma (l : list string) : string :=
  match l with
  | [] => EmptyString
  | [x] => x
  | x :: rest => x ++ "," ++ join_comma rest
  end.

(** [JSON.stringify(v)]. *)
Fixpoint stringify (v : t) : string :=
  match v with
  | JNull => "null"
  | JBool true => "true"
  | JBool false => "false"
  | JNum n => JsBigInt.toString n
  | JStr s => quote s
  | JArr items => "[" ++ join_comma (map stringify items) ++ "]"
  | JObj fields =>
      "{" ++ join_comma
               (map (fun kv => quote (fst kv) ++ ":" ++ stringify (snd kv))
                  fields) ++ "}"
  end.

(** An array index: a canonical numeric string below [2^32 - 1]. *)
Definition array_index (k : string) : option Z :=
  match k with
  | EmptyString => None
  | String "0" EmptyString => Some 0
  | String "0" _ => None
  | _ => if Validators.all_chars is_digit k
         then match JsBigInt.digits_value 10 0 k with
              | Some v => if v <? 4294967295 then Some v else None
              | None => None
              end
         else None
  end.

(** Defining property [k] of an object: an existing key keeps its
    place; a new array index goes among the indices, in ascending
    order, before every other key; any other new key goes last. *)
Fixpoint set_field (fields : list (string * t)) (k : string) (v : t)
  : list (string * t) :=
  match fields with
  | [] => [(k, v)]
  | (k0, v0) :: rest =>
      if String.eqb k0 k then (k0, v) :: rest
      else
        let later := (k0, v0) :: set_field rest k v in
        match array_index k with
        | None => later
        | Some i =>
            if existsb (fun kv => String.eqb (fst kv) k) rest then later
            else match array_index k0 with
                 | Some i0 => if i <? i0 then (k, v) :: fields else later
                 | None => (k, v) :: fields
                 end
        end
  end.

Definition is_json_space (c : ascii) : bool :=
  let n := nat_of_ascii c in
  (n =? 32)%nat || (n =? 9)%nat || (n =? 10)%nat || (n =? 13)%nat.

Fixpoint skip_ws (s : string) : string :=
  match s with
  | String c t => if is_json_space c then skip_ws t else s
  | EmptyString => s
  end.

(** The rest of the input after the literal [lit], if it starts with it. *)
Fixpoint expect (lit s : string) : option string :=
  match lit, s with
  | EmptyString, _ => Some s
  | String a l, String b r => if Ascii.eqb a b then expect l r else None
  | String _ _, EmptyString => None
  end.

(** The characters of a string literal after its opening quote, and
    the input after its closing quote.  [\u] escapes are outside the
    fragment. *)
Fixpoint parse_string (s : string) : option (string * string) :=
  match s with
  | EmptyString => None
  | String c r =>
      if Ascii.eqb c dquote then Some (EmptyString, r)
      else if Ascii.eqb c backslash then
        match r with
        | String e r' =>
            let unescaped :=
              if Ascii.eqb e dquote then Some dquote
              else if Ascii.eqb e backslash then Some backslash
              else if Ascii.eqb e "/" then Some "/"%char
              else if Ascii.eqb e "b" then Some (ascii_of_nat 8)
              else if Ascii.eqb e "f" then Some (ascii_of_nat 12)
              else if Ascii.eqb e "n" then Some (ascii_of_nat 10)
              else if Ascii.eqb e "r" then Some (ascii_of_nat 13)
              else if Ascii.eqb e "t" then Some (ascii_of_nat 9)
              else None in
            match unescaped, parse_string r' with
            | Some u, Some (body, rest) => Some (String u body, rest)
            | _, _ => None
            end
        | EmptyString => None
        end
      else if (nat_of_ascii c <? 32)%nat then None
      else match parse_string r with
           | Some (body, rest) => Some (String c body, rest)
           | None => None
           end
  end.

Fixpoint take_digits (s : string) : string * string :=
  match s with
  | String c r =>
      if is_digit c
      then let '(ds, rest) := take_digits r in (String c ds, rest)
      else (EmptyString, s)
  | EmptyString => (EmptyString, EmptyString)
  end.

(** An integer literal; a fraction or an exponent, or an integer a
    double does not hold exactly, is outside the fragment. *)
Definition parse_number (s : string) : option (Z * string) :=
  let '(negative, s1) :=
    match s with
    | String "-" r => (true, r)
    | _ => (false, s)
    end in
  let '(ds, rest) :=
    match s1 with
    | String "0" r => ("0", r)
    | _ => take_digits s1
    end in
  match ds with
  | EmptyString => None
  | _ =>
      match rest with
      | String "." _ | String "e" _ | String "E" _ => None
      | _ =>
          match JsBigInt.digits_value 10 0 ds with
          | Some v =>
              if v <=? 9007199254740992
              then Some (if negative then - v else v, rest)
              else None
          | None => None
          end
      end
  end.

(** [JSON.parse] on the fragment, with the input left over. *)
Fixpoint parse_value (fuel : nat) (s : string) : option (t * string) :=
  match fuel with
  | O => None
  | S f =>
      match skip_ws s with
      | EmptyString => None
      | String c r =>
          if Ascii.eqb c "n" then
            option_map (fun rest => (JNull, rest)) (expect "ull" r)
          else if Ascii.eqb c "t" then
            option_map (fun rest => (JBool true, rest)) (expect "rue" r)
          else if Ascii.eqb c "f" then
            option_map (fun rest => (JBool false, rest)) (expect "alse" r)
          else if Ascii.eqb c dquote then
            option_map (fun p => (JStr (fst p), snd p)) (parse_string r)
          else if Ascii.eqb c "[" then
            match skip_ws r with
            | String "]" rest => Some (JArr [], rest)
            | _ =>
                (fix elements (n : nat) (s : string) (acc : list t)
                   : option (t * string) :=
                   match n with
                   | O => None
                   | S n' =>
                       match parse_value f s with
                       | None => None
                       | Some (v, s') =>
                           match skip_ws s' with
                           | String "," s'' => elements n' s'' (acc ++ [v])%list
                           | String "]" rest => Some (JArr (acc ++ [v])%list, rest)
                           | _ => None
                           end
                       end
                   end) f r []
            end
          else if Ascii.eqb c "{" then
            match skip_ws r with
            | String "}" rest => Some (JObj [], rest)
            | _ =>
                (fix members (n : nat) (s : string) (acc : list (string * t))
                   : option (t * string) :=
                   match n with
                   | O => None
                   | S n' =>
                       match skip_ws s with
                       | String q s1 =>
                           if Ascii.eqb q dquote then
                             match parse_string s1 with
                             | None => None
                             | Some (k, s2) =>
                                 match skip_ws s2 with
                                 | String ":" s3 =>
                                     match parse_value f s3 with
                                     | None => None
                                     | Some (v, s4) =>
                                         match skip_ws s4 with
                                         | String "," s5 =>
                                             members n' s5 (set_field acc k v)
                                         | String "}" rest =>
                                             Some (JObj (set_field acc k v), rest)
                                         | _ => None
                                         end
                                     end
                                 | _ => None
                                 end
                             end
                           else None
                       | EmptyString => None
                       end
                   end) f r []
            end
          else
            option_map (fun p => (JNum (fst p), snd p))
              (parse_number (String c r))
      end
  end.

Definition parse (s : string) : option t :=
  match parse_value (S (String.length s)) s with
  | Some (v, rest) =>
      match skip_ws rest with
      | EmptyString => Some v
      | _ => None
      end
  | None => None
  end.

(** [req.body] as [express.json()] leaves it for a request with a JSON
    content type: [{}] for an empty body; in strict mode the text must
    start with an object or an array.  [None]: the request does not
    reach the handler (or is outside the fragment). *)
Definition express_json (rawBody : string) : option t :=
  match rawBody with
  | EmptyString => Some (JObj [])
  | _ =>
      match skip_ws rawBody with
      | String "{" _ | String "[" _ => parse rawBody
      | _ => None
      end
  end.

Fixpoint assoc (fields : list (string * t)) (k : string) : option t :=
  match fields with
  | [] => None
  | (k0, v) :: rest => if String.eqb k0 k then Some v else assoc rest k
  end.

(** [v.k] for a value that came out of [JSON.parse] and a property
    name [k] the service reads (none of them is [length] or inherited):
    a TypeError on [null]; [undefined], here [None], unless [v] is an
    object that has the property. *)
Definition prop (v : t) (k : string) : completion (option t) :=
  match v with
  | JNull => Throw TypeError
  | JObj fields => Normal (assoc fields k)
  | JBool _ | JNum _ | JStr _ | JArr _ => Normal None
  end.

(** Truthiness; [None] is [undefined]. *)
Definition truthy (v : option t) : bool :=
  match v with
  | None | Some JNull => false
  | Some (JBool b) => b
  | Some (JNum n) => negb (n =? 0)
  | Some (JStr s) => JsString.truthy s
  | Some (JArr _) | Some (JObj _) => true
  end.

(** [v || ''] and [(v || '').toLowerCase()]: a TypeError when [v] is truthy and not
    a string. *)
Definition or_empty (v : option t) : t :=
  match v with
  | Some j => if truthy v then j else JStr EmptyString
  | None => JStr EmptyString
  end.

Definition lower_or_empty (v : option t) : completion string :=
  if truthy v then
    match v with
    | Some (JStr s) => Normal (toLowerCase s)
    | _ => Throw TypeError
    end
  else Normal EmptyString.

(** Whether [String(v)], as a template literal and [parseInt] convert
    a value, returns.  [null], booleans, numbers and strings convert.
    An object of [JSON.parse] converts to ["[object Object]"], unless
    it has a property [toString]: that property is not a function and
    the inherited [valueOf] returns the object, so the conversion ends
    in a TypeError.  An array joins the conversions of its items. *)
Fixpoint prints (v : t) : bool :=
  match v with
  | JNull | JBool _ | JNum _ | JStr _ => true
  | JArr items => forallb prints items
  | JObj fields =>
      match assoc fields "toString" with
      | Some _ => false
      | None => true
      end
  end.

(** [`${v || d}`] for a property [v] read from the payload and a
    string [d]: a TypeError when [v] does not convert. *)
Definition interpolate (v : option t) : completion unit :=
  match v with
  | Some j => if prints j then Normal tt else Throw TypeError
  | None => Normal tt
  end.

End Json.
(* ================================================================== *)
(** * src/services/webhook.service.js                                  *)
(* ================================================================== *)

Module WebhookService.
Import JsString Json.

(** [verifyWebhookSignature(body, signature)]: the HMAC is taken over
    [JSON.stringify(body)]; the catch block returns [false]. *)
Definition verifyWebhookSignature (cfg : Config.t) (body : Json.t)
  (signature : string) : bool :=
  let expectedSignature :=
    Crypto.createHmac_sha256_hex (Config.webhookSecret cfg)
      (stringify body) in
  match Crypto.timingSafeEqual signature expectedSignature with
  | Normal b => b
  | Throw _ => false
  end.

(** The text of an alert, by the call that formats it:
    [formatNativeTransaction(txData, chainTicker, address)] or
    [formatTokenTransaction(tokenTransfer, chainTicker, address)]. *)
Inductive alert : Type :=
| NativeAlert (txData : Json.t) (chainTicker address : string)
| TokenAlert (tokenTransfer : Json.t) (chainTicker address : string).

(** One call [sendAlertToBot(userId, message)]. *)
Definition delivery : Type := (Z * alert)%type.

(** Where [formatNativeTransaction] throws: on a [null] transaction,
    on a [fromAddress] or [toAddress] that is truthy and not a string,
    and, in the template of the message, on a [hash] that does not
    convert to a string.  The amount and the gas fee are computed
    inside [try] blocks. *)
Definition formatNativeTransaction (txData : Json.t)
  (chainTicker trackedAddress : string) : completion alert :=
  (txHash <- prop txData "hash" ;;
   from <- prop txData "fromAddress" ;;
   _ <- lower_or_empty from ;;
   to <- prop txData "toAddress" ;;
   _ <- lower_or_empty to ;;
   _ <- prop txData "value" ;;
   _ <- prop txData "gasPrice" ;;
   _ <- prop txData "gas" ;;
   _ <- interpolate txHash ;;
   Normal (NativeAlert txData chainTicker trackedAddress))%js.

(** Where [formatTokenTransaction] throws: on a [null] transfer, on a
    [from] or [to] that is truthy and not a string, on a
    [tokenDecimals] that [parseInt] cannot convert to a string, and,
    in the template of the message, on a [tokenName], [tokenSymbol],
    [transactionHash] or [address] that does not convert to one. *)
Definition formatTokenTransaction (tokenTransfer : Json.t)
  (chainTicker trackedAddress : string) : completion alert :=
  (txHash <- prop tokenTransfer "transactionHash" ;;
   from <- prop tokenTransfer "from" ;;
   _ <- lower_or_empty from ;;
   to <- prop tokenTransfer "to" ;;
   _ <- lower_or_empty to ;;
   tokenAddress <- prop tokenTransfer "address" ;;
   tokenName <- prop tokenTransfer "tokenName" ;;
   tokenSymbol <- prop tokenTransfer "tokenSymbol" ;;
   _ <- prop tokenTransfer "value" ;;
   tokenDecimals <- prop tokenTransfer "tokenDecimals" ;;
   _ <- interpolate tokenDecimals ;;
   _ <- interpolate tokenName ;;
   _ <- interpolate tokenSymbol ;;
   _ <- interpolate txHash ;;
   _ <- interpolate tokenAddress ;;
   Normal (TokenAlert tokenTransfer chainTicker trackedAddress))%js.

(** The chain ticker of a provider chain id: the first entry of
    [CHAIN_CONFIG] whose [moralisChain] is strictly equal to it. *)
Fixpoint ticker_of (table : list (string * Config.ChainConfig))
  (chainId : Json.t) : option string :=
  match table with
  | [] => None
  | (ticker, chainConfig) :: rest =>
      match chainId with
      | JStr s =>
          if String.eqb (Config.moralisChain chainConfig) s
          then Some ticker
          else ticker_of rest chainId
      | _ => ticker_of rest chainId
      end
  end.

(** What the loop over [webhookData.erc20Transfers] runs over. *)
Inductive transfers : Type :=
| NoTransfers                       (* the native branch *)
| Transfers (items : list Json.t)   (* the token branch *)
| NotIterable                       (* the token branch; for-of throws *)
| Unmodelled.                       (* a coercion to Number, or a
                                       string that is not ASCII *)

Definition erc20Transfers (webhookData : Json.t) : completion transfers :=
  (v <- prop webhookData "erc20Transfers" ;;
   if negb (truthy v) then Normal NoTransfers
   else
     match v with
     | Some (JArr []) => Normal NoTransfers
     | Some (JArr items) => Normal (Transfers items)
     | Some (JStr s) =>
         if Validators.all_chars (fun c => (nat_of_ascii c <? 128)%nat) s
         then Normal (Transfers
                        (map (fun c => JStr (String c EmptyString))
                           (list_ascii_of_string s)))
         else Normal Unmodelled
     | Some (JObj fields) =>
         match assoc fields "length" with
         | None | Some JNull => Normal NoTransfers
         | Some (JObj inner) =>
             (* [length > 0] converts the object to a number *)
             if prints (JObj inner) then Normal NoTransfers
             else Throw TypeError
         | Some (JBool b) => Normal (if b then NotIterable else NoTransfers)
         | Some (JNum n) => Normal (if 0 <? n then NotIterable else NoTransfers)
         | Some (JStr _) | Some (JArr _) => Normal Unmodelled
         end
     | _ => Normal NoTransfers
     end)%js.

(** The deliveries made, and whether the loop ran to its end. *)
Definition send_all (subscribers : list Z) (message : alert)
  : list delivery :=
  map (fun userId => (userId, message)) subscribers.

Fixpoint send_tokens (items : list Json.t) (chainTicker address : string)
  (subscribers : list Z) : list delivery * bool :=
  match items with
  | [] => ([], true)
  | tokenTransfer :: rest =>
      match formatTokenTransaction tokenTransfer chainTicker address with
      | Throw _ => ([], false)
      | Normal message =>
          let '(ds, finished) :=
            send_tokens rest chainTicker address subscribers in
          ((send_all subscribers message ++ ds)%list, finished)
      end
  end.

(** The body of the loop over [trackedAddresses]. *)
Fixpoint notify (wallets : list TrackedWallet.t) (what : transfers)
  (txData : Json.t) (chainTicker : string) (trackedAddresses : list string)
  : option (list delivery * bool) :=
  match trackedAddresses with
  | [] => Some ([], true)
  | address :: rest =>
      let continue := notify wallets what txData chainTicker rest in
      match TrackedWallet.findOne wallets address chainTicker with
      | None => continue
      | Some wallet =>
          match TrackedWallet.trackingUserIds wallet with
          | [] => continue
          | subscribers =>
              match what with
              | Unmodelled => None
              | NotIterable => Some ([], false)
              | Transfers items =>
                  let '(ds, finished) :=
                    send_tokens items chainTicker address subscribers in
                  if finished
                  then option_map
                         (fun r => ((ds ++ fst r)%list, snd r)) continue
                  else Some (ds, false)
              | NoTransfers =>
                  match formatNativeTransaction txData chainTicker
                          address with
                  | Throw _ => Some ([], false)
                  | Normal message =>
                      option_map
                        (fun r =>
                           ((send_all subscribers message ++ fst r)%list,
                            snd r))
                        continue
                  end
              end
          end
      end
  end.

(** [processTransaction(txData, webhookData)]: the deliveries it makes.
    An exception ends it where it is thrown; the catch block logs it.
    [None]: the payload is outside the model. *)
Definition processTransaction (wallets : list TrackedWallet.t)
  (txData webhookData : Json.t) : option (list delivery) :=
  match
    (chainId <- prop webhookData "chainId" ;;
     match ticker_of Config.CHAIN_CONFIG (or_empty chainId) with
     | None => Normal (Some [])
     | Some chainTicker =>
         if negb (JsString.truthy chainTicker) then Normal (Some [])
         else
           from <- prop txData "fromAddress" ;;
           fromAddr <- lower_or_empty from ;;
           to <- prop txData "toAddress" ;;
           toAddr <- lower_or_empty to ;;
           let trackedAddresses :=
             ((if JsString.truthy fromAddr then [fromAddr] else [])
              ++ (if JsString.truthy toAddr then [toAddr] else []))%list in
           what <- erc20Transfers webhookData ;;
           Normal (option_map fst
                     (notify wallets what txData chainTicker
                        trackedAddresses))
     end)%js
  with
  | Normal r => r
  | Throw _ => Some []
  end.

(** The body of a response. *)
Inductive answer : Type :=
| EndpointWorking               (* success: true, the probe *)
| InvalidSignature              (* error: 'Invalid signature' *)
| NoTransactions                (* status: 'ok', message: 'No transactions' *)
| Processed (count : Z)         (* status: 'ok', processed: count *)
| InternalServerError.          (* the catch block *)

Record Response : Type := {
  status : Z;
  body : answer;
  deliveries : option (list delivery)
}.

Definition reply (code : Z) (a : answer) : Response :=
  {| status := code; body := a; deliveries := Some [] |}.

(** [webhookData.txs || []], as far as the handler uses it. *)
Inductive txs_shape : Type :=
| NoTxs                        (* [txs.length === 0] *)
| Txs (items : list Json.t)    (* an array to map over *)
| NotAnArray.                  (* [txs.map] is not a function *)

Definition txs_of (webhookData : Json.t) : completion txs_shape :=
  (v <- prop webhookData "txs" ;;
   if negb (truthy v) then Normal NoTxs
   else
     match v with
     | Some (JArr []) => Normal NoTxs
     | Some (JArr items) => Normal (Txs items)
     | Some (JObj fields) =>
         match assoc fields "length" with
         | Some (JNum 0) => Normal NoTxs
         | _ => Normal NotAnArray
         end
     | _ => Normal NotAnArray
     end)%js.

Fixpoint process_all (wallets : list TrackedWallet.t)
  (items : list Json.t) (webhookData : Json.t) : option (list delivery) :=
  match items with
  | [] => Some []
  | tx :: rest =>
      match processTransaction wallets tx webhookData,
            process_all wallets rest webhookData with
      | Some ds, Some ds' => Some (ds ++ ds')%list
      | _, _ => None
      end
  end.

(** [app.post(config.server.webhookPath, ...)] on a request whose
    [x-signature] header and parsed body are given. *)
Definition post_webhook (cfg : Config.t) (wallets : list TrackedWallet.t)
  (signature : option string) (webhookData : Json.t) : Response :=
  match signature with
  | None => reply 200 EndpointWorking
  | Some signature =>
      if negb (JsString.truthy signature) then reply 200 EndpointWorking
      else if negb (verifyWebhookSignature cfg webhookData signature)
      then reply 401 InvalidSignature
      else
        match (tag <- prop webhookData "tag" ;;
               _ <- interpolate tag ;;
               txs_of webhookData)%js with
        | Throw _ => reply 500 InternalServerError
        | Normal NoTxs => reply 200 NoTransactions
        | Normal NotAnArray => reply 500 InternalServerError
        | Normal (Txs items) =>
            {| status := 200;
               body := Processed (Z.of_nat (List.length items));
               deliveries := process_all wallets items webhookData |}
        end
  end.

(** A request as it arrives: the header, if any, and the bytes of the
    body. *)
Record Request : Type := {
  x_signature : option string;
  rawBody : string
}.

(** The request through [express.json()] and the handler. *)
Definition receive (cfg : Config.t) (wallets : list TrackedWallet.t)
  (req : Request) : option Response :=
  option_map (post_webhook cfg wallets (x_signature req))
    (express_json (rawBody req)).

End WebhookService.

(* ================================================================== *)
(** * Fixtures: a configuration and a stand-in for ethers              *)
(* ================================================================== *)

Module Fixture.

Definition address_lower : string :=
  "0xd8da6bf26964af9d7eed9e03e53415d37aa96045".
Definition address_upper : string :=
  "0xD8DA6BF26964AF9D7EED9E03E53415D37AA96045".
Definition address_checksum : string :=
  "0xd8dA6BF26964aF9D7eEd9e03E53415D37aA96045".

(** [ethers] on the three usual spellings of one address: all lower
    case, all upper case and checksummed.  Everything else is taken
    as not an address. *)
#[export] Instance ethers : Ethers := {
  isAddress s :=
    JsString.includes [address_lower; address_upper; address_checksum] s;
  getAddress s :=
    if JsString.includes [address_lower; address_upper; address_checksum] s
    then Normal address_checksum
    else Throw Error
}.

(** The defaults of src/config/index.js, with a secret and a public
    URL. *)
Definition config : Config.t :=
  {| Config.webhookSecret := "whsec-2f6c1e";
     Config.webhookPublicUrl := "https://bot.example.org";
     Config.webhookPath := "/webhook/moralis";
     Config.rateLimitWindowMs := 60000;
     Config.rateLimitMaxRequests := 10;
     Config.supported :=
       ["ETH"; "BSC"; "POLYGON"; "AVALANCHE"; "ARBITRUM"; "OPTIMISM";
        "BASE"; "SOL"] |}.

(** Two users tracking the same wallet, spelled in two ways. *)
Definition alice : BotService.Context :=
  {| BotService.from_id := 1001;
     BotService.from_username := Some "alice";
     BotService.args := ["eth"; address_lower; "Main"] |}.

Definition bob : BotService.Context :=
  {| BotService.from_id := 1002;
     BotService.from_username := None;
     BotService.args := ["ETH"; address_upper] |}.

(** The provider creating a stream, and the provider failing. *)
Definition created : MoralisService.http_outcome :=
  MoralisService.Response 201
    (Some {| MoralisService.id := "a1b2c3d4-stream" |}).

Definition unavailable : MoralisService.http_outcome :=
  MoralisService.Rejected.


Definition alice_tracks : list BotService.command :=
  [BotService.Track alice 1000 created].

Definition both_track : list BotService.command :=
  [BotService.Track alice 1000 created; BotService.Track bob 2000 created].

(** The record after [alice_tracks], and after [both_track]. *)
Definition wallet_alice : TrackedWallet.t :=
  {| TrackedWallet._id := 0%nat;
     TrackedWallet.address := address_lower;
     TrackedWallet.chainTicker := "ETH";
     TrackedWallet.alias := Some "Main";
     TrackedWallet.trackingUserIds := [1001];
     TrackedWallet.moralisStreamId := Some "a1b2c3d4-stream" |}.

Definition wallet_both : TrackedWallet.t :=
  {| TrackedWallet._id := 0%nat;
     TrackedWallet.address := address_lower;
     TrackedWallet.chainTicker := "ETH";
     TrackedWallet.alias := Some "Main";
     TrackedWallet.trackingUserIds := [1001; 1002];
     TrackedWallet.moralisStreamId := Some "a1b2c3d4-stream" |}.

(** An event whose transaction goes from the tracked wallet to
    itself, the sender spelled with its checksum. *)
Definition self_transfer : Json.t :=
  Json.JObj [("hash", Json.JStr "0x5c504ed432cb51138bcf09aa5e8a410dd4a1e204ef84bfed1be16dfba1b22060");
             ("fromAddress", Json.JStr address_checksum);
             ("toAddress", Json.JStr address_lower);
             ("value", Json.JStr "1500000000000000000")].

Definition self_transfer_event : Json.t :=
  Json.JObj [("chainId", Json.JStr "0x1");
             ("tag", Json.JStr "ETH_0xd8dA6B");
             ("txs", Json.JArr [self_transfer])].

Definition quoted (s : string) : string :=
  String Json.dquote (s ++ String Json.dquote EmptyString).

(** The bytes of a request body, with a space after each colon and
    comma, and the value [express.json()] parses them into. *)
Definition spaced_body : string :=
  "{" ++ quoted "chainId" ++ ": " ++ quoted "0x1" ++ ", "
      ++ quoted "tag" ++ ": " ++ quoted "ETH_0xd8dA6B" ++ ", "
      ++ quoted "txs" ++ ": []}".

Definition spaced_body_parsed : Json.t :=
  Json.JObj [("chainId", Json.JStr "0x1");
             ("tag", Json.JStr "ETH_0xd8dA6B");
             ("txs", Json.JArr [])].

End Fixture.

(* ================================================================== *)
(** * Vocabulary of the properties of the subscription store           *)
(* ================================================================== *)

Module SubscriptionSpec.
Import TrackedWallet BotService.

(** The compound key of the unique index. *)
Definition key (w : TrackedWallet.t) : string * string :=
  (address w, chainTicker w).

(** The users subscribed to [(a, c)]: the subscriber sets of the
    records with that key. *)
Definition subscribers (coll : list TrackedWallet.t) (a c : string)
  : list Z :=
  flat_map trackingUserIds (filter (matches a c) coll).

(** What holds of the database after any sequence of commands: no
    record without a subscriber, no subscriber twice in a record, one
    record for a key, one for an [_id], ids below the next fresh one,
    and a stream id in every record. *)
Record Inv (d : Database) : Prop := {
  inv_nonempty : Forall (fun w => trackingUserIds w <> []) (wallets d);
  inv_members : Forall (fun w => NoDup (trackingUserIds w)) (wallets d);
  inv_keys : NoDup (map key (wallets d));
  inv_ids : NoDup (map _id (wallets d));
  inv_fresh : Forall (fun w => (_id w < next_id d)%nat) (wallets d);
  inv_stream : Forall (fun w => moralisStreamId w <> None) (wallets d)
}.

(** The callback URL given to the provider. *)
Definition webhookUrl (cfg : Config.t) : string :=
  Config.webhookPublicUrl cfg ++ Config.webhookPath cfg.

(** The replies of a [/track] that leave the user subscribed. *)
Definition subscribed (r : reply) : bool :=
  match r with
  | TrackingStarted | NowTracking | AlreadyTracking => true
  | _ => false
  end.

End SubscriptionSpec.

(* ================================================================== *)
(** * Vocabulary of the properties of the dispatcher                   *)
(* ================================================================== *)

Module DispatchSpec.
Import Json WebhookService.

(** The pair (chain, address) an alert is about. *)
Definition about (c a : string) (m : alert) : bool :=
  match m with
  | NativeAlert _ c' a' | TokenAlert _ c' a' =>
      String.eqb c' c && String.eqb a' a
  end.

(** The number of deliveries to a user about a pair. *)
Definition deliveries_to (u : Z) (c a : string) (ds : list delivery) : nat :=
  List.length (filter (fun d => (fst d =? u) && about c a (snd d)) ds).

(** The chain ticker of an event, and the lower-case sender and
    recipient of a transaction, as [processTransaction] reads them. *)
Definition chain_of (webhookData : Json.t) : completion (option string) :=
  (chainId <- prop webhookData "chainId" ;;
   Normal (ticker_of Config.CHAIN_CONFIG (or_empty chainId)))%js.

Definition sender (txData : Json.t) : completion string :=
  (v <- prop txData "fromAddress" ;; lower_or_empty v)%js.

Definition recipient (txData : Json.t) : completion string :=
  (v <- prop txData "toAddress" ;; lower_or_empty v)%js.

(** A token transfer that [formatTokenTransaction] formats. *)
Definition formats (tokenTransfer : Json.t) : bool :=
  match formatTokenTransaction tokenTransfer EmptyString EmptyString with
  | Normal _ => true
  | Throw _ => false
  end.

(** A transaction that [formatNativeTransaction] formats. *)
Definition formats_native (txData : Json.t) : bool :=
  match formatNativeTransaction txData EmptyString EmptyString with
  | Normal _ => true
  | Throw _ => false
  end.

(** The alerts generated each time an address is resolved to a
    wallet: one for a native transaction, one for each token transfer
    otherwise (when all of them format). *)
Definition alerts_per_resolution (txData : Json.t) (what : transfers)
  : option nat :=
  match what with
  | NoTransfers => if formats_native txData then Some 1%nat else None
  | Transfers items =>
      if forallb formats items then Some (List.length items) else None
  | NotIterable | Unmodelled => None
  end.

(** How many of the sender and the recipient are the address [a]. *)
Definition occurrences (a f t : string) : nat :=
  ((if String.eqb f a then 1 else 0) + (if String.eqb t a then 1 else 0))%nat.

End DispatchSpec.
From Stdlib Require Import Permutation.


(* ================================================================== *)
(** * More of the bot service: the rate limiter over time, /stats      *)
(* ================================================================== *)

Module RateLimit.
Import BotService.

(** A sequence of calls [checkRateLimit(userId)], each at its time,
    from left to right: whether each was allowed, and the map left. *)
Fixpoint check_all (cfg : Config.t) (calls : list (Z * Z))
  (m : CommandCounts) : list bool * CommandCounts :=
  match calls with
  | [] => ([], m)
  | (userId, now) :: rest =>
      let '(allowed, m') := checkRateLimit cfg m userId now in
      let '(results, m'') := check_all cfg rest m' in
      (allowed :: results, m'')
  end.

(** The calls that were allowed. *)
Fixpoint granted (calls : list (Z * Z)) (results : list bool)
  : list (Z * Z) :=
  match calls, results with
  | c :: calls', true :: results' => c :: granted calls' results'
  | _ :: calls', false :: results' => granted calls' results'
  | _, _ => []
  end.

(** A call of [userId] at time [t] falls in the window that ends at
    [T]. *)
Definition in_window (cfg : Config.t) (userId T : Z) (c : Z * Z) : bool :=
  (fst c =? userId) && (T - snd c <? Config.rateLimitWindowMs cfg)
  && (snd c <=? T).

(** Time does not go back from one call to the next. *)
Fixpoint chronological (calls : list (Z * Z)) : Prop :=
  match calls with
  | [] => True
  | c :: rest => Forall (fun c' => snd c <= snd c') rest /\ chronological rest
  end.

(** The time stamps stored for a user. *)
Definition stored (m : CommandCounts) (userId : Z) : list Z :=
  match counts_get m userId with Some l => l | None => [] end.

(** A time stamp inside the window that ends at [T]. *)
Definition recent (cfg : Config.t) (T : Z) (ts : Z) : bool :=
  (T - ts <? Config.rateLimitWindowMs cfg) && (ts <=? T).

(** Who sent a command, and when it was handled. *)
Definition call_of (c : command) : Z * Z :=
  match c with
  | Track ctx now _ | Untrack ctx now _ => (from_id ctx, now)
  end.

(** The replies to a sequence of commands, each handled to its end
    before the next. *)
Fixpoint replies `{Ethers} (cfg : Config.t) (cs : list command)
  (st : State) : list reply :=
  match cs with
  | [] => []
  | c :: rest =>
      message (handle cfg st c) :: replies cfg rest (state (handle cfg st c))
  end.

(** The commands that got past the rate limit. *)
Fixpoint admitted (cs : list command) (rs : list reply) : list (Z * Z) :=
  match cs, rs with
  | c :: cs', r :: rs' =>
      match r with
      | RateLimited => admitted cs' rs'
      | _ => call_of c :: admitted cs' rs'
      end
  | _, _ => []
  end.

End RateLimit.

Module Stats.
Import BotService.

(** [User.findOne({ telegramId: userId })]. *)
Definition findUser (coll : list User.t) (userId : Z) : option User.t :=
  find (fun u => User.telegramId u =? userId) coll.

(** What [/stats] reads: the user document and the wallets found by
    [TrackedWallet.find({ trackingUserIds: userId })]; [None] is the
    reply "User not found". *)
Definition stats (st : State) (ctx : Context)
  : option (User.t * list TrackedWallet.t) :=
  match findUser (users (db st)) (from_id ctx) with
  | None => None
  | Some user =>
      Some (user, TrackedWallet.find_tracking (wallets (db st)) (from_id ctx))
  end.

(** [bot.start]: the user is created or its name refreshed. *)
Definition start (st : State) (ctx : Context) : State :=
  with_db st
    {| users := User.upsert (users (db st)) (from_id ctx) (from_username ctx);
       wallets := wallets (db st);
       next_id := next_id (db st) |}.

End Stats.

Module Session.
Import BotService.

(** What a user sends in a chat: [/start], or one of the two commands
    that change subscriptions. *)
Inductive event : Type :=
| Start (ctx : Context)
| Command (c : command).

Definition step `{Ethers} (cfg : Config.t) (st : State) (e : event)
  : State :=
  match e with
  | Start ctx => Stats.start st ctx
  | Command c => state (handle cfg st c)
  end.

(** The state after a sequence of events, each handled to its end
    before the next. *)
Definition run `{Ethers} (cfg : Config.t) (es : list event) (st : State)
  : State :=
  fold_left (step cfg) es st.

End Session.

(* ================================================================== *)
(** * Vocabulary of further properties of the store                    *)
(* ================================================================== *)

Module StoreSpec.
Import TrackedWallet BotService JsString.

(** What the schema of [TrackedWallet] asks of a document: a
    lower-case address, an upper-case ticker (one [CHAIN_CONFIG]
    has), an alias of at most 32 characters, all of them letters,
    digits, [_], [-] or white space. *)
Definition well_formed (w : TrackedWallet.t) : bool :=
  String.eqb (toLowerCase (address w)) (address w)
  && String.eqb (toUpperCase (chainTicker w)) (chainTicker w)
  && match Config.lookup Config.CHAIN_CONFIG (chainTicker w) with
     | Some _ => true
     | None => false
     end
  && match alias w with
     | Some a =>
         truthy a && (String.length a <=? 32)%nat
         && Validators.all_chars Validators.is_alias_char a
     | None => true
     end.

(** What a wallet document holds besides its time stamps [createdAt]
    and [updatedAt] (which [save()] rewrites). *)
Definition content (w : TrackedWallet.t)
  : ObjectId * string * string * option string * list Z * option string :=
  (_id w, address w, chainTicker w, alias w, trackingUserIds w,
   moralisStreamId w).

(** [user.trackedWalletIds] of the document [User.findOne] returns. *)
Definition ids_of (coll : list User.t) (userId : Z)
  : option (list ObjectId) :=
  option_map User.trackedWalletIds (Stats.findUser coll userId).

(** The wallet with this [_id] has the user among its subscribers. *)
Definition tracks (coll : list TrackedWallet.t) (userId : Z)
  (id : ObjectId) : Prop :=
  exists w, In w coll /\ _id w = id /\ In userId (trackingUserIds w).

(** The two collections agree: one document for a [telegramId]; the
    wallet ids of a user are, without repetition, the ids of the
    wallets the user subscribes to; every subscriber has a user
    document. *)
Record Linked (d : Database) : Prop := {
  link_unique : NoDup (map User.telegramId (users d));
  link_ids : forall uid l,
      ids_of (users d) uid = Some l ->
      NoDup l /\ forall id, In id l <-> tracks (wallets d) uid id;
  link_known : forall uid id,
      tracks (wallets d) uid id -> ids_of (users d) uid <> None
}.

(** The replies of a command that was turned down. *)
Definition refused (r : reply) : bool :=
  match r with
  | RateLimited | InvalidFormat | UnsupportedChain | InvalidAlias
  | InvalidAddress _ | NotTracking => true
  | _ => false
  end.

(** The same message with the chain ticker in upper case. *)
Definition upper_ticker (ctx : Context) : Context :=
  {| from_id := from_id ctx;
     from_username := from_username ctx;
     args := match args ctx with
             | [] => []
             | arg0 :: rest => toUpperCase arg0 :: rest
             end |}.

Definition upper_command (c : command) : command :=
  match c with
  | Track ctx now answer => Track (upper_ticker ctx) now answer
  | Untrack ctx now answer => Untrack (upper_ticker ctx) now answer
  end.

End StoreSpec.

(* ================================================================== *)
(** * More of src/services/moralis.service.js: the stream configuration *)
(* ================================================================== *)

Module StreamConfig.
Import JsString.

(** [streamConfig.chains] in [createStream]: set for an EVM chain to
    [[chainConfig.moralisChain]]; a Solana stream has [network]
    instead, and an unknown ticker makes no stream. *)
Definition chains (chainTicker : string) : option (list string) :=
  match Config.lookup Config.CHAIN_CONFIG (toUpperCase chainTicker) with
  | None => None
  | Some chainConfig =>
      if String.eqb (toUpperCase chainTicker) "SOL" then None
      else Some [Config.moralisChain chainConfig]
  end.

End StreamConfig.

(* ================================================================== *)
(** * Vocabulary of the properties of the signature                    *)
(* ================================================================== *)

Module SignatureSpec.
Import JsString.

(** A digit of lower-case hexadecimal: [0-9a-f]. *)
Definition is_hex_lower (c : ascii) : bool :=
  let n := nat_of_ascii c in
  is_digit c || ((97 <=? n)%nat && (n <=? 102)%nat).

End SignatureSpec.

(* ================================================================== *)
(** * More of src/utils/formatters.js: alerts, lists and statistics    *)
(* ================================================================== *)

Module Alerts.
Import JsString Json.

(** [getTransactionEmoji(isIncoming)]. *)
Definition getTransactionEmoji (isIncoming : bool) : string :=
  if isIncoming then "📥" else "📤".

(** [v || d] on a property read from the payload. *)
Definition or_default (v : option Json.t) (d : Json.t) : Json.t :=
  match v with
  | Some j => if truthy v then j else d
  | None => d
  end.

(** [chainConfig.decimals || 18], with [chainConfig] the entry of
    [CHAIN_CONFIG] for the ticker, or [{}]. *)
Definition decimals_of (chainTicker : string) : Z :=
  match Config.lookup Config.CHAIN_CONFIG chainTicker with
  | Some chainConfig =>
      if Config.decimals chainConfig =? 0 then 18
      else Config.decimals chainConfig
  | None => 18
  end.

(** [BigInt(v)] for a value out of [JSON.parse]: a string is parsed,
    a number (an integer here) and a boolean are converted, [null] is
    a TypeError; an object is converted through its primitive value,
    which throws (a SyntaxError on ["[object Object]"], a TypeError
    when the object has a property [toString]).  An array goes
    through [join] and is left out: [None]. *)
Definition to_bigint (v : Json.t) : option (completion Z) :=
  match v with
  | JStr s => Some (JsBigInt.of_string s)
  | JNum n => Some (Normal n)
  | JBool b => Some (Normal (if b then 1 else 0))
  | JNull => Some (Throw TypeError)
  | JObj fields =>
      Some (Throw (match assoc fields "toString" with
                   | Some _ => TypeError
                   | None => SyntaxError
                   end))
  | JArr _ => None
  end.

(** The [try] block that computes the gas fee:
    [(BigInt(gasPrice) * BigInt(gasUsed)) / BigInt(10 ** decimals)],
    then [toString()]. *)
Definition gasFee_try (gasPrice gasUsed : Json.t)
  (decimals : JsBigInt.Decimals) : option (completion string) :=
  match to_bigint gasPrice with
  | None => None
  | Some (Throw e) => Some (Throw e)
  | Some (Normal p) =>
      match to_bigint gasUsed with
      | None => None
      | Some (Throw e) => Some (Throw e)
      | Some (Normal g) =>
          Some (d <- JsBigInt.of_number (JsBigInt.pow10 decimals) ;;
                gasFee <- JsBigInt.div (p * g) d ;;
                Normal (JsBigInt.toString gasFee))%js
      end
  end.

(** [gasFeeStr]: ['Unknown'] unless the [try] block assigns it. *)
Definition gasFeeStr (gasPrice gasUsed : Json.t)
  (decimals : JsBigInt.Decimals) : option string :=
  option_map
    (fun c => match c with Normal s => s | Throw _ => "Unknown" end)
    (gasFee_try gasPrice gasUsed decimals).

(** The lines of the alert of [formatNativeTransaction] that say who
    sent what to whom: direction, addresses and gas fee (the amount is
    [formatValue]).  The function throws where
    [WebhookService.formatNativeTransaction] does: on a [null]
    transaction, on a sender or recipient that is not a string and,
    when the template is filled in, on a [hash] that does not convert
    to a string. *)
Record NativeLines : Type := {
  directionEmoji : string;
  directionText : string;
  shownFrom : string;
  shownTo : string;
  shownGasFee : option string
}.

Definition native_lines (txData : Json.t)
  (chainTicker trackedAddress : string) : completion NativeLines :=
  (txHash <- prop txData "hash" ;;
   from <- prop txData "fromAddress" ;;
   fromAddr <- lower_or_empty from ;;
   to <- prop txData "toAddress" ;;
   toAddr <- lower_or_empty to ;;
   _ <- prop txData "value" ;;
   gasPrice <- prop txData "gasPrice" ;;
   gasUsed <- prop txData "gas" ;;
   let isIncoming := String.eqb toAddr (toLowerCase trackedAddress) in
   _ <- interpolate txHash ;;
   Normal {| directionEmoji := getTransactionEmoji isIncoming;
             directionText := if isIncoming then "Received" else "Sent";
             shownFrom := Formatters.formatAddress fromAddr true;
             shownTo := Formatters.formatAddress toAddr true;
             shownGasFee :=
               gasFeeStr (or_default gasPrice (JStr "0"))
                 (or_default gasUsed (JStr "0"))
                 (JsBigInt.Int (decimals_of chainTicker)) |})%js.

End Alerts.

Module Listing.
Import JsString.

(** [wallet.chainTicker || 'UNKNOWN']. *)
Definition chain_key (w : TrackedWallet.t) : string :=
  if truthy (TrackedWallet.chainTicker w) then TrackedWallet.chainTicker w
  else "UNKNOWN".

(** The object [byChain] of [formatStatsMessage], its properties in
    the order they were added: [byChain[chain] = (byChain[chain] || 0)
    + 1].  The tickers are keys of [CHAIN_CONFIG] or ['UNKNOWN'];
    none names a property an object inherits. *)
Fixpoint bump (byChain : list (string * Z)) (chain : string)
  : list (string * Z) :=
  match byChain with
  | [] => [(chain, 0 + 1)]
  | (k, n) :: rest =>
      if String.eqb k chain then (k, (if n =? 0 then 0 else n) + 1) :: rest
      else (k, n) :: bump rest chain
  end.

(** [byChain[chain] || 0]. *)
Definition count_of (byChain : list (string * Z)) (chain : string) : Z :=
  match find (fun p => String.eqb (fst p) chain) byChain with
  | Some p => if snd p =? 0 then 0 else snd p
  | None => 0
  end.

(** The sum of a list of counts. *)
Fixpoint list_sum_Z (l : list Z) : Z :=
  match l with
  | [] => 0
  | n :: rest => n + list_sum_Z rest
  end.

Definition count_by_chain (wallets : list TrackedWallet.t)
  : list (string * Z) :=
  fold_left (fun byChain w => bump byChain (chain_key w)) wallets [].

(** The object [byChain] of [formatWalletList]:
    [if (!byChain[chain]) byChain[chain] = [];
     byChain[chain].push(wallet)]. *)
Fixpoint push (byChain : list (string * list TrackedWallet.t))
  (chain : string) (w : TrackedWallet.t)
  : list (string * list TrackedWallet.t) :=
  match byChain with
  | [] => [(chain, [w])]
  | (k, g) :: rest =>
      if String.eqb k chain then (k, (g ++ [w])%list) :: rest
      else (k, g) :: push rest chain w
  end.

Definition group_by_chain (wallets : list TrackedWallet.t)
  : list (string * list TrackedWallet.t) :=
  fold_left (fun byChain w => push byChain (chain_key w) w) wallets [].

(** [formatWalletList(wallets, chainFilter)], up to the grouping: the
    two messages for an empty list, or the groups that are then
    sorted and printed. *)
Inductive listing : Type :=
| NotTrackingAny                 (* You're not tracking any wallets yet. *)
| NoneOnChain (chain : string)   (* ... any wallets on CHAIN. *)
| Groups (byChain : list (string * list TrackedWallet.t)).

Definition formatWalletList (wallets : list TrackedWallet.t)
  (chainFilter : option string) : listing :=
  match wallets with
  | [] => NotTrackingAny
  | _ =>
      match chainFilter with
      | Some chain =>
          if truthy chain then
            match filter (fun w => String.eqb (TrackedWallet.chainTicker w)
                                     (toUpperCase chain)) wallets with
            | [] => NoneOnChain (toUpperCase chain)
            | filteredWallets => Groups (group_by_chain filteredWallets)
            end
          else Groups (group_by_chain wallets)
      | None => Groups (group_by_chain wallets)
      end
  end.

(** The wallets a [/list] with these arguments is to show: all of
    them, or those of the chain named first. *)
Definition selected (ctx : BotService.Context) (w : TrackedWallet.t)
  : bool :=
  match BotService.args ctx with
  | arg0 :: _ =>
      if truthy arg0
      then String.eqb (TrackedWallet.chainTicker w) (toUpperCase arg0)
      else true
  | [] => true
  end.

(** [bot.command('list', ...)]: the reply. *)
Inductive list_reply : Type :=
| UnknownChain (chain : string)
| WalletList (l : listing).

Definition list_command (cfg : Config.t) (st : BotService.State)
  (ctx : BotService.Context) : list_reply :=
  let chainFilter :=
    match BotService.args ctx with
    | arg0 :: _ => if truthy arg0 then Some (toUpperCase arg0) else None
    | [] => None
    end in
  if match chainFilter with
     | Some chain =>
         truthy chain && negb (includes (Config.supported cfg) chain)
     | None => false
     end
  then UnknownChain (match chainFilter with Some c => c | None => "" end)
  else
    WalletList
      (formatWalletList
         (TrackedWallet.find_tracking (wallets (BotService.db st))
            (BotService.from_id ctx))
         chainFilter).

End Listing.

(* ================================================================== *)
(** * Facts on strings and decimal digits                              *)
(* ================================================================== *)

Section StringFacts.

Lemma append_nil_r (s : string) : s ++ "" = s.
Proof. induction s as [|c s IH]; simpl; [reflexivity | now rewrite IH]. Qed.

Lemma append_assoc (s t u : string) : (s ++ t) ++ u = s ++ (t ++ u).
Proof. induction s as [|c s IH]; simpl; [reflexivity | now rewrite IH]. Qed.

Lemma length_append (s t : string) :
  String.length (s ++ t) = (String.length s + String.length t)%nat.
Proof. induction s as [|c s IH]; simpl; [reflexivity | now rewrite IH]. Qed.

Lemma length_repeat_char c n : String.length (JsString.repeat_char c n) = n.
Proof. induction n; simpl; congruence. Qed.

Lemma slice0_all (n : nat) (s : string) :
  (String.length s <= n)%nat -> JsString.slice0 n s = s.
Proof.
  revert n; induction s as [|c s IH]; intros [|n] H; simpl in *;
    try reflexivity; try lia.
  rewrite IH by lia. reflexivity.
Qed.

Lemma slice0_app (n : nat) (s t : string) :
  (n <= String.length s)%nat ->
  JsString.slice0 n (s ++ t) = JsString.slice0 n s.
Proof.
  revert n; induction s as [|c s IH]; intros [|n] H; simpl in *;
    try reflexivity; try lia.
  rewrite IH by lia. reflexivity.
Qed.

Lemma strip_snoc (s : string) (c : ascii) :
  JsString.strip_trailing_zeros (s ++ String c "") =
  if Ascii.eqb c "0" then JsString.strip_trailing_zeros s
  else s ++ String c "".
Proof.
  induction s as [|a s IH]; simpl.
  - destruct (Ascii.eqb c "0"); reflexivity.
  - rewrite IH. destruct (Ascii.eqb c "0") eqn:Ec.
    + reflexivity.
    + destruct (s ++ String c "") eqn:E.
      * destruct s; discriminate.
      * rewrite andb_false_r. reflexivity.
Qed.

End StringFacts.

Section DigitFacts.
Import JsBigInt AmountSpec.

Lemma digit_char_is_zero (d : Z) :
  0 <= d < 10 -> Ascii.eqb (digit_char d) "0" = (d =? 0).
Proof.
  intros H.
  assert (E : d = 0 \/ d = 1 \/ d = 2 \/ d = 3 \/ d = 4 \/ d = 5 \/
              d = 6 \/ d = 7 \/ d = 8 \/ d = 9) by lia.
  repeat (destruct E as [E|E]; [subst d; reflexivity|]).
  subst d; reflexivity.
Qed.

Lemma fixed_digits_S (k : nat) (f : Z) :
  fixed_digits (S k) f =
  fixed_digits k (f / 10) ++ String (digit_char (f mod 10)) "".
Proof. reflexivity. Qed.

Lemma length_fixed_digits k f : String.length (fixed_digits k f) = k.
Proof.
  revert f; induction k as [|k IH]; intros f; simpl; [reflexivity|].
  rewrite length_append, IH. simpl. lia.
Qed.

Lemma fixed_digits_zero k : fixed_digits k 0 = JsString.repeat_char "0" k.
Proof.
  induction k as [|k IH]; simpl; [reflexivity|].
  rewrite Z.div_0_l, IH by lia. clear IH.
  induction k as [|k IH]; simpl; [reflexivity | now rewrite IH].
Qed.

(** Leading zeros: a number below [10^k] written on [j + k] digits. *)
Lemma fixed_digits_pad (j k : nat) (n : Z) :
  0 <= n < 10 ^ Z.of_nat k ->
  fixed_digits (j + k) n = JsString.repeat_char "0" j ++ fixed_digits k n.
Proof.
  revert n; induction k as [|k IH]; intros n H.
  - simpl in H. assert (n = 0) by lia. subst n.
    rewrite Nat.add_0_r, fixed_digits_zero. simpl. now rewrite append_nil_r.
  - rewrite Nat.add_succ_r. simpl. rewrite IH, append_assoc; [reflexivity|].
    rewrite Nat2Z.inj_succ, Z.pow_succ_r in H by lia.
    split; [apply Z.div_pos; lia | apply Z.div_lt_upper_bound; lia].
Qed.

(** The leading [k] digits of a [k + m]-digit number. *)
Lemma slice0_fixed_digits (k m : nat) (r : Z) :
  JsString.slice0 k (fixed_digits (k + m) r) =
  fixed_digits k (r / 10 ^ Z.of_nat m).
Proof.
  revert r; induction m as [|m IH]; intros r.
  - rewrite Nat.add_0_r, slice0_all by (rewrite length_fixed_digits; lia).
    simpl. now rewrite Z.div_1_r.
  - rewrite Nat.add_succ_r, fixed_digits_S.
    rewrite slice0_app by (rewrite length_fixed_digits; lia).
    rewrite IH, Nat2Z.inj_succ, Z.pow_succ_r, Z.div_div by lia.
    reflexivity.
Qed.

Lemma strip_fixed_digits (k : nat) (f : Z) :
  JsString.strip_trailing_zeros (fixed_digits k f) =
  let '(k', f') := trim_frac k f in fixed_digits k' f'.
Proof.
  revert f; induction k as [|k IH]; intros f; simpl; [reflexivity|].
  rewrite strip_snoc, digit_char_is_zero by (apply Z.mod_pos_bound; lia).
  destruct (f mod 10 =? 0); [apply IH | reflexivity].
Qed.

Lemma digits_acc_fixed (fuel : nat) :
  forall (n : Z) (acc : string),
    0 <= n < 10 ^ Z.of_nat (S fuel) ->
    exists k : nat,
      (1 <= k <= S fuel)%nat /\
      digits_acc fuel n acc = fixed_digits k n ++ acc /\
      n < 10 ^ Z.of_nat k /\
      (k = 1%nat \/ 10 ^ Z.of_nat (k - 1) <= n).
Proof.
  induction fuel as [|fuel IH]; intros n acc H.
  - exists 1%nat. simpl in *. repeat split; lia.
  - simpl digits_acc. destruct (n <? 10) eqn:E.
    + apply Z.ltb_lt in E. exists 1%nat. simpl. repeat split; lia.
    + apply Z.ltb_ge in E.
      rewrite Nat2Z.inj_succ, Z.pow_succ_r in H by lia.
      destruct (IH (n / 10) (String (digit_char (n mod 10)) acc)) as
        (k & Hk & Hd & Hlt & Hge).
      { split; [apply Z.div_pos; lia | apply Z.div_lt_upper_bound; lia]. }
      exists (S k). split; [lia|]. split.
      { rewrite Hd. simpl. now rewrite append_assoc. }
      split.
      { rewrite Nat2Z.inj_succ, Z.pow_succ_r by lia.
        pose proof (Z.div_mod n 10). pose proof (Z.mod_pos_bound n 10). lia. }
      right. replace (S k - 1)%nat with k by lia.
      destruct Hge as [->|Hge].
      { simpl. lia. }
      replace k with (S (k - 1)) at 1 by lia.
      rewrite Nat2Z.inj_succ, Z.pow_succ_r by lia.
      pose proof (Z.div_mod n 10). pose proof (Z.mod_pos_bound n 10). lia.
Qed.

Lemma digits_fixed (n : Z) :
  0 <= n ->
  exists k : nat,
    (1 <= k)%nat /\ digits n = fixed_digits k n /\
    n < 10 ^ Z.of_nat k /\ (k = 1%nat \/ 10 ^ Z.of_nat (k - 1) <= n).
Proof.
  intros H. unfold digits.
  destruct (digits_acc_fixed (Z.to_nat (Z.log2 n)) n "") as (k & Hk & Hd & Hb).
  - split; [exact H|].
    rewrite Nat2Z.inj_succ, Z2Nat.id by apply Z.log2_nonneg.
    destruct (Z.eq_dec n 0) as [->|Hn]; [simpl; lia|].
    pose proof (Z.log2_spec n ltac:(lia)) as [_ Hs].
    eapply Z.lt_le_trans; [exact Hs|].
    apply Z.pow_le_mono_l. pose proof (Z.log2_nonneg n). lia.
  - exists k. rewrite append_nil_r in Hd. repeat split; try tauto; lia.
Qed.

(** [r.toString().padStart(d, '0')] is [r] written on [d] digits. *)
Lemma padStart_digits (d : nat) (r : Z) :
  (1 <= d)%nat -> 0 <= r < 10 ^ Z.of_nat d ->
  JsString.padStart (digits r) d "0" = fixed_digits d r.
Proof.
  intros Hd Hr.
  destruct (digits_fixed r (proj1 Hr)) as (k & Hk & E & Hlt & Hge).
  assert (Hkd : (k <= d)%nat).
  { destruct Hge as [->|Hge]; [lia|].
    assert (10 ^ Z.of_nat (k - 1) < 10 ^ Z.of_nat d) by lia.
    apply Z.pow_lt_mono_r_iff in H; lia. }
  unfold JsString.padStart. rewrite E, length_fixed_digits.
  replace d with ((d - k) + k)%nat at 2 by lia.
  rewrite fixed_digits_pad by lia. reflexivity.
Qed.

End DigitFacts.

Section FormatValueFacts.
Import JsBigInt AmountSpec Formatters.

Lemma trim_frac_zero (k : nat) : trim_frac k 0 = (0%nat, 0).
Proof. induction k as [|k IH]; simpl; [reflexivity | exact IH]. Qed.

Lemma truthy_fixed_digits (k : nat) (f : Z) :
  JsString.truthy (fixed_digits k f) = negb (k =? 0)%nat.
Proof.
  destruct k as [|k]; [reflexivity|].
  rewrite fixed_digits_S. destruct (fixed_digits k (f / 10)); reflexivity.
Qed.

Lemma pow10_exact (d : Z) :
  0 <= d <= 22 -> pow10 (Int d) = Integral (10 ^ d).
Proof.
  intros H. unfold pow10.
  destruct (Z.ltb_spec d (-323)); [lia|].
  destruct (Z.ltb_spec d 0); [lia|].
  destruct (Z.leb_spec d 22); [reflexivity | lia].
Qed.

(** The fraction the code prints: the [d]-digit remainder, cut after
    eight digits, without its trailing zeros. *)
Lemma decimalStr_trim (d : nat) (r : Z) :
  0 <= r < 10 ^ Z.of_nat d ->
  JsString.strip_trailing_zeros
    (JsString.slice0 8 (JsString.padStart (digits r) d "0")) =
  let k := Nat.min d 8 in
  let '(k', f') := trim_frac k (r / 10 ^ Z.of_nat (d - k)) in
  fixed_digits k' f'.
Proof.
  intros Hr. destruct d as [|d].
  - simpl in Hr. assert (r = 0) by lia. subst r. reflexivity.
  - rewrite padStart_digits by (lia || exact Hr).
    destruct (Nat.le_gt_cases (S d) 8) as [Hle|Hgt].
    + rewrite slice0_all by (rewrite length_fixed_digits; exact Hle).
      rewrite Nat.min_l by exact Hle. cbv zeta.
      rewrite Nat.sub_diag. change (10 ^ Z.of_nat 0) with 1.
      rewrite Z.div_1_r. apply strip_fixed_digits.
    + rewrite Nat.min_r by lia. cbv zeta.
      replace (S d) with (8 + (S d - 8))%nat at 1 by lia.
      rewrite slice0_fixed_digits. apply strip_fixed_digits.
Qed.

Lemma formatValue_render (s : string) (d v : Z) :
  of_string s = Normal v -> 0 <= v -> 0 <= d <= 22 ->
  formatValue s (Int d) = Normal (truncated8 v (Z.to_nat d)).
Proof.
  intros Hs Hv Hd.
  assert (Hp : 0 < 10 ^ d) by (apply Z.pow_pos_nonneg; lia).
  unfold formatValue, formatValue_try.
  rewrite Hs, pow10_exact by exact Hd. cbn [bind of_number].
  unfold div, rem.
  destruct (Z.eqb_spec (10 ^ d) 0) as [E|_]; [lia|]. cbn [bind].
  rewrite Z.quot_div_nonneg, Z.rem_mod_nonneg by lia.
  pose proof (Z.mod_pos_bound v (10 ^ d) Hp) as Hr.
  assert (Hq : 0 <= v / 10 ^ d) by (apply Z.div_pos; lia).
  unfold truncated8, render, pad_length. rewrite Z2Nat.id by lia.
  set (q := v / 10 ^ d) in *. set (r := v mod 10 ^ d) in *.
  destruct ((q =? 0) && (r =? 0)) eqn:E0.
  - apply andb_true_iff in E0. destruct E0 as [Eq Er].
    apply Z.eqb_eq in Eq, Er. rewrite Eq, Er.
    rewrite Z.div_0_l by (apply Z.pow_nonzero; lia).
    rewrite trim_frac_zero. reflexivity.
  - unfold toString.
    destruct (Z.ltb_spec q 0) as [?|_]; [lia|].
    destruct (Z.ltb_spec r 0) as [?|_]; [lia|].
    rewrite decimalStr_trim by (rewrite Z2Nat.id by lia; exact Hr).
    cbv zeta.
    destruct (trim_frac _ _) as [k' f']. cbn [try_catch].
    rewrite truthy_fixed_digits. destruct k'; reflexivity.
Qed.

(** Trimming keeps the value of the fraction and stops at a digit
    that is not zero. *)
Lemma trim_frac_value (k : nat) (f : Z) :
  let '(k', f') := trim_frac k f in
  (k' <= k)%nat /\ f = f' * 10 ^ Z.of_nat (k - k') /\
  (k' = O \/ f' mod 10 <> 0).
Proof.
  revert f. induction k as [|k IH]; intros f.
  - simpl. split; [lia|]. split; [lia | now left].
  - cbn [trim_frac]. destruct (Z.eqb_spec (f mod 10) 0) as [E|E].
    + specialize (IH (f / 10)). destruct (trim_frac k (f / 10)) as [k' f'].
      destruct IH as (Hk & Hf & Hd). split; [lia|]. split; [|exact Hd].
      replace (S k - k')%nat with (S (k - k')) by lia.
      rewrite Nat2Z.inj_succ, Z.pow_succ_r by lia.
      pose proof (Z.div_mod f 10). lia.
    + split; [lia|]. split; [|now right].
      rewrite Nat.sub_diag. change (10 ^ Z.of_nat 0) with 1. lia.
Qed.

(** Zero digits at the end of the fraction are trimmed either way. *)
Lemma trim_frac_shift (k m : nat) (f : Z) :
  trim_frac (k + m) (f * 10 ^ Z.of_nat m) = trim_frac k f.
Proof.
  induction m as [|m IH].
  - rewrite Nat.add_0_r. change (10 ^ Z.of_nat 0) with 1.
    now rewrite Z.mul_1_r.
  - rewrite Nat.add_succ_r, Nat2Z.inj_succ, Z.pow_succ_r by lia.
    replace (f * (10 * 10 ^ Z.of_nat m)) with (f * 10 ^ Z.of_nat m * 10)
      by ring.
    cbn [trim_frac]. rewrite Z.mod_mul, Z.div_mul by lia. exact IH.
Qed.

Lemma truncated8_exact (v : Z) (d : nat) :
  0 <= v ->
  (v mod 10 ^ Z.of_nat d) mod 10 ^ Z.of_nat (d - 8) = 0 ->
  truncated8 v d = exact v d.
Proof.
  intros Hv Hz. unfold truncated8, exact, render.
  rewrite Nat.sub_diag. change (10 ^ Z.of_nat 0) with 1.
  rewrite Z.div_1_r.
  set (r := v mod 10 ^ Z.of_nat d) in *.
  destruct (Nat.le_gt_cases d 8) as [Hle|Hgt].
  - rewrite Nat.min_l by exact Hle. rewrite Nat.sub_diag.
    change (10 ^ Z.of_nat 0) with 1. now rewrite Z.div_1_r.
  - rewrite Nat.min_r by lia.
    assert (Hp : 0 < 10 ^ Z.of_nat (d - 8)) by (apply Z.pow_pos_nonneg; lia).
    assert (Er : r = r / 10 ^ Z.of_nat (d - 8) * 10 ^ Z.of_nat (d - 8)).
    { pose proof (Z.div_mod r (10 ^ Z.of_nat (d - 8))). lia. }
    assert (Et : trim_frac d r = trim_frac 8 (r / 10 ^ Z.of_nat (d - 8))).
    { rewrite Er at 1. replace d with (8 + (d - 8))%nat at 1 by lia.
      apply trim_frac_shift. }
    now rewrite Et.
Qed.

Lemma formatValue_returns (value : string) (decimals : Decimals) :
  exists s, formatValue value decimals = Normal s.
Proof.
  unfold formatValue.
  destruct (formatValue_try value decimals) as [s|e]; cbn; eauto.
Qed.

Lemma formatValue_bad_value (value : string) (decimals : Decimals)
  (e : exn) :
  of_string value = Throw e -> formatValue value decimals = Normal "0".
Proof.
  intros H. unfold formatValue, formatValue_try. rewrite H. reflexivity.
Qed.

Lemma formatValue_bad_decimals (value : string) (decimals : Decimals)
  (e : exn) :
  of_number (pow10 decimals) = Throw e ->
  formatValue value decimals = Normal "0".
Proof.
  intros H. unfold formatValue, formatValue_try. rewrite H.
  destruct (of_string value); reflexivity.
Qed.

End FormatValueFacts.

(* ================================================================== *)
(** * The subscription store: invariant of the reachable states        *)
(* ================================================================== *)

Module StoreFacts.
Import TrackedWallet SubscriptionSpec.




Lemma matches_key (a c : string) (w : TrackedWallet.t) :
  matches a c w = true <-> key w = (a, c).
Proof.
  unfold matches, key. rewrite andb_true_iff, !String.eqb_eq.
  split; [intros [-> ->]; reflexivity | intros E; inversion E; auto].
Qed.

Lemma key_fields (w : TrackedWallet.t) (a c : string) :
  key w = (a, c) -> address w = a /\ chainTicker w = c.
Proof. unfold key. intros E. inversion E. auto. Qed.

Lemma findOne_Some coll a c w :
  findOne coll a c = Some w -> In w coll /\ key w = (a, c).
Proof.
  intros H. apply find_some in H. now rewrite matches_key in H.
Qed.

Lemma findOne_None coll a c :
  findOne coll a c = None -> forall w, In w coll -> key w <> (a, c).
Proof.
  intros H w Hw E. apply matches_key in E.
  pose proof (find_none _ _ H w Hw). congruence.
Qed.

Lemma findOne_None_iff coll a c :
  findOne coll a c = None <-> ~ In (a, c) (map key coll).
Proof.
  split.
  - intros H Hin. apply in_map_iff in Hin. destruct Hin as (w & E & Hw).
    exact (findOne_None _ _ _ H w Hw E).
  - intros H. destruct (findOne coll a c) as [w|] eqn:E; [|reflexivity].
    apply findOne_Some in E. destruct E as [Hw E].
    exfalso. apply H. rewrite <- E. now apply in_map.
Qed.

Lemma findOne_app_None l1 l2 a c :
  findOne l1 a c = None -> findOne (l1 ++ l2)%list a c = findOne l2 a c.
Proof.
  unfold findOne. induction l1 as [|x l1 IH]; simpl; [reflexivity|].
  destruct (matches a c x); [discriminate | exact IH].
Qed.

(** Where the found document sits, and what [save] and [deleteOne]
    do there. *)
Lemma locate coll w :
  In w coll -> NoDup (map _id coll) ->
  exists l1 l2,
    coll = (l1 ++ w :: l2)%list /\
    (forall w', _id w' = _id w -> save coll w' = (l1 ++ w' :: l2)%list) /\
    deleteOne coll (_id w) = (l1 ++ l2)%list.
Proof.
  induction coll as [|x coll IH]; intros Hin Hnd; [contradiction|].
  simpl in Hnd. inversion Hnd as [|? ? Hx Hnd']; subst.
  destruct Hin as [->|Hin].
  - exists [], coll. split; [reflexivity|]. split.
    + intros w' E. simpl. rewrite E, Nat.eqb_refl. reflexivity.
    + simpl. now rewrite Nat.eqb_refl.
  - destruct (IH Hin Hnd') as (l1 & l2 & E & Hs & Hd).
    assert (Hne : _id x <> _id w).
    { intros Eid. apply Hx. rewrite Eid. now apply in_map. }
    apply Nat.eqb_neq in Hne.
    exists (x :: l1), l2. split; [simpl; now rewrite E|]. split.
    + intros w' Ew. simpl. rewrite Ew, Hne. now rewrite (Hs w' Ew).
    + simpl. now rewrite Hne, Hd.
Qed.

Lemma key_not_in_split l1 l2 w :
  NoDup (map key (l1 ++ w :: l2)%list) ->
  ~ In (key w) (map key l1) /\ ~ In (key w) (map key l2) /\
  NoDup (map key (l1 ++ l2)%list).
Proof.
  rewrite !map_app. simpl. intros H.
  pose proof (NoDup_remove_1 _ _ _ H) as H1.
  pose proof (NoDup_remove_2 _ _ _ H) as H2.
  rewrite in_app_iff in H2. tauto.
Qed.

Lemma findOne_middle l1 l2 w w' :
  key w' = key w ->
  NoDup (map key (l1 ++ w :: l2)%list) ->
  findOne (l1 ++ w' :: l2)%list (address w) (chainTicker w) = Some w'.
Proof.
  intros E H. destruct (key_not_in_split _ _ _ H) as (H1 & _ & _).
  rewrite findOne_app_None by (apply findOne_None_iff; exact H1).
  unfold findOne. simpl.
  assert (M : matches (address w) (chainTicker w) w' = true)
    by (apply matches_key; exact E).
  now rewrite M.
Qed.

Lemma findOne_removed l1 l2 w :
  NoDup (map key (l1 ++ w :: l2)%list) ->
  findOne (l1 ++ l2)%list (address w) (chainTicker w) = None.
Proof.
  intros H. destruct (key_not_in_split _ _ _ H) as (H1 & H2 & _).
  apply findOne_None_iff. rewrite map_app, in_app_iff. tauto.
Qed.


Lemma findOne_None_subscribers coll a c :
  findOne coll a c = None -> subscribers coll a c = [].
Proof.
  unfold findOne, subscribers. induction coll as [|x coll IH]; simpl;
    [reflexivity|].
  destruct (matches a c x); [discriminate | exact IH].
Qed.

(** Under the unique index a key selects one document. *)
Lemma findOne_unique coll a c w :
  NoDup (map key coll) -> findOne coll a c = Some w ->
  filter (matches a c) coll = [w].
Proof.
  unfold findOne. induction coll as [|x coll IH]; simpl; [discriminate|].
  intros Hnd. inversion Hnd as [|? ? Hx Hnd']; subst.
  destruct (matches a c x) eqn:M.
  - intros E. inversion E; subst. f_equal.
    apply matches_key in M.
    destruct (filter (matches a c) coll) as [|y l] eqn:Fl; [reflexivity|].
    exfalso. apply Hx.
    assert (Hy : In y (filter (matches a c) coll)) by (rewrite Fl; now left).
    apply filter_In in Hy. destruct Hy as [Hy My].
    apply matches_key in My. rewrite M, <- My. now apply in_map.
  - intros E. now apply IH.
Qed.

Lemma findOne_None_filter coll a c :
  findOne coll a c = None -> filter (matches a c) coll = [].
Proof.
  unfold findOne. induction coll as [|x coll IH]; simpl; [reflexivity|].
  destruct (matches a c x); [discriminate | exact IH].
Qed.

Lemma at_most_one coll a c :
  NoDup (map key coll) ->
  (List.length (filter (matches a c) coll) <= 1)%nat.
Proof.
  intros Hnd. destruct (findOne coll a c) as [w|] eqn:F.
  - rewrite (findOne_unique _ _ _ _ Hnd F). simpl. lia.
  - rewrite (findOne_None_filter _ _ _ F). simpl. lia.
Qed.


Lemma Forall_middle {A} (P : A -> Prop) l1 l2 (x y : A) :
  Forall P (l1 ++ x :: l2)%list -> P y -> Forall P (l1 ++ y :: l2)%list.
Proof.
  rewrite !Forall_app. intros [H1 H2] Hy. inversion H2; subst. auto.
Qed.

Lemma Forall_removed {A} (P : A -> Prop) l1 l2 (x : A) :
  Forall P (l1 ++ x :: l2)%list -> Forall P (l1 ++ l2)%list.
Proof.
  rewrite !Forall_app. intros [H1 H2]. inversion H2; subst. auto.
Qed.

Lemma map_middle {A B} (f : A -> B) l1 l2 (x y : A) :
  f y = f x -> map f (l1 ++ y :: l2)%list = map f (l1 ++ x :: l2)%list.
Proof. intros E. rewrite !map_app. simpl. now rewrite E. Qed.

Lemma NoDup_map_removed {A B} (f : A -> B) l1 l2 (x : A) :
  NoDup (map f (l1 ++ x :: l2)%list) -> NoDup (map f (l1 ++ l2)%list).
Proof.
  rewrite !map_app. simpl. apply NoDup_remove_1.
Qed.

Lemma NoDup_snoc {A} (l : list A) (a : A) :
  NoDup l -> ~ In a l -> NoDup (l ++ [a])%list.
Proof.
  intros Hl Ha. apply NoDup_Add with (a := a) (l := l); [|now split].
  pose proof (Add_app a l []) as H. now rewrite app_nil_r in H.
Qed.

Lemma Forall_at {A} (P : A -> Prop) l1 l2 (x : A) :
  Forall P (l1 ++ x :: l2)%list -> P x.
Proof. rewrite Forall_app. intros [_ H]. now inversion H. Qed.

Lemma existsb_Zeqb (u : Z) (l : list Z) :
  existsb (Z.eqb u) l = true <-> In u l.
Proof.
  rewrite existsb_exists. split.
  - intros (x & Hx & E). apply Z.eqb_eq in E. now subst.
  - intros H. exists u. split; [exact H | apply Z.eqb_refl].
Qed.

Lemma filter_others_nil (u : Z) (l : list Z) :
  filter (fun id => negb (id =? u)) l = [] <-> forall v, In v l -> v = u.
Proof.
  induction l as [|x l IH]; simpl.
  - split; [intros _ v [] | reflexivity].
  - destruct (Z.eqb_spec x u) as [->|Hne]; simpl.
    + rewrite IH. split; [intros H v [<-|Hv]; auto | auto].
    + split; [discriminate|]. intros H. exfalso. apply Hne, H. now left.
Qed.

End StoreFacts.

(* ================================================================== *)
(** * The two commands preserve the invariant                          *)
(* ================================================================== *)

Module BotFacts.
Import TrackedWallet BotService SubscriptionSpec StoreFacts.

Lemma Inv_empty : Inv empty_db.
Proof. constructor; simpl; constructor. Qed.

Lemma subscribe_Inv cfg st u un c n al ans :
  Inv (db st) -> Inv (db (state (subscribe cfg st u un c n al ans))).
Proof.
  intros [Hne Hmem Hkeys Hids Hfresh Hstr]. unfold subscribe. cbv zeta.
  destruct (findOne (wallets (db st)) (JsString.toLowerCase n) c)
    as [w|] eqn:F.
  - destruct (existsb (Z.eqb u) (trackingUserIds w)) eqn:Ex; simpl.
    + constructor; assumption.
    + apply findOne_Some in F. destruct F as [Hw _].
      destruct (locate _ _ Hw Hids) as (l1 & l2 & E & Hsave & _).
      rewrite Hsave by reflexivity. rewrite E in *.
      assert (Hu : ~ In u (trackingUserIds w)).
      { rewrite <- existsb_Zeqb. congruence. }
      constructor; simpl.
      * eapply Forall_middle; [exact Hne|]. simpl.
        intros Enil. apply app_eq_nil in Enil. destruct Enil; discriminate.
      * eapply Forall_middle; [exact Hmem|]. simpl.
        apply NoDup_snoc; [|exact Hu]. exact (Forall_at _ _ _ _ Hmem).
      * erewrite map_middle; [exact Hkeys | reflexivity].
      * erewrite map_middle; [exact Hids | reflexivity].
      * eapply Forall_middle; [exact Hfresh|]. simpl.
        exact (Forall_at _ _ _ _ Hfresh).
      * eapply Forall_middle; [exact Hstr|]. simpl.
        exact (Forall_at _ _ _ _ Hstr).
  - destruct (MoralisService.createStream n c _ ans) as [[data|] sent];
      simpl.
    + constructor; simpl.
      * apply Forall_app. split; [exact Hne|]. constructor; [|constructor].
        simpl. discriminate.
      * apply Forall_app. split; [exact Hmem|]. constructor; [|constructor].
        simpl. constructor; [intros []|constructor].
      * rewrite map_app. simpl. apply NoDup_snoc; [exact Hkeys|].
        now apply findOne_None_iff.
      * rewrite map_app. simpl. apply NoDup_snoc; [exact Hids|].
        intros Hin. apply in_map_iff in Hin.
        destruct Hin as (x & Ex & Hx).
        rewrite Forall_forall in Hfresh. specialize (Hfresh x Hx). lia.
      * apply Forall_app. split.
        { eapply Forall_impl; [|exact Hfresh]. simpl. intros; lia. }
        constructor; [simpl; lia | constructor].
      * apply Forall_app. split; [exact Hstr|]. constructor; [|constructor].
        simpl. discriminate.
    + constructor; assumption.
Qed.

Lemma unsubscribe_Inv st u c n ans :
  Inv (db st) -> Inv (db (state (unsubscribe st u c n ans))).
Proof.
  intros H. pose proof H as [Hne Hmem Hkeys Hids Hfresh Hstr].
  unfold unsubscribe. cbv zeta.
  destruct (findOne (wallets (db st)) (JsString.toLowerCase n) c)
    as [w|] eqn:F; [|exact H].
  destruct (existsb (Z.eqb u) (trackingUserIds w)) eqn:Ex; [|exact H].
  cbn [negb]. apply findOne_Some in F. destruct F as [Hw _].
  destruct (locate _ _ Hw Hids) as (l1 & l2 & E & Hsave & Hdel).
  destruct (filter (fun id => negb (id =? u)) (trackingUserIds w))
    as [|v rest] eqn:R; simpl.
  - rewrite Hdel. rewrite E in *. constructor; simpl.
    + exact (Forall_removed _ _ _ _ Hne).
    + exact (Forall_removed _ _ _ _ Hmem).
    + exact (NoDup_map_removed _ _ _ _ Hkeys).
    + exact (NoDup_map_removed _ _ _ _ Hids).
    + exact (Forall_removed _ _ _ _ Hfresh).
    + exact (Forall_removed _ _ _ _ Hstr).
  - rewrite Hsave by reflexivity. rewrite E in *. constructor; simpl.
    + eapply Forall_middle; [exact Hne|]. simpl. discriminate.
    + eapply Forall_middle; [exact Hmem|]. simpl. rewrite <- R.
      apply NoDup_filter. exact (Forall_at _ _ _ _ Hmem).
    + erewrite map_middle; [exact Hkeys | reflexivity].
    + erewrite map_middle; [exact Hids | reflexivity].
    + eapply Forall_middle; [exact Hfresh|]. simpl.
      exact (Forall_at _ _ _ _ Hfresh).
    + eapply Forall_middle; [exact Hstr|]. simpl.
      exact (Forall_at _ _ _ _ Hstr).
Qed.

(** ** What [subscribe] does, case by case *)


Lemma subscribe_already cfg st u un c n al ans w :
  findOne (wallets (db st)) (JsString.toLowerCase n) c = Some w ->
  In u (trackingUserIds w) ->
  let r := subscribe cfg st u un c n al ans in
  message r = AlreadyTracking /\
  wallets (db (state r)) = wallets (db st) /\
  next_id (db (state r)) = next_id (db st) /\
  requests r = [].
Proof.
  intros F Hu. unfold subscribe. cbv zeta. rewrite F.
  apply existsb_Zeqb in Hu. rewrite Hu. simpl. auto.
Qed.

Lemma subscribe_join cfg st u un c n al ans w :
  Inv (db st) ->
  findOne (wallets (db st)) (JsString.toLowerCase n) c = Some w ->
  ~ In u (trackingUserIds w) ->
  let r := subscribe cfg st u un c n al ans in
  exists w',
    findOne (wallets (db (state r))) (JsString.toLowerCase n) c = Some w' /\
    trackingUserIds w' = (trackingUserIds w ++ [u])%list /\
    _id w' = _id w /\ moralisStreamId w' = moralisStreamId w /\
    message r = confirm c NowTracking /\ requests r = [].
Proof.
  intros HI F Hu. unfold subscribe. cbv zeta. rewrite F.
  assert (Ex : existsb (Z.eqb u) (trackingUserIds w) = false).
  { destruct (existsb (Z.eqb u) (trackingUserIds w)) eqn:Ex; [|reflexivity].
    apply existsb_Zeqb in Ex. contradiction. }
  rewrite Ex. simpl.
  apply findOne_Some in F. destruct F as [Hw Hk].
  destruct (locate _ _ Hw (inv_ids _ HI)) as (l1 & l2 & E & Hsave & _).
  rewrite Hsave by reflexivity. eexists. split.
  { destruct (key_fields _ _ _ Hk) as [Ha Hc]. rewrite <- Ha, <- Hc.
    apply (findOne_middle l1 l2 w); [reflexivity|].
    rewrite <- E. apply (inv_keys _ HI). }
  repeat split.
Qed.

Lemma subscribe_create cfg st u un c n al ans :
  findOne (wallets (db st)) (JsString.toLowerCase n) c = None ->
  let r := subscribe cfg st u un c n al ans in
  match fst (MoralisService.createStream n c (webhookUrl cfg) ans) with
  | Some data =>
      exists w,
        findOne (wallets (db (state r))) (JsString.toLowerCase n) c = Some w /\
        wallets (db (state r)) = (wallets (db st) ++ [w])%list /\
        trackingUserIds w = [u] /\
        moralisStreamId w = Some (MoralisService.id data) /\
        address w = JsString.toLowerCase n /\ chainTicker w = c /\
        alias w = al /\
        message r = confirm c TrackingStarted
  | None =>
      wallets (db (state r)) = wallets (db st) /\
      findOne (wallets (db (state r))) (JsString.toLowerCase n) c = None /\
      message r = StreamFailed
  end /\
  requests r = snd (MoralisService.createStream n c (webhookUrl cfg) ans).
Proof.
  intros F. unfold subscribe, webhookUrl. cbv zeta. rewrite F.
  destruct (MoralisService.createStream n c _ ans) as [[data|] sent]; simpl.
  - split; [|reflexivity]. eexists. split.
    { rewrite findOne_app_None by exact F. unfold findOne, matches. simpl.
      now rewrite !String.eqb_refl. }
    repeat split.
  - auto.
Qed.


Lemma subscribed_confirm c r :
  subscribed (confirm c r) = true -> subscribed r = true.
Proof. unfold confirm. destruct (Config.lookup _ c); [auto | discriminate]. Qed.

(** After a [subscribe] that did not fail on the stream, the key has a
    record that holds the user; it is the record that was there, if
    there was one, with the subscribers it had. *)
Lemma subscribe_holds cfg st u un c n al ans :
  Inv (db st) ->
  let r := subscribe cfg st u un c n al ans in
  message r <> StreamFailed ->
  exists w,
    findOne (wallets (db (state r))) (JsString.toLowerCase n) c = Some w /\
    In u (trackingUserIds w) /\
    forall w0,
      findOne (wallets (db st)) (JsString.toLowerCase n) c = Some w0 ->
      _id w = _id w0 /\ incl (trackingUserIds w0) (trackingUserIds w).
Proof.
  intros HI r Hm.
  destruct (findOne (wallets (db st)) (JsString.toLowerCase n) c)
    as [w0|] eqn:F.
  - destruct (in_dec Z.eq_dec u (trackingUserIds w0)) as [Hu|Hu].
    + destruct (subscribe_already cfg st u un c n al ans w0 F Hu)
        as (_ & Ew & _).
      exists w0. fold r in Ew. rewrite Ew. split; [exact F|].
      split; [exact Hu|]. intros w1 E1. inversion E1; subst.
      split; [reflexivity | apply incl_refl].
    + destruct (subscribe_join cfg st u un c n al ans w0 HI F Hu)
        as (w' & Fw & Eids & Eid & _).
      exists w'. fold r in Fw. split; [exact Fw|]. split.
      * rewrite Eids. apply in_or_app. right. now left.
      * intros w1 E1. inversion E1; subst. split; [exact Eid|].
        rewrite Eids. apply incl_appl, incl_refl.
  - pose proof (subscribe_create cfg st u un c n al ans F) as [Hc _].
    fold r in Hc.
    destruct (fst (MoralisService.createStream n c (webhookUrl cfg) ans)).
    + destruct Hc as (w & Fw & _ & Eids & _).
      exists w. split; [exact Fw|]. split; [rewrite Eids; now left|].
      intros w0 E0. discriminate.
    + destruct Hc as (_ & _ & Em). contradiction.
Qed.

(** ** What [unsubscribe] does, case by case *)

Lemma unsubscribe_last st u c n ans w :
  Inv (db st) ->
  findOne (wallets (db st)) (JsString.toLowerCase n) c = Some w ->
  In u (trackingUserIds w) ->
  (forall v, In v (trackingUserIds w) -> v = u) ->
  let r := unsubscribe st u c n ans in
  findOne (wallets (db (state r))) (JsString.toLowerCase n) c = None /\
  wallets (db (state r)) = deleteOne (wallets (db st)) (_id w) /\
  message r = confirm c StoppedTracking /\
  requests r =
    match moralisStreamId w with
    | Some sid =>
        if JsString.truthy sid
        then [MoralisService.DeleteStream (String.eqb c "SOL") sid]
        else []
    | None => []
    end.
Proof.
  intros HI F Hu Hlast. unfold unsubscribe. cbv zeta. rewrite F.
  apply existsb_Zeqb in Hu. rewrite Hu. cbn [negb].
  apply filter_others_nil in Hlast. rewrite Hlast. simpl.
  apply findOne_Some in F. destruct F as [Hw Hk].
  destruct (locate _ _ Hw (inv_ids _ HI)) as (l1 & l2 & E & _ & Hdel).
  split; [|repeat split].
  - rewrite Hdel. destruct (key_fields _ _ _ Hk) as [Ha Hc].
    rewrite <- Ha, <- Hc. apply findOne_removed. rewrite <- E. apply (inv_keys _ HI).
  - destruct (moralisStreamId w) as [sid|]; [|reflexivity].
    destruct (JsString.truthy sid); [|reflexivity].
    destruct ans; reflexivity.
Qed.


Section Handlers.
Context `{Ethers} (cfg : Config.t).

(** A command either stops at one of its checks, leaving the
    database as it is, or goes on to the store. *)
Lemma track_db st ctx now ans :
  db (state (track cfg st ctx now ans)) = db st \/
  exists st' c n al,
    db st' = db st /\
    Validators.validateAddress (nth 1 (args ctx) "")
      (JsString.toUpperCase (nth 0 (args ctx) "")) = Validators.Valid n /\
    c = JsString.toUpperCase (nth 0 (args ctx) "") /\
    track cfg st ctx now ans =
    subscribe cfg st' (from_id ctx) (from_username ctx) c n al ans.
Proof.
  unfold track.
  destruct (checkRateLimit cfg (userCommandCounts st) (from_id ctx) now)
    as [allowed counts].
  destruct allowed; cbn [negb]; [|now left].
  destruct (args ctx) as [|arg0 [|arg1 rest]]; [now left | now left |].
  cbv zeta.
  destruct (negb (JsString.includes (Config.supported cfg)
                    (JsString.toUpperCase arg0))); [now left|].
  match goal with |- context [if ?b then _ else _] => destruct b end;
    [now left|].
  destruct (Validators.validateAddress arg1 (JsString.toUpperCase arg0))
    as [n|e] eqn:V; [|now left].
  right. exists (with_counts st counts), (JsString.toUpperCase arg0), n.
  eexists. simpl. repeat split. exact V.
Qed.

(** A [/track] that passes the rate limit and the validations is
    [subscribe] on the validated address; likewise [/untrack]. *)
Lemma track_accepted st ctx now ans counts arg0 arg1 rest n :
  checkRateLimit cfg (userCommandCounts st) (from_id ctx) now
    = (true, counts) ->
  args ctx = arg0 :: arg1 :: rest ->
  JsString.includes (Config.supported cfg) (JsString.toUpperCase arg0)
    = true ->
  (JsString.truthy (JsString.join_space rest) = true ->
   Validators.validateAlias (JsString.join_space rest) = true) ->
  Validators.validateAddress arg1 (JsString.toUpperCase arg0)
    = Validators.Valid n ->
  track cfg st ctx now ans =
  subscribe cfg (with_counts st counts) (from_id ctx) (from_username ctx)
    (JsString.toUpperCase arg0) n
    (if JsString.truthy (JsString.join_space rest)
     then Some (JsString.join_space rest) else None)
    ans.
Proof.
  intros Hr Ha Hs Hal Hv. unfold track. rewrite Hr, Ha. cbv zeta.
  rewrite Hs, Hv. cbn [negb].
  destruct (JsString.truthy (JsString.join_space rest)).
  - now rewrite (Hal eq_refl).
  - reflexivity.
Qed.

Lemma untrack_accepted st ctx now ans counts arg0 arg1 rest n :
  checkRateLimit cfg (userCommandCounts st) (from_id ctx) now
    = (true, counts) ->
  args ctx = arg0 :: arg1 :: rest ->
  Validators.validateAddress arg1 (JsString.toUpperCase arg0)
    = Validators.Valid n ->
  untrack cfg st ctx now ans =
  unsubscribe (with_counts st counts) (from_id ctx)
    (JsString.toUpperCase arg0) n ans.
Proof.
  intros Hr Ha Hv. unfold untrack. rewrite Hr, Ha. cbv zeta.
  now rewrite Hv.
Qed.

(** A [/track] that leaves the user subscribed went through all the
    checks and ran [subscribe] on the validated address. *)
Lemma track_subscribed st ctx now ans :
  subscribed (message (track cfg st ctx now ans)) = true ->
  exists st' arg0 arg1 rest n al,
    args ctx = arg0 :: arg1 :: rest /\
    Validators.validateAddress arg1 (JsString.toUpperCase arg0)
      = Validators.Valid n /\
    db st' = db st /\
    track cfg st ctx now ans =
    subscribe cfg st' (from_id ctx) (from_username ctx)
      (JsString.toUpperCase arg0) n al ans.
Proof.
  unfold track.
  destruct (checkRateLimit cfg (userCommandCounts st) (from_id ctx) now)
    as [allowed counts].
  destruct allowed; cbn [negb]; [|discriminate].
  destruct (args ctx) as [|arg0 [|arg1 rest]];
    [discriminate | discriminate |].
  cbv zeta.
  destruct (negb (JsString.includes (Config.supported cfg)
                    (JsString.toUpperCase arg0))); [discriminate|].
  match goal with |- context [if ?b then _ else _] => destruct b end;
    [discriminate|].
  destruct (Validators.validateAddress arg1 (JsString.toUpperCase arg0))
    as [n|e] eqn:V; [|discriminate].
  intros _. exists (with_counts st counts), arg0, arg1, rest, n.
  eexists. split; [reflexivity|]. split; [exact V|]. split; reflexivity.
Qed.

Lemma untrack_db st ctx now ans :
  db (state (untrack cfg st ctx now ans)) = db st \/
  exists st' c n,
    db st' = db st /\
    untrack cfg st ctx now ans = unsubscribe st' (from_id ctx) c n ans.
Proof.
  unfold untrack.
  destruct (checkRateLimit cfg (userCommandCounts st) (from_id ctx) now)
    as [allowed counts].
  destruct allowed; cbn [negb]; [|now left].
  destruct (args ctx) as [|arg0 [|arg1 rest]]; [now left | now left |].
  cbv zeta.
  destruct (Validators.validateAddress arg1 (JsString.toUpperCase arg0))
    as [n|e]; [|now left].
  right. exists (with_counts st counts), (JsString.toUpperCase arg0), n.
  split; reflexivity.
Qed.

Lemma handle_Inv st cmd :
  Inv (db st) -> Inv (db (state (handle cfg st cmd))).
Proof.
  intros HI. destruct cmd as [ctx now ans|ctx now ans]; simpl.
  - destruct (track_db st ctx now ans) as [E|(st' & c & n & al & E & _ & _ & ->)].
    + now rewrite E.
    + apply subscribe_Inv. now rewrite E.
  - destruct (untrack_db st ctx now ans) as [E|(st' & c & n & E & ->)].
    + now rewrite E.
    + apply unsubscribe_Inv. now rewrite E.
Qed.

Lemma run_Inv cs st : Inv (db st) -> Inv (db (run cfg cs st)).
Proof.
  revert st. induction cs as [|cmd cs IH]; intros st HI; [exact HI|].
  apply IH, handle_Inv, HI.
Qed.

Lemma reachable_Inv cs : Inv (db (run cfg cs initial)).
Proof. apply run_Inv, Inv_empty. Qed.

End Handlers.

End BotFacts.

(* ================================================================== *)
(** * Subscribing and unsubscribing                                    *)
(* ================================================================== *)

Section Subscriptions.
Import TrackedWallet BotService SubscriptionSpec StoreFacts BotFacts.
Import JsString.
Context `{Ethers} (cfg : Config.t).




(** C6.  Subscribe is idempotent: when the record exists and holds the
    user, the call reports that the user is already tracking, leaves the
    collection of wallets as it is and sends nothing to the provider; so
    does a second call after a first one that subscribed the user. *)
Theorem subscribe_twice_idempotent (cs : list command) (u : Z)
  (un : option string) (c n : string) (al : option string)
  (ans1 ans2 : MoralisService.http_outcome) :
  let st := run cfg cs initial in
  let r1 := subscribe cfg st u un c n al ans1 in
  let r2 := subscribe cfg (state r1) u un c n al ans2 in
  (forall w,
      findOne (wallets (db st)) (toLowerCase n) c = Some w ->
      In u (trackingUserIds w) ->
      message r1 = AlreadyTracking /\
      wallets (db (state r1)) = wallets (db st) /\
      requests r1 = []) /\
  (subscribed (message r1) = true ->
   message r2 = AlreadyTracking /\
   wallets (db (state r2)) = wallets (db (state r1)) /\
   requests r2 = []).
Proof.
  intros st r1 r2. pose proof (reachable_Inv cfg cs) as HI. fold st in HI.
  split.
  - intros w F Hu.
    destruct (subscribe_already cfg st u un c n al ans1 w F Hu)
      as (Em & Ew & _ & Er). auto.
  - intros Hs.
    assert (Hm : message r1 <> StreamFailed).
    { intros E. rewrite E in Hs. discriminate. }
    destruct (subscribe_holds cfg st u un c n al ans1 HI Hm)
      as (w & Fw & Hu & _).
    destruct (subscribe_already cfg (state r1) u un c n al ans2 w Fw Hu)
      as (Em & Ew & _ & Er). auto.
Qed.

(** C8, as the code has it.  No state has two records for one pair
    (address, chain ticker).  Two /track commands on the same chain whose
    raw addresses validate to the same canonical form, and that both
    leave their user subscribed, end with exactly one record for the
    pair.  Its key is not the canonical address but the canonical
    address in lower case, which is what the handler looks up and
    stores: the record is the one the first command resolved to, and
    holds both users. *)
Theorem same_canonical_form_one_record (cs : list command) :
  let st := run cfg cs initial in
  (forall a c : string,
      (List.length (filter (matches a c) (wallets (db st))) <= 1)%nat) /\
  (forall (ctx1 ctx2 : Context) (now1 now2 : Z)
          (ans1 ans2 : MoralisService.http_outcome)
          (chain1 raw1 chain2 raw2 : string) (rest1 rest2 : list string)
          (n : string),
      let r1 := track cfg st ctx1 now1 ans1 in
      let r2 := track cfg (state r1) ctx2 now2 ans2 in
      let c := toUpperCase chain1 in
      args ctx1 = chain1 :: raw1 :: rest1 ->
      args ctx2 = chain2 :: raw2 :: rest2 ->
      toUpperCase chain2 = c ->
      Validators.validateAddress raw1 c = Validators.Valid n ->
      Validators.validateAddress raw2 c = Validators.Valid n ->
      subscribed (message r1) = true ->
      subscribed (message r2) = true ->
      exists w1 w2,
        findOne (wallets (db (state r1))) (toLowerCase n) c = Some w1 /\
        filter (matches (toLowerCase n) c) (wallets (db (state r2))) = [w2] /\
        _id w2 = _id w1 /\
        address w2 = toLowerCase n /\
        In (from_id ctx1) (trackingUserIds w2) /\
        In (from_id ctx2) (trackingUserIds w2)).
Proof.
  intros st. pose proof (reachable_Inv cfg cs) as HI. fold st in HI.
  split; [intros a c; apply at_most_one, (inv_keys _ HI)|].
  intros ctx1 ctx2 now1 now2 ans1 ans2 chain1 raw1 chain2 raw2 rest1 rest2 n
    r1 r2 c A1 A2 Ec V1 V2 S1 S2.
  destruct (track_subscribed cfg st ctx1 now1 ans1 S1)
    as (st1 & a0 & a1 & rs & n1 & al1 & Ea & Ev & Ed & Et).
  rewrite A1 in Ea. inversion Ea; subst a0 a1 rs. fold c in Ev, Et.
  rewrite V1 in Ev. inversion Ev; subst n1. clear Ea Ev.
  assert (HI1 : Inv (db st1)) by (rewrite Ed; exact HI).
  assert (Hm1 : message r1 <> StreamFailed).
  { intros E. rewrite E in S1. discriminate. }
  fold r1 in Et.
  pose proof (subscribe_holds cfg st1 (from_id ctx1) (from_username ctx1)
                c n al1 ans1 HI1) as Hh1.
  cbv zeta in Hh1. rewrite <- Et in Hh1.
  destruct (Hh1 Hm1) as (w1 & F1 & Hu1 & _).
  assert (HIr1 : Inv (db (state r1))).
  { rewrite Et. apply subscribe_Inv, HI1. }
  destruct (track_subscribed cfg (state r1) ctx2 now2 ans2 S2)
    as (st2 & a0 & a1 & rs & n2 & al2 & Ea & Ev & Ed2 & Et2).
  rewrite A2 in Ea. inversion Ea; subst a0 a1 rs. rewrite Ec in Ev, Et2.
  rewrite V2 in Ev. inversion Ev; subst n2. clear Ea Ev.
  assert (HI2 : Inv (db st2)) by (rewrite Ed2; exact HIr1).
  assert (Hm2 : message r2 <> StreamFailed).
  { intros E. rewrite E in S2. discriminate. }
  fold r2 in Et2.
  pose proof (subscribe_holds cfg st2 (from_id ctx2) (from_username ctx2)
                c n al2 ans2 HI2) as Hh2.
  cbv zeta in Hh2. rewrite <- Et2 in Hh2.
  destruct (Hh2 Hm2) as (w2 & F2 & Hu2 & Hsame).
  rewrite Ed2 in Hsame. destruct (Hsame w1 F1) as [Eid Hincl].
  assert (HIr2 : Inv (db (state r2))).
  { rewrite Et2. apply subscribe_Inv, HI2. }
  exists w1, w2. split; [exact F1|]. split.
  { apply findOne_unique; [apply (inv_keys _ HIr2) | exact F2]. }
  split; [exact Eid|]. split.
  { apply findOne_Some in F2. destruct F2 as [_ Hk].
    now destruct (key_fields _ _ _ Hk). }
  split; [apply Hincl, Hu1 | exact Hu2].
Qed.

(** C9.  When the last subscriber unsubscribes, the record is deleted and
    the user no longer tracks the wallet, whatever the provider answers to
    the request to delete the stream: the state is the one a successful
    deletion leaves. *)
Theorem unsubscribe_despite_release_failure (cs : list command) (u : Z)
  (c n : string) (ans : MoralisService.http_outcome) (w : TrackedWallet.t) :
  let st := run cfg cs initial in
  let r := unsubscribe st u c n ans in
  findOne (wallets (db st)) (toLowerCase n) c = Some w ->
  In u (trackingUserIds w) ->
  (forall v, In v (trackingUserIds w) -> v = u) ->
  findOne (wallets (db (state r))) (toLowerCase n) c = None /\
  ~ In u (subscribers (wallets (db (state r))) (toLowerCase n) c) /\
  ~ In w (find_tracking (wallets (db (state r))) u) /\
  message r = confirm c StoppedTracking /\
  state r = state (unsubscribe st u c n (MoralisService.Response 204 None)).
Proof.
  intros st r F Hu Hlast.
  pose proof (reachable_Inv cfg cs) as HI. fold st in HI.
  destruct (unsubscribe_last st u c n ans w HI F Hu Hlast)
    as (Fn & Ew & Em & _).
  fold r in Fn, Ew, Em. split; [exact Fn|]. split.
  { rewrite (findOne_None_subscribers _ _ _ Fn). intros []. }
  split.
  { intros Hin. apply filter_In in Hin. destruct Hin as [Hin _].
    apply findOne_Some in F. destruct F as [_ Hk].
    exact (findOne_None _ _ _ Fn w Hin Hk). }
  split; [exact Em|].
  subst r. unfold unsubscribe. cbv zeta. rewrite F.
  destruct (negb (existsb (Z.eqb u) (trackingUserIds w))); [reflexivity|].
  destruct (filter (fun id => negb (id =? u)) (trackingUserIds w));
    reflexivity.
Qed.

End Subscriptions.

Section SubscriptionWitnesses.
Import TrackedWallet BotService SubscriptionSpec.
Import JsString Fixture.







Lemma subscribe_twice_idempotent_witness :
  message (subscribe config
             (state (subscribe config (run config [] initial) 1001
                       (Some "alice") "ETH" address_checksum None created))
             1001 (Some "alice") "ETH" address_checksum None created)
  = AlreadyTracking /\
  message (subscribe config (run config alice_tracks initial) 1001
             (Some "alice") "ETH" address_checksum None created)
  = AlreadyTracking.
Proof.
  split.
  - exact (proj1 (proj2 (@subscribe_twice_idempotent ethers config [] 1001
                           (Some "alice") "ETH" address_checksum None
                           created created) eq_refl)).
  - refine (proj1 (proj1 (@subscribe_twice_idempotent ethers config
                            alice_tracks 1001 (Some "alice") "ETH"
                            address_checksum None created created)
                     wallet_alice eq_refl _)).
    left. reflexivity.
Defined.

Lemma same_canonical_form_one_record_witness :
  exists w1 w2,
    findOne (wallets (db (state (track config initial alice 1000 created))))
      address_lower "ETH" = Some w1 /\
    filter (matches address_lower "ETH")
      (wallets (db (state (track config
                             (state (track config initial alice 1000 created))
                             bob 2000 created)))) = [w2] /\
    _id w2 = _id w1 /\
    address w2 = address_lower /\
    In 1001 (trackingUserIds w2) /\
    In 1002 (trackingUserIds w2).
Proof.
  exact (proj2 (@same_canonical_form_one_record ethers config [])
           alice bob 1000 2000 created created "eth" address_lower "ETH"
           address_upper ["Main"] [] address_checksum
           eq_refl eq_refl eq_refl eq_refl eq_refl eq_refl eq_refl).
Defined.

(** The claim C8 as the specification states it fails on the code: two
    spellings of one address validate to the same canonical
    (checksummed) form; the one record the two /track commands end with
    stores as its address the lower-case form, which is not the
    canonical one. *)
Lemma canonical_key_counterexample :
  Validators.validateAddress address_lower "ETH"
  = Validators.Valid address_checksum /\
  Validators.validateAddress address_upper "ETH"
  = Validators.Valid address_checksum /\
  map (fun w => (address w, trackingUserIds w))
    (wallets (db (run config both_track initial)))
  = [(address_lower, [1001; 1002])] /\
  address_lower <> address_checksum.
Proof.
  split; [reflexivity|]. split; [reflexivity|]. split; [reflexivity|].
  discriminate.
Qed.

Lemma unsubscribe_despite_release_failure_witness :
  findOne
    (wallets (db (state (unsubscribe (run config alice_tracks initial) 1001
                           "ETH" address_checksum MoralisService.Rejected))))
    address_lower "ETH" = None /\
  fst (MoralisService.deleteStream "a1b2c3d4-stream" false
         MoralisService.Rejected) = false.
Proof.
  split; [|reflexivity].
  refine (proj1 (@unsubscribe_despite_release_failure ethers config
                   alice_tracks 1001 "ETH" address_checksum
                   MoralisService.Rejected wallet_alice eq_refl _ _)).
  - left. reflexivity.
  - intros v [<-|[]]. reflexivity.
Defined.

End SubscriptionWitnesses.

(* ================================================================== *)
(** * Formatting amounts                                               *)
(* ================================================================== *)

Section Amounts.
Import JsBigInt AmountSpec Formatters.

(** C7, as the code has it.  For a value string that [BigInt] reads as a
    non-negative integer, and decimals from 0 to 22, [formatValue] returns
    the decimal rendering of value / 10^decimals truncated to its first
    eight fractional digits, without trailing zeros, and without the
    fractional part when what is left of it is zero.  That is the exact
    rendering whenever the digits after the eighth are zero; the two
    amounts of the specification come out as "1.5" and "1". *)
Theorem formatValue_truncated_rendering :
  (forall (value : string) (decimals v : Z),
      of_string value = Normal v -> 0 <= v -> 0 <= decimals <= 22 ->
      formatValue value (Int decimals)
      = Normal (truncated8 v (Z.to_nat decimals))) /\
  (forall (v : Z) (d : nat),
      0 <= v ->
      (v mod 10 ^ Z.of_nat d) mod 10 ^ Z.of_nat (d - 8) = 0 ->
      truncated8 v d = exact v d) /\
  formatValue "1500000000000000000" (Int 18) = Normal "1.5" /\
  formatValue "1000000000000000000" (Int 18) = Normal "1".
Proof.
  split; [|split; [|split; reflexivity]].
  - intros value decimals v. apply formatValue_render.
  - intros v d. apply truncated8_exact.
Qed.

Lemma formatValue_truncated_rendering_witness :
  formatValue "1234567891234" (Int 9) = Normal "1234.56789123".
Proof.
  refine (proj1 formatValue_truncated_rendering "1234567891234" 9
            1234567891234 eq_refl _ _); lia.
Defined.

(** The claim C7 as the specification states it fails on the code: the
    exact rendering of 1000000001 / 10^18 is 0.000000001000000001, and
    [formatValue] returns "0". *)
Lemma formatValue_exact_counterexample :
  of_string "1000000001" = Normal 1000000001 /\
  exact 1000000001 18 = "0.000000001000000001" /\
  formatValue "1000000001" (Int 18) = Normal "0" /\
  formatValue "1000000001" (Int 18) <> Normal (exact 1000000001 18).
Proof.
  split; [reflexivity|]. split; [reflexivity|]. split; [reflexivity|].
  vm_compute. discriminate.
Qed.

(** C10.  [formatValue] returns a string for every value string and
    every decimals (an integer, NaN or an infinity), and never throws:
    when [BigInt] rejects the value, when ten to the decimals is not an
    integer, and when it is zero, the result is "0". *)
Theorem formatValue_total (value : string) (decimals : Decimals) :
  (exists s, formatValue value decimals = Normal s) /\
  ((exists e, of_string value = Throw e) ->
   formatValue value decimals = Normal "0") /\
  ((exists e, of_number (pow10 decimals) = Throw e) ->
   formatValue value decimals = Normal "0") /\
  (pow10 decimals = Integral 0 ->
   formatValue value decimals = Normal "0").
Proof.
  split; [apply formatValue_returns|]. split; [|split].
  - intros [e He]. eapply formatValue_bad_value, He.
  - intros [e He]. eapply formatValue_bad_decimals, He.
  - intros Hz. unfold formatValue, formatValue_try. rewrite Hz.
    destruct (of_string value); reflexivity.
Qed.

Lemma formatValue_total_witness :
  formatValue "12abc" (Int 18) = Normal "0" /\
  formatValue "1500" (Int (-1)) = Normal "0" /\
  formatValue "1500" NaN = Normal "0" /\
  formatValue "1500" NegInfinity = Normal "0".
Proof.
  split; [|split; [|split]].
  - apply (proj1 (proj2 (formatValue_total "12abc" (Int 18)))).
    exists SyntaxError. reflexivity.
  - apply (proj1 (proj2 (proj2 (formatValue_total "1500" (Int (-1)))))).
    exists RangeError. reflexivity.
  - apply (proj1 (proj2 (proj2 (formatValue_total "1500" NaN)))).
    exists RangeError. reflexivity.
  - apply (proj2 (proj2 (proj2 (formatValue_total "1500" NegInfinity)))).
    reflexivity.
Defined.

End Amounts.

(* ================================================================== *)
(** * The dispatcher                                                   *)
(* ================================================================== *)

Module DispatchFacts.
Import Json WebhookService DispatchSpec.

Lemma deliveries_to_app u c a ds1 ds2 :
  deliveries_to u c a (ds1 ++ ds2)%list =
  (deliveries_to u c a ds1 + deliveries_to u c a ds2)%nat.
Proof. unfold deliveries_to. now rewrite filter_app, length_app. Qed.

Lemma deliveries_to_send_all u c a subs m :
  deliveries_to u c a (send_all subs m) =
  if about c a m then count_occ Z.eq_dec subs u else 0%nat.
Proof.
  unfold deliveries_to, send_all.
  induction subs as [|x subs IH]; simpl.
  - now destruct (about c a m).
  - destruct (Z.eqb_spec x u) as [->|Hne]; simpl.
    + destruct (about c a m); simpl.
      * destruct (Z.eq_dec u u); [now rewrite IH | contradiction].
      * exact IH.
    + rewrite IH. destruct (about c a m); [|reflexivity].
      destruct (Z.eq_dec x u); [contradiction | reflexivity].
Qed.

Lemma count_subscriber (subs : list Z) (u : Z) :
  NoDup subs -> In u subs -> count_occ Z.eq_dec subs u = 1%nat.
Proof.
  intros Hnd Hin. apply (proj1 (NoDup_count_occ' Z.eq_dec subs) Hnd u Hin).
Qed.

(** Whether [formatTokenTransaction] throws does not depend on the
    chain and the address. *)
Lemma formats_Normal item c x :
  formats item = true ->
  formatTokenTransaction item c x = Normal (TokenAlert item c x).
Proof.
  unfold formats, formatTokenTransaction.
  repeat match goal with
         | |- context [bind ?m _] =>
             destruct m; cbn [bind]; try discriminate
         end.
  reflexivity.
Qed.

(** Nor does it for [formatNativeTransaction]. *)
Lemma formats_native_Normal tx c x :
  formats_native tx = true ->
  formatNativeTransaction tx c x = Normal (NativeAlert tx c x).
Proof.
  unfold formats_native, formatNativeTransaction.
  repeat match goal with
         | |- context [bind ?m _] =>
             destruct m; cbn [bind]; try discriminate
         end.
  reflexivity.
Qed.

Lemma send_tokens_count items c x subs u a :
  forallb formats items = true ->
  exists ds,
    send_tokens items c x subs = (ds, true) /\
    deliveries_to u c a ds =
    if String.eqb x a
    then (List.length items * count_occ Z.eq_dec subs u)%nat
    else 0%nat.
Proof.
  induction items as [|item items IH]; simpl; intros Hf.
  - exists []. split; [reflexivity|]. now destruct (String.eqb x a).
  - apply andb_true_iff in Hf. destruct Hf as [Hi Hf].
    destruct (IH Hf) as (ds & E & Hc).
    rewrite (formats_Normal item c x Hi), E.
    eexists. split; [reflexivity|].
    rewrite deliveries_to_app, deliveries_to_send_all, Hc. simpl.
    rewrite String.eqb_refl. simpl.
    destruct (String.eqb x a); reflexivity.
Qed.

Lemma ticker_truthy (chainId : Json.t) (c : string) :
  ticker_of Config.CHAIN_CONFIG chainId = Some c -> JsString.truthy c = true.
Proof.
  destruct chainId; try discriminate. simpl.
  repeat match goal with
         | |- context [if ?b then _ else _] =>
             destruct b; [intros E; inversion E; reflexivity|]
         end.
  discriminate.
Qed.

(** Each address of the list that is the wallet's address sends every
    subscriber the alerts of one resolution. *)
Lemma notify_count wallets what txData c (addresses : list string) k a w u :
  alerts_per_resolution txData what = Some k ->
  TrackedWallet.findOne wallets a c = Some w ->
  NoDup (TrackedWallet.trackingUserIds w) ->
  In u (TrackedWallet.trackingUserIds w) ->
  exists ds,
    notify wallets what txData c addresses = Some (ds, true) /\
    deliveries_to u c a ds = (k * count_occ string_dec addresses a)%nat.
Proof.
  intros Hk Fw Hnd Hu.
  induction addresses as [|x addresses IH].
  - exists []. split; [reflexivity|]. simpl. now rewrite Nat.mul_0_r.
  - destruct IH as (ds & E & Hc). cbn [notify]. rewrite E.
    assert (Hx : forall w',
               TrackedWallet.findOne wallets x c = Some w' ->
               x = a -> w' = w).
    { intros w' F' ->. congruence. }
    cbn [count_occ].
    destruct (TrackedWallet.findOne wallets x c) as [w'|] eqn:F'.
    + destruct (TrackedWallet.trackingUserIds w') as [|s subs] eqn:Es.
      * exists ds. split; [reflexivity|].
        destruct (string_dec x a) as [Exa|_]; [|exact Hc].
        rewrite (Hx w' eq_refl Exa) in Es. rewrite Es in Hu. destruct Hu.
      * assert (Hone : x = a -> count_occ Z.eq_dec (s :: subs) u = 1%nat).
        { intros Exa. rewrite (Hx w' eq_refl Exa) in Es. rewrite <- Es.
          now apply count_subscriber. }
        destruct what as [|items| |]; try discriminate.
        -- cbn [alerts_per_resolution] in Hk.
           destruct (formats_native txData) eqn:Hn; [|discriminate].
           inversion Hk; subst k.
           rewrite (formats_native_Normal txData c x Hn).
           eexists. split; [reflexivity|].
           cbn [fst]. rewrite deliveries_to_app, deliveries_to_send_all, Hc.
           cbn [about]. rewrite String.eqb_refl. cbn [andb].
           destruct (string_dec x a) as [Exa|Hne].
           ++ rewrite (proj2 (String.eqb_eq x a) Exa), (Hone Exa). lia.
           ++ rewrite (proj2 (String.eqb_neq x a) Hne). lia.
        -- cbn [alerts_per_resolution] in Hk.
           destruct (forallb formats items) eqn:Hf; [|discriminate].
           inversion Hk; subst k.
           destruct (send_tokens_count items c x (s :: subs) u a Hf)
             as (ds1 & E1 & Hc1).
           rewrite E1. eexists. split; [reflexivity|].
           cbn [fst]. rewrite deliveries_to_app, Hc1, Hc.
           destruct (string_dec x a) as [Exa|Hne].
           ++ rewrite (proj2 (String.eqb_eq x a) Exa), (Hone Exa). lia.
           ++ rewrite (proj2 (String.eqb_neq x a) Hne). lia.
    + exists ds. split; [reflexivity|].
      destruct (string_dec x a) as [Exa|_]; [|exact Hc].
      subst x. congruence.
Qed.

Lemma verify_iff cfg body signature :
  verifyWebhookSignature cfg body signature = true <->
  signature = Crypto.createHmac_sha256_hex (Config.webhookSecret cfg)
                (stringify body).
Proof.
  unfold verifyWebhookSignature, Crypto.timingSafeEqual. cbv zeta.
  destruct (Nat.eqb_spec (String.length signature)
              (String.length
                 (Crypto.createHmac_sha256_hex (Config.webhookSecret cfg)
                    (stringify body)))) as [El|Hl].
  - apply String.eqb_eq.
  - split; [discriminate|]. intros E. rewrite <- E in Hl. contradiction.
Qed.

(** The handler answers 401 exactly when the verification fails,
    and then delivers nothing. *)
Lemma post_webhook_rejects cfg wallets signature body :
  JsString.truthy signature = true ->
  let res := post_webhook cfg wallets (Some signature) body in
  (status res = 401 <->
   verifyWebhookSignature cfg body signature = false) /\
  (status res = 401 ->
   WebhookService.body res = InvalidSignature /\ deliveries res = Some []).
Proof.
  intros Ht. unfold post_webhook. rewrite Ht. cbn [negb].
  destruct (verifyWebhookSignature cfg body signature); cbn [negb].
  - destruct (tag <- prop body "tag" ;; _ <- interpolate tag ;;
              txs_of body)%js as [[| |]|];
      cbn [reply status WebhookService.body deliveries];
      (split; [split; discriminate | discriminate]).
  - cbn [reply status WebhookService.body deliveries]. repeat split.
Qed.

End DispatchFacts.

Section Dispatch.
Import Json WebhookService DispatchSpec DispatchFacts.

(** C2, as the code has it.  Within one transaction of an event whose
    alerts the formatters can all write (one for a native transaction,
    one for each token transfer otherwise; a formatter throws on a field
    that does not convert to a string), the dispatcher resolves the
    lower-case sender and the lower-case recipient, each when it is not
    empty and without removing a duplicate, and each resolution of a
    tracked wallet sends every subscriber those alerts.  A subscriber of
    the wallet at an address thus gets the alerts once when the address
    is only the sender or only the recipient, and twice when it is
    both. *)
Theorem fan_out_per_occurrence (wallets : list TrackedWallet.t)
  (txData webhookData : Json.t) (c f t a : string) (what : transfers)
  (k : nat) (w : TrackedWallet.t) (u : Z) :
  chain_of webhookData = Normal (Some c) ->
  sender txData = Normal f ->
  recipient txData = Normal t ->
  erc20Transfers webhookData = Normal what ->
  alerts_per_resolution txData what = Some k ->
  a <> EmptyString ->
  TrackedWallet.findOne wallets a c = Some w ->
  NoDup (TrackedWallet.trackingUserIds w) ->
  In u (TrackedWallet.trackingUserIds w) ->
  exists ds,
    processTransaction wallets txData webhookData = Some ds /\
    deliveries_to u c a ds = (k * occurrences a f t)%nat.
Proof.
  intros Hc Hf Ht Hw Hk Ha Fw Hnd Hu.
  unfold processTransaction.
  unfold chain_of in Hc. unfold sender in Hf. unfold recipient in Ht.
  destruct (prop webhookData "chainId") as [chainId|]; [|discriminate].
  cbn [bind] in Hc |- *.
  assert (Hc' : ticker_of Config.CHAIN_CONFIG (or_empty chainId) = Some c)
    by congruence.
  rewrite Hc', (ticker_truthy _ _ Hc'). cbn [negb].
  destruct (prop txData "fromAddress") as [from|]; [|discriminate].
  cbn [bind] in Hf |- *. rewrite Hf. cbn [bind].
  destruct (prop txData "toAddress") as [to|]; [|discriminate].
  cbn [bind] in Ht |- *. rewrite Ht. cbn [bind]. rewrite Hw. cbn [bind].
  set (addresses := ((if JsString.truthy f then [f] else [])
                       ++ (if JsString.truthy t then [t] else []))%list).
  destruct (notify_count wallets what txData c addresses k a w u
              Hk Fw Hnd Hu) as (ds & E & Hcount).
  rewrite E. exists ds. split; [reflexivity|]. rewrite Hcount. f_equal.
  subst addresses. unfold occurrences, JsString.truthy.
  rewrite count_occ_app.
  assert (Hone : forall x : string,
             count_occ string_dec
               (if negb (String.eqb x EmptyString) then [x] else []) a
             = if String.eqb x a then 1%nat else 0%nat).
  { intros x. destruct (String.eqb_spec x EmptyString) as [->|Hx];
      cbn [negb count_occ].
    - destruct a; [now elim Ha | reflexivity].
    - destruct (string_dec x a) as [->|Hne].
      + now rewrite String.eqb_refl.
      + now rewrite (proj2 (String.eqb_neq x a) Hne). }
  now rewrite !Hone.
Qed.

(** C3, as the code has it.  A webhook request with a non-empty
    x-signature header, whose body [express.json()] parsed, is rejected
    with status 401 if and only if the header differs from the hex
    HMAC-SHA256, keyed by the webhook secret, of [JSON.stringify] of the
    parsed body; a rejected request makes no delivery. *)
Theorem signature_over_stringified_body (cfg : Config.t)
  (wallets : list TrackedWallet.t) (req : Request) (signature : string)
  (parsed : Json.t) :
  x_signature req = Some signature ->
  signature <> EmptyString ->
  express_json (rawBody req) = Some parsed ->
  exists res,
    receive cfg wallets req = Some res /\
    (status res = 401 <->
     signature <> Crypto.createHmac_sha256_hex (Config.webhookSecret cfg)
                    (stringify parsed)) /\
    (status res = 401 -> body res = InvalidSignature /\ deliveries res = Some []).
Proof.
  intros Hs Hne Hp. unfold receive. rewrite Hp, Hs. cbn [option_map].
  eexists. split; [reflexivity|].
  assert (Ht : JsString.truthy signature = true).
  { unfold JsString.truthy.
    now destruct (String.eqb_spec signature EmptyString). }
  destruct (post_webhook_rejects cfg wallets signature parsed Ht)
    as [Hiff Hrej].
  split; [|exact Hrej]. rewrite Hiff.
  pose proof (verify_iff cfg parsed signature) as Hv.
  destruct (verifyWebhookSignature cfg parsed signature).
  - split; [discriminate|]. intros Hd. elim Hd. now apply Hv.
  - split; [|reflexivity]. intros _ E. apply Hv in E. discriminate.
Qed.

End Dispatch.

Section DispatchWitnesses.
Import Json WebhookService DispatchSpec Fixture.

Lemma fan_out_per_occurrence_witness :
  exists ds,
    processTransaction [wallet_both] self_transfer self_transfer_event
    = Some ds /\
    deliveries_to 1002 "ETH" address_lower ds = 2%nat.
Proof.
  refine (fan_out_per_occurrence [wallet_both] self_transfer
            self_transfer_event "ETH" address_lower address_lower
            address_lower NoTransfers 1 wallet_both 1002
            eq_refl eq_refl eq_refl eq_refl eq_refl _ eq_refl _ _).
  - discriminate.
  - vm_compute. repeat constructor; simpl; intuition discriminate.
  - right. left. reflexivity.
Defined.

(** The claim C2 as the specification states it fails on the code: on a
    transaction whose sender and recipient are the same tracked wallet,
    its subscriber gets two deliveries about the pair, not one. *)
Lemma self_transfer_counterexample :
  sender self_transfer = Normal address_lower /\
  recipient self_transfer = Normal address_lower /\
  processTransaction [wallet_alice] self_transfer self_transfer_event
  = Some [(1001, NativeAlert self_transfer "ETH" address_lower);
          (1001, NativeAlert self_transfer "ETH" address_lower)] /\
  deliveries_to 1001 "ETH" address_lower
    [(1001, NativeAlert self_transfer "ETH" address_lower);
     (1001, NativeAlert self_transfer "ETH" address_lower)] <> 1%nat.
Proof.
  split; [reflexivity|]. split; [reflexivity|]. split; [reflexivity|].
  vm_compute. discriminate.
Qed.

Lemma signature_over_stringified_body_witness :
  exists res,
    receive config [wallet_alice]
      {| x_signature :=
           Some (Crypto.createHmac_sha256_hex (Config.webhookSecret config)
                   (stringify spaced_body_parsed));
         rawBody := spaced_body |} = Some res /\
    status res <> 401.
Proof.
  destruct (signature_over_stringified_body config [wallet_alice]
              {| x_signature :=
                   Some (Crypto.createHmac_sha256_hex
                           (Config.webhookSecret config)
                           (stringify spaced_body_parsed));
                 rawBody := spaced_body |}
              (Crypto.createHmac_sha256_hex (Config.webhookSecret config)
                 (stringify spaced_body_parsed))
              spaced_body_parsed eq_refl)
    as (res & Er & Hiff & _).
  - vm_compute. discriminate.
  - vm_compute. reflexivity.
  - exists res. split; [exact Er|]. intros E. apply Hiff in E. now elim E.
Defined.

(** The claim C3 as the specification states it fails on the code: a
    request whose header is the HMAC of the bytes received is rejected,
    because the bytes are not what [JSON.stringify] makes of the parsed
    body. *)
Lemma raw_bytes_signature_counterexample :
  express_json spaced_body = Some spaced_body_parsed /\
  stringify spaced_body_parsed <> spaced_body /\
  receive config [wallet_alice]
    {| x_signature :=
         Some (Crypto.createHmac_sha256_hex (Config.webhookSecret config)
                 spaced_body);
       rawBody := spaced_body |}
  = Some {| status := 401; body := InvalidSignature; deliveries := Some [] |}.
Proof.
  split; [vm_compute; reflexivity|]. split; [vm_compute; discriminate|].
  vm_compute. reflexivity.
Qed.

End DispatchWitnesses.

(* ================================================================== *)
(** * The rate limiter                                                 *)
(* ================================================================== *)

Module RateLimitFacts.
Import BotService RateLimit.

Lemma counts_get_set_same m u v : counts_get (counts_set m u v) u = Some v.
Proof.
  induction m as [|[k v0] m IH]; simpl.
  - now rewrite Z.eqb_refl.
  - destruct (Z.eqb_spec k u) as [->|Hne]; simpl.
    + now rewrite Z.eqb_refl.
    + apply Z.eqb_neq in Hne. now rewrite Hne.
Qed.

Lemma counts_get_set_other m u v x :
  u <> x -> counts_get (counts_set m u v) x = counts_get m x.
Proof.
  intros Hux. induction m as [|[k v0] m IH]; simpl.
  - destruct (Z.eqb_spec u x); [contradiction | reflexivity].
  - destruct (Z.eqb_spec k u) as [->|Hne]; simpl.
    + destruct (Z.eqb_spec u x); [contradiction | reflexivity].
    + now rewrite IH.
Qed.

(** What one call does to the caller's time stamps, and to nobody
    else's. *)
Lemma checkRateLimit_spec cfg m u now :
  let F := filter (fun ts => now - ts <? Config.rateLimitWindowMs cfg)
             (stored m u) in
  let '(allowed, m') := checkRateLimit cfg m u now in
  (forall x, x <> u -> stored m' x = stored m x) /\
  (if allowed
   then Z.of_nat (List.length F) < Config.rateLimitMaxRequests cfg /\
        stored m' u = (F ++ [now])%list
   else Config.rateLimitMaxRequests cfg <= Z.of_nat (List.length F) /\
        stored m' u = F).
Proof.
  unfold checkRateLimit, stored. cbv zeta.
  destruct (Z.geb_spec
              (Z.of_nat
                 (List.length
                    (filter (fun ts => now - ts <? Config.rateLimitWindowMs cfg)
                       match counts_get m u with
                       | Some l => l
                       | None => []
                       end)))
              (Config.rateLimitMaxRequests cfg)) as [Hge|Hlt].
  - split.
    + intros x Hx. now rewrite counts_get_set_other by congruence.
    + split; [lia|]. now rewrite counts_get_set_same.
  - split.
    + intros x Hx. now rewrite counts_get_set_other by congruence.
    + split; [lia|]. now rewrite counts_get_set_same.
Qed.

Lemma length_filter_le {A} (p : A -> bool) (l : list A) :
  (List.length (filter p l) <= List.length l)%nat.
Proof.
  induction l as [|x l IH]; simpl; [lia|]. destruct (p x); simpl; lia.
Qed.

(** Past a call at [now], the stamps that still count are among those
    the call kept. *)
Lemma recent_kept cfg (L : list Z) (now T : Z) :
  now <= T ->
  filter (recent cfg T)
    (filter (fun ts => now - ts <? Config.rateLimitWindowMs cfg) L)
  = filter (recent cfg T) L.
Proof.
  intros Hle. induction L as [|ts L IH]; simpl; [reflexivity|].
  destruct (Z.ltb_spec (now - ts) (Config.rateLimitWindowMs cfg)) as [H1|H1];
    simpl.
  - now rewrite IH.
  - rewrite IH. unfold recent.
    destruct (Z.ltb_spec (T - ts) (Config.rateLimitWindowMs cfg)); [lia|].
    reflexivity.
Qed.

Lemma granted_before cfg u T calls results :
  Forall (fun c => T < snd c) calls ->
  filter (in_window cfg u T) (granted calls results) = [].
Proof.
  revert results. induction calls as [|c calls IH]; intros results Hall;
    [reflexivity|].
  inversion Hall as [|? ? Hc Hrest]; subst.
  destruct results as [|[] results]; simpl; [reflexivity| |now apply IH].
  rewrite IH by exact Hrest. unfold in_window.
  destruct (Z.leb_spec (snd c) T); [lia|].
  now rewrite andb_false_r.
Qed.

(** The stamps stored for a user and the calls granted to that user
    from then on never put more than the limit in one window. *)
Lemma window_bound cfg u (calls : list (Z * Z)) :
  forall m T,
    chronological calls ->
    Z.of_nat (List.length (stored m u))
      <= Z.max 0 (Config.rateLimitMaxRequests cfg) ->
    (forall ts c, In ts (stored m u) -> In c calls -> ts <= snd c) ->
    Z.of_nat (List.length (filter (recent cfg T) (stored m u)))
    + Z.of_nat (List.length
                  (filter (in_window cfg u T)
                     (granted calls (fst (check_all cfg calls m)))))
    <= Z.max 0 (Config.rateLimitMaxRequests cfg).
Proof.
  induction calls as [|[v now] calls IH]; intros m T Hch Hlen Hbefore.
  - simpl. pose proof (length_filter_le (recent cfg T) (stored m u)). lia.
  - destruct Hch as [Hnow Hch]. cbn [check_all].
    pose proof (checkRateLimit_spec cfg m v now) as Hspec. cbv zeta in Hspec.
    destruct (checkRateLimit cfg m v now) as [allowed m'].
    destruct Hspec as [Hother Hmine].
    destruct (check_all cfg calls m') as [results m''] eqn:Hrest.
    cbn [fst].
    assert (Hres : results = fst (check_all cfg calls m'))
      by now rewrite Hrest.
    destruct (Z.eq_dec v u) as [->|Hvu].
    + (* a call of the user *)
      set (F := filter (fun ts => now - ts <? Config.rateLimitWindowMs cfg)
                  (stored m u)) in *.
      assert (HF : (List.length F <= List.length (stored m u))%nat)
        by apply length_filter_le.
      destruct (Z.lt_ge_cases T now) as [Hlt|Hge].
      * (* the window ends before the call *)
        assert (Hnone : filter (in_window cfg u T)
                          (granted ((u, now) :: calls) (allowed :: results))
                        = []).
        { apply granted_before. constructor; [exact Hlt|].
          eapply Forall_impl; [|exact Hnow]. simpl. intros; lia. }
        rewrite Hnone. simpl.
        pose proof (length_filter_le (recent cfg T) (stored m u)). lia.
      * (* the window ends at the call or later *)
        assert (Hin : forall ts, In ts (stored m u) -> ts <= now).
        { intros ts Hts. apply (Hbefore ts (u, now) Hts). now left. }
        rewrite <- (recent_kept cfg (stored m u) now T Hge). fold F.
        destruct allowed; destruct Hmine as [Hcount Hst].
        -- specialize (IH m' T Hch). rewrite Hst in IH.
           rewrite Hres. cbn [granted filter].
           assert (Hb : Z.of_nat (List.length (F ++ [now])%list)
                        <= Z.max 0 (Config.rateLimitMaxRequests cfg)).
           { rewrite length_app. simpl. lia. }
           specialize (IH Hb).
           assert (Hbf : forall ts c,
                      In ts (F ++ [now])%list -> In c calls -> ts <= snd c).
           { intros ts c Hts Hc. apply in_app_or in Hts.
             destruct Hts as [Hts|[<-|[]]].
             - apply (Hbefore ts c); [|now right].
               unfold F in Hts. apply filter_In in Hts. tauto.
             - rewrite Forall_forall in Hnow. exact (Hnow c Hc). }
           specialize (IH Hbf).
           rewrite filter_app, length_app in IH. cbn [filter] in IH.
           unfold in_window at 1. cbn [fst snd]. rewrite Z.eqb_refl.
           cbn [andb]. unfold recent at 2 in IH.
           destruct ((T - now <? Config.rateLimitWindowMs cfg) && (now <=? T));
             cbn [List.length] in *; lia.
        -- specialize (IH m' T Hch). rewrite Hst in IH.
           rewrite Hres. cbn [granted]. apply IH.
           ++ lia.
           ++ intros ts c Hts Hc. apply (Hbefore ts c); [|now right].
              unfold F in Hts. apply filter_In in Hts. tauto.
    + (* a call of somebody else *)
      assert (Hsame : stored m' u = stored m u) by (apply Hother; congruence).
      specialize (IH m' T Hch). rewrite Hsame in IH.
      assert (Hskip : filter (in_window cfg u T)
                        (granted ((v, now) :: calls) (allowed :: results))
                      = filter (in_window cfg u T) (granted calls results)).
      { destruct allowed; cbn [granted filter]; [|reflexivity].
        unfold in_window at 1. cbn [fst].
        destruct (Z.eqb_spec v u); [contradiction | reflexivity]. }
      rewrite Hskip, Hres. apply IH; [exact Hlen|].
      intros ts c Hts Hc. apply (Hbefore ts c Hts). now right.
Qed.

End RateLimitFacts.

Section RateLimitProperties.
Import BotService RateLimit RateLimitFacts.

(** X1.  Over calls in chronological order, starting with no stored time
    stamp, [checkRateLimit] never grants one user more than
    [rateLimitMaxRequests] calls within one window: for every user and
    every instant [T], the granted calls of the user at times [t] with
    [t <= T] and [T - t < rateLimitWindowMs] are at most the limit. *)
Theorem rate_limit_window_bound (cfg : Config.t) (calls : list (Z * Z))
  (userId T : Z) :
  chronological calls ->
  Z.of_nat (List.length
              (filter (in_window cfg userId T)
                 (granted calls (fst (check_all cfg calls [])))))
  <= Z.max 0 (Config.rateLimitMaxRequests cfg).
Proof.
  intros Hch.
  pose proof (window_bound cfg userId calls [] T Hch) as H.
  unfold stored in H. simpl in H. apply H; [lia|]. intros ts c [].
Qed.

Lemma rate_limit_window_bound_witness :
  Z.of_nat (List.length
              (filter (in_window Fixture.config 1001 60000)
                 (granted [(1001, 0); (1001, 1); (1002, 2); (1001, 60000)]
                    (fst (check_all Fixture.config
                            [(1001, 0); (1001, 1); (1002, 2); (1001, 60000)]
                            [])))))
  <= Z.max 0 (Config.rateLimitMaxRequests Fixture.config).
Proof.
  apply rate_limit_window_bound. simpl.
  repeat split; repeat constructor; simpl; lia.
Defined.

(** X2.  A call of one user leaves the time stamps of every other user
    as they were, and a refused call adds none to the caller's. *)
Theorem rate_limit_isolation (cfg : Config.t) (m : CommandCounts)
  (userId now other : Z) :
  other <> userId ->
  stored (snd (checkRateLimit cfg m userId now)) other = stored m other /\
  (fst (checkRateLimit cfg m userId now) = false ->
   incl (stored (snd (checkRateLimit cfg m userId now)) userId)
     (stored m userId)).
Proof.
  intros Hne. pose proof (checkRateLimit_spec cfg m userId now) as H.
  cbv zeta in H. destruct (checkRateLimit cfg m userId now) as [allowed m'].
  destruct H as [Hother Hmine]. cbn [fst snd]. split; [now apply Hother|].
  intros ->. destruct Hmine as [_ ->].
  intros ts Hts. apply filter_In in Hts. tauto.
Qed.

Lemma rate_limit_isolation_witness :
  stored (snd (checkRateLimit Fixture.config [(1002, [5; 7])] 1001 9)) 1002
  = [5; 7].
Proof.
  apply (proj1 (rate_limit_isolation Fixture.config [(1002, [5; 7])]
                  1001 9 1002 ltac:(discriminate))).
Defined.

End RateLimitProperties.

(* ================================================================== *)
(** * More on the store: well-formed documents, users and wallets      *)
(* ================================================================== *)

Module CaseFacts.
Import JsString.

Lemma upper_char_idem (c : ascii) : upper_char (upper_char c) = upper_char c.
Proof. destruct c as [[] [] [] [] [] [] [] []]; reflexivity. Qed.

Lemma lower_char_idem (c : ascii) : lower_char (lower_char c) = lower_char c.
Proof. destruct c as [[] [] [] [] [] [] [] []]; reflexivity. Qed.

Lemma toUpperCase_idem (s : string) :
  toUpperCase (toUpperCase s) = toUpperCase s.
Proof.
  unfold toUpperCase. induction s as [|c s IH]; simpl; [reflexivity|].
  now rewrite upper_char_idem, IH.
Qed.

Lemma toLowerCase_idem (s : string) :
  toLowerCase (toLowerCase s) = toLowerCase s.
Proof.
  unfold toLowerCase. induction s as [|c s IH]; simpl; [reflexivity|].
  now rewrite lower_char_idem, IH.
Qed.

Lemma includes_In (l : list string) (x : string) :
  includes l x = true <-> In x l.
Proof.
  unfold includes. rewrite existsb_exists. split.
  - intros (y & Hy & E). apply String.eqb_eq in E. now subst.
  - intros H. exists x. split; [exact H | apply String.eqb_refl].
Qed.

End CaseFacts.

Module ChainFacts.
Import JsString Validators CaseFacts.

(** The tickers [validateAddress] knows are the keys of
    [CHAIN_CONFIG]. *)
Lemma known_chain (c : string) :
  includes evm_chains c || String.eqb c "SOL" = true <->
  Config.lookup Config.CHAIN_CONFIG c <> None.
Proof.
  split.
  - rewrite orb_true_iff, includes_In, String.eqb_eq.
    intros [Hin | ->]; [|discriminate].
    simpl in Hin.
    repeat (destruct Hin as [<- | Hin]; [discriminate|]).
    contradiction.
  - unfold Config.lookup, Config.CHAIN_CONFIG, evm_chains, includes.
    cbn [existsb].
    rewrite !(String.eqb_sym c).
    repeat (match goal with
            | |- context [String.eqb ?k c] =>
                destruct (String.eqb k c); [reflexivity|]
            end).
    intros H. now contradiction H.
Qed.

Section WithEthers.
Context `{Ethers}.

Lemma valid_chain (a c n : string) :
  validateAddress a c = Valid n ->
  Config.lookup Config.CHAIN_CONFIG (toUpperCase c) <> None.
Proof.
  unfold validateAddress. cbv zeta. intros V. apply known_chain.
  destruct (includes evm_chains (toUpperCase c)); [reflexivity|].
  destruct (String.eqb (toUpperCase c) "SOL"); [reflexivity|].
  discriminate.
Qed.

Lemma validateAddress_upper (a c : string) :
  validateAddress a (toUpperCase c) = validateAddress a c.
Proof. unfold validateAddress. now rewrite toUpperCase_idem. Qed.

End WithEthers.

End ChainFacts.

Module UserFacts.
Import StoreSpec Stats.

(** The wallet ids [User.findOne] shows, or none. *)
Lemma ids_of_upsert U id un x :
  ids_of (User.upsert U id un) x =
  if x =? id
  then Some (match ids_of U id with Some l => l | None => [] end)
  else ids_of U x.
Proof.
  unfold ids_of, findUser.
  induction U as [|u U IH]; simpl.
  - rewrite (Z.eqb_sym id x). now destruct (x =? id).
  - destruct (Z.eqb_spec (User.telegramId u) id) as [<-|Hne]; simpl.
    + rewrite (Z.eqb_sym x). now destruct (User.telegramId u =? x).
    + destruct (Z.eqb_spec (User.telegramId u) x) as [<-|Hx].
      * apply Z.eqb_neq in Hne. now rewrite Hne.
      * rewrite IH. now destruct (x =? id).
Qed.

Lemma ids_of_update U id f x :
  ids_of (User.update U id f) x =
  if x =? id then option_map f (ids_of U id) else ids_of U x.
Proof.
  unfold ids_of, findUser.
  induction U as [|u U IH]; simpl.
  - now destruct (x =? id).
  - destruct (Z.eqb_spec (User.telegramId u) id) as [<-|Hne]; simpl.
    + rewrite (Z.eqb_sym x). now destruct (User.telegramId u =? x).
    + destruct (Z.eqb_spec (User.telegramId u) x) as [<-|Hx].
      * apply Z.eqb_neq in Hne. now rewrite Hne.
      * rewrite IH. now destruct (x =? id).
Qed.

Lemma telegramId_update U id f :
  map User.telegramId (User.update U id f) = map User.telegramId U.
Proof.
  induction U as [|u U IH]; simpl; [reflexivity|].
  destruct (User.telegramId u =? id); simpl; [reflexivity | now rewrite IH].
Qed.

Lemma In_telegramId_upsert U id un x :
  In x (map User.telegramId (User.upsert U id un)) ->
  In x (map User.telegramId U) \/ x = id.
Proof.
  induction U as [|u U IH]; simpl.
  - intros [<-|[]]. now right.
  - destruct (Z.eqb_spec (User.telegramId u) id) as [E|Hne]; simpl.
    + intros [<-|Hx]; [now right | now left; right].
    + intros [<-|Hx]; [now left; left|].
      destruct (IH Hx); [left; now right | now right].
Qed.

Lemma NoDup_upsert U id un :
  NoDup (map User.telegramId U) ->
  NoDup (map User.telegramId (User.upsert U id un)).
Proof.
  induction U as [|u U IH]; simpl; intros Hnd.
  - constructor; [intros [] | constructor].
  - inversion Hnd as [|? ? Hu Hrest]; subst.
    destruct (Z.eqb_spec (User.telegramId u) id) as [E|Hne]; simpl.
    + rewrite <- E. now constructor.
    + constructor; [|now apply IH].
      intros Hin. apply In_telegramId_upsert in Hin. tauto.
Qed.

Lemma In_addToSet w l id :
  In id (User.addToSet w l) <-> In id l \/ id = w.
Proof.
  unfold User.addToSet. destruct (existsb (Nat.eqb w) l) eqn:E.
  - apply existsb_exists in E. destruct E as (y & Hy & Ey).
    apply Nat.eqb_eq in Ey. subst y. split; [tauto|].
    intros [H| ->]; assumption.
  - rewrite in_app_iff. simpl. intuition.
Qed.

Lemma NoDup_addToSet w l : NoDup l -> NoDup (User.addToSet w l).
Proof.
  intros Hl. unfold User.addToSet. destruct (existsb (Nat.eqb w) l) eqn:E;
    [exact Hl|].
  apply StoreFacts.NoDup_snoc; [exact Hl|]. intros Hin.
  assert (existsb (Nat.eqb w) l = true); [|congruence].
  apply existsb_exists. exists w. split; [exact Hin | apply Nat.eqb_refl].
Qed.

Lemma In_pull w l id : In id (User.pull w l) <-> In id l /\ id <> w.
Proof.
  unfold User.pull. rewrite filter_In, negb_true_iff, Nat.eqb_neq. tauto.
Qed.

Lemma NoDup_pull w l : NoDup l -> NoDup (User.pull w l).
Proof. apply NoDup_filter. Qed.

End UserFacts.

Module LinkFacts.
Import TrackedWallet SubscriptionSpec StoreSpec BotService StoreFacts
  UserFacts.

Lemma tracks_middle l1 l2 w x id :
  tracks (l1 ++ w :: l2)%list x id <->
  tracks (l1 ++ l2)%list x id \/ (id = _id w /\ In x (trackingUserIds w)).
Proof.
  unfold tracks. split.
  - intros (w' & Hin & E & Hx). apply in_app_or in Hin.
    destruct Hin as [Hin|[->|Hin]].
    + left. exists w'. rewrite in_app_iff. tauto.
    + right. auto.
    + left. exists w'. rewrite in_app_iff. tauto.
  - intros [(w' & Hin & E & Hx)|[-> Hx]].
    + exists w'. rewrite in_app_iff in *. simpl. tauto.
    + exists w. rewrite in_app_iff. simpl. tauto.
Qed.

Lemma tracks_rest l1 l2 w x id :
  NoDup (map _id (l1 ++ w :: l2)%list) ->
  tracks (l1 ++ l2)%list x id -> id <> _id w.
Proof.
  intros Hnd (w' & Hin & E & _) ->.
  rewrite map_app in Hnd. simpl in Hnd.
  apply NoDup_remove_2 in Hnd. apply Hnd.
  rewrite <- map_app, <- E. now apply in_map.
Qed.

Lemma tracks_fresh coll n x id :
  Forall (fun w => (_id w < n)%nat) coll -> tracks coll x id -> id <> n.
Proof.
  intros Hf (w & Hin & E & _) ->. rewrite Forall_forall in Hf.
  specialize (Hf w Hin). lia.
Qed.

(** What [subscribe] does to the two collections. *)
Lemma subscribe_link cfg st u un c n al ans :
  Inv (db st) ->
  let r := subscribe cfg st u un c n al ans in
  (wallets (db (state r)) = wallets (db st) /\
   users (db (state r)) = User.upsert (users (db st)) u un) \/
  exists wid,
    users (db (state r)) =
      User.update (User.upsert (users (db st)) u un) u (User.addToSet wid) /\
    forall x id,
      tracks (wallets (db (state r))) x id <->
      tracks (wallets (db st)) x id \/ (x = u /\ id = wid).
Proof.
  intros HI. unfold subscribe. cbv zeta.
  destruct (findOne (wallets (db st)) (JsString.toLowerCase n) c)
    as [w|] eqn:F.
  - destruct (existsb (Z.eqb u) (trackingUserIds w)) eqn:M.
    + left. split; reflexivity.
    + right. exists (_id w). split; [reflexivity|].
      cbn [state db with_db wallets].
      apply findOne_Some in F. destruct F as [Hw _].
      destruct (locate _ _ Hw (inv_ids _ HI)) as (l1 & l2 & E & Hsave & _).
      rewrite Hsave by reflexivity. rewrite E.
      intros x id. rewrite !tracks_middle.
      cbn [_id trackingUserIds]. rewrite in_app_iff. simpl. intuition.
  - destruct (MoralisService.createStream n c
                (Config.webhookPublicUrl cfg ++ Config.webhookPath cfg) ans)
      as [[data|] sent].
    + right. exists (next_id (db st)). split; [reflexivity|].
      cbn [state db with_db wallets].
      intros x id.
      rewrite (tracks_middle (wallets (db st)) []).
      rewrite app_nil_r. cbn [_id trackingUserIds]. simpl. intuition.
    + left. split; reflexivity.
Qed.

(** What [unsubscribe] does to the two collections. *)
Lemma unsubscribe_link st u c n ans :
  Inv (db st) ->
  let r := unsubscribe st u c n ans in
  db (state r) = db st \/
  exists wid,
    users (db (state r)) =
      User.update (users (db st)) u (User.pull wid) /\
    forall x id,
      tracks (wallets (db (state r))) x id <->
      tracks (wallets (db st)) x id /\ ~ (x = u /\ id = wid).
Proof.
  intros HI. unfold unsubscribe. cbv zeta.
  destruct (findOne (wallets (db st)) (JsString.toLowerCase n) c)
    as [w|] eqn:F; [|now left].
  destruct (existsb (Z.eqb u) (trackingUserIds w)) eqn:M; cbn [negb];
    [|now left].
  right. exists (_id w).
  apply findOne_Some in F. destruct F as [Hw _].
  destruct (locate _ _ Hw (inv_ids _ HI)) as (l1 & l2 & E & Hsave & Hdel).
  pose proof (inv_ids _ HI) as Hnd. rewrite E in Hnd.
  destruct (filter (fun id => negb (id =? u)) (trackingUserIds w))
    as [|y rest] eqn:R.
  - cbn [state db with_db wallets users]. split; [reflexivity|].
    rewrite Hdel. rewrite E. intros x id. rewrite tracks_middle.
    pose proof (proj1 (filter_others_nil u _) R) as Hall.
    split.
    + intros Ht. split; [now left|]. intros [_ ->].
      exact (tracks_rest _ _ _ _ _ Hnd Ht eq_refl).
    + intros [[Ht|[-> Hx]] Hno]; [exact Ht|].
      exfalso. apply Hno. split; [now apply Hall | reflexivity].
  - cbn [state db with_db wallets users]. split; [reflexivity|].
    rewrite Hsave by reflexivity. rewrite E. intros x id.
    rewrite !tracks_middle. cbn [_id trackingUserIds]. rewrite <- R.
    rewrite filter_In, negb_true_iff, Z.eqb_neq.
    split.
    + intros [Ht|[-> [Hx Hne]]].
      * split; [now left|]. intros [_ ->].
        exact (tracks_rest _ _ _ _ _ Hnd Ht eq_refl).
      * split; [right; tauto|]. tauto.
    + intros [[Ht|[-> Hx]] Hno]; [now left|].
      right. split; [reflexivity|]. split; [exact Hx|].
      intros ->. apply Hno. tauto.
Qed.

Lemma Linked_empty : Linked empty_db.
Proof.
  split; simpl.
  - constructor.
  - intros uid l. discriminate.
  - intros uid id (w & [] & _).
Qed.

(** The wallet ids a user document shows, before there is one. *)
Lemma view_tracks d uid id :
  Linked d ->
  In id (match ids_of (users d) uid with Some l => l | None => [] end) <->
  tracks (wallets d) uid id.
Proof.
  intros HL. destruct (ids_of (users d) uid) as [l|] eqn:E.
  - exact (proj2 (link_ids _ HL uid l E) id).
  - split; [intros []|]. intros Ht.
    exfalso. exact (link_known _ HL uid id Ht E).
Qed.

Lemma view_NoDup d uid :
  Linked d ->
  NoDup (match ids_of (users d) uid with Some l => l | None => [] end).
Proof.
  intros HL. destruct (ids_of (users d) uid) as [l|] eqn:E.
  - exact (proj1 (link_ids _ HL uid l E)).
  - constructor.
Qed.

Lemma subscribe_Linked cfg st u un c n al ans :
  Inv (db st) -> Linked (db st) ->
  Linked (db (state (subscribe cfg st u un c n al ans))).
Proof.
  intros HI HL.
  destruct (subscribe_link cfg st u un c n al ans HI)
    as [[EW EU]|(wid & EU & Ht)].
  - split.
    + rewrite EU. apply NoDup_upsert, (link_unique _ HL).
    + intros uid l. rewrite EU, EW, ids_of_upsert.
      destruct (Z.eqb_spec uid u) as [->|Hne].
      * intros E. inversion E; subst. split.
        -- now apply view_NoDup.
        -- intros id. now apply view_tracks.
      * apply (link_ids _ HL).
    + intros uid id. rewrite EU, EW, ids_of_upsert. intros Hx.
      destruct (uid =? u); [discriminate|].
      exact (link_known _ HL uid id Hx).
  - split.
    + rewrite EU, telegramId_update. apply NoDup_upsert, (link_unique _ HL).
    + intros uid l. rewrite EU, ids_of_update, !ids_of_upsert.
      destruct (Z.eqb_spec uid u) as [->|Hne].
      * rewrite Z.eqb_refl. cbn [option_map]. intros E.
        inversion E; subst. split.
        -- apply NoDup_addToSet. now apply view_NoDup.
        -- intros id. rewrite In_addToSet, Ht, (view_tracks _ u id HL).
           tauto.
      * intros E. destruct (link_ids _ HL uid l E) as [Hnd Hin].
        split; [exact Hnd|]. intros id. rewrite Ht, Hin. tauto.
    + intros uid id. rewrite Ht, EU, ids_of_update, !ids_of_upsert.
      destruct (Z.eqb_spec uid u) as [->|Hne].
      * rewrite Z.eqb_refl. discriminate.
      * intros [Hx|[-> _]]; [|contradiction].
        exact (link_known _ HL uid id Hx).
Qed.

Lemma unsubscribe_Linked st u c n ans :
  Inv (db st) -> Linked (db st) ->
  Linked (db (state (unsubscribe st u c n ans))).
Proof.
  intros HI HL.
  destruct (unsubscribe_link st u c n ans HI) as [E|(wid & EU & Ht)].
  - now rewrite E.
  - split.
    + rewrite EU, telegramId_update. apply (link_unique _ HL).
    + intros uid l. rewrite EU, ids_of_update.
      destruct (Z.eqb_spec uid u) as [->|Hne].
      * destruct (ids_of (users (db st)) u) as [l0|] eqn:E0;
          [|discriminate].
        cbn [option_map]. intros E. inversion E; subst.
        destruct (link_ids _ HL u l0 E0) as [Hnd Hin]. split.
        -- now apply NoDup_pull.
        -- intros id. rewrite In_pull, Ht, Hin. tauto.
      * intros E. destruct (link_ids _ HL uid l E) as [Hnd Hin].
        split; [exact Hnd|]. intros id. rewrite Ht, Hin. tauto.
    + intros uid id. rewrite Ht, EU, ids_of_update. intros [Hx _].
      pose proof (link_known _ HL uid id Hx) as Hk.
      destruct (uid =? u) eqn:Eu; [|exact Hk].
      apply Z.eqb_eq in Eu. subst uid.
      destruct (ids_of (users (db st)) u); [discriminate | contradiction].
Qed.

Lemma start_Linked st ctx :
  Linked (db st) -> Linked (db (Stats.start st ctx)).
Proof.
  intros HL. unfold Stats.start. cbn [db with_db]. split;
    cbn [users wallets].
  - apply NoDup_upsert, (link_unique _ HL).
  - intros uid l. rewrite ids_of_upsert.
    destruct (Z.eqb_spec uid (from_id ctx)) as [->|Hne].
    + intros E. inversion E; subst. split.
      * now apply view_NoDup.
      * intros id. now apply view_tracks.
    + apply (link_ids _ HL).
  - intros uid id. rewrite ids_of_upsert. intros Hx.
    destruct (uid =? from_id ctx); [discriminate|].
    exact (link_known _ HL uid id Hx).
Qed.

Lemma start_Inv st ctx : Inv (db st) -> Inv (db (Stats.start st ctx)).
Proof. intros [H1 H2 H3 H4 H5 H6]. split; assumption. Qed.

Section Reachable.
Context `{Ethers} (cfg : Config.t).

Lemma handle_Linked st cmd :
  Inv (db st) -> Linked (db st) -> Linked (db (state (handle cfg st cmd))).
Proof.
  intros HI HL. destruct cmd as [ctx now ans|ctx now ans]; simpl.
  - destruct (BotFacts.track_db cfg st ctx now ans)
      as [E|(st' & c & n & al & E & _ & _ & ->)].
    + now rewrite E.
    + apply subscribe_Linked; now rewrite E.
  - destruct (BotFacts.untrack_db cfg st ctx now ans)
      as [E|(st' & c & n & E & ->)].
    + now rewrite E.
    + apply unsubscribe_Linked; now rewrite E.
Qed.

Lemma run_Linked cs st :
  Inv (db st) -> Linked (db st) -> Linked (db (run cfg cs st)).
Proof.
  revert st. induction cs as [|cmd cs IH]; intros st HI HL; [exact HL|].
  apply IH; [now apply BotFacts.handle_Inv | now apply handle_Linked].
Qed.

Lemma reachable_Linked cs : Linked (db (run cfg cs initial)).
Proof. apply run_Linked; [apply BotFacts.Inv_empty | apply Linked_empty]. Qed.

Lemma session_invariants es :
  forall st,
    Inv (db st) -> Linked (db st) ->
    Inv (db (Session.run cfg es st)) /\
    Linked (db (Session.run cfg es st)).
Proof.
  induction es as [|e es IH]; intros st HI HL; [now split|].
  cbn [Session.run fold_left]. apply IH.
  - destruct e as [ctx|c]; cbn [Session.step].
    + now apply start_Inv.
    + now apply BotFacts.handle_Inv.
  - destruct e as [ctx|c]; cbn [Session.step].
    + now apply start_Linked.
    + now apply handle_Linked.
Qed.

End Reachable.

End LinkFacts.

(* ================================================================== *)
(** * The two commands, check by check                                 *)
(* ================================================================== *)

Module HandlerFacts.
Import JsString TrackedWallet SubscriptionSpec StoreSpec BotService
  StoreFacts CaseFacts ChainFacts.

Lemma confirm_known c ok :
  Config.lookup Config.CHAIN_CONFIG c <> None -> confirm c ok = ok.
Proof.
  unfold confirm. destruct (Config.lookup Config.CHAIN_CONFIG c);
    [reflexivity | contradiction].
Qed.

Lemma subscribe_message cfg st u un c n al ans :
  Config.lookup Config.CHAIN_CONFIG c <> None ->
  let m := message (subscribe cfg st u un c n al ans) in
  m = AlreadyTracking \/ m = NowTracking \/ m = StreamFailed \/
  m = TrackingStarted.
Proof.
  intros Hc. unfold subscribe. cbv zeta.
  destruct (findOne (wallets (db st)) (toLowerCase n) c) as [w|].
  - destruct (existsb (Z.eqb u) (trackingUserIds w)); cbn [message].
    + now left.
    + rewrite (confirm_known _ _ Hc). tauto.
  - destruct (MoralisService.createStream n c
                (Config.webhookPublicUrl cfg ++ Config.webhookPath cfg) ans)
      as [[data|] sent]; cbn [message].
    + rewrite (confirm_known _ _ Hc). tauto.
    + tauto.
Qed.

Lemma unsubscribe_message st u c n ans :
  Config.lookup Config.CHAIN_CONFIG c <> None ->
  let r := unsubscribe st u c n ans in
  (message r = NotTracking /\ state r = st /\ requests r = []) \/
  message r = StoppedTracking.
Proof.
  intros Hc. unfold unsubscribe. cbv zeta.
  destruct (findOne (wallets (db st)) (toLowerCase n) c) as [w|];
    [|now left].
  destruct (existsb (Z.eqb u) (trackingUserIds w)); cbn [negb];
    [|now left].
  right.
  destruct (filter (fun id => negb (id =? u)) (trackingUserIds w));
    cbn [message]; apply (confirm_known _ _ Hc).
Qed.

Lemma alias_checked (a : string) :
  truthy a = true -> Validators.validateAlias a = true ->
  (String.length a <=? 32)%nat = true /\
  Validators.all_chars Validators.is_alias_char a = true.
Proof.
  unfold Validators.validateAlias. intros ->. cbn [negb].
  rewrite Nat.ltb_antisym.
  destruct (String.length a <=? 32)%nat; cbn [negb]; [tauto | discriminate].
Qed.

Lemma Forall_save (P : TrackedWallet.t -> Prop) coll w :
  Forall P coll -> P w -> Forall P (save coll w).
Proof.
  intros Hc Hw. induction Hc as [|x l Hx Hl IH]; simpl; [constructor|].
  destruct (_id x =? _id w)%nat; constructor; auto.
Qed.

Lemma Forall_deleteOne (P : TrackedWallet.t -> Prop) coll id :
  Forall P coll -> Forall P (deleteOne coll id).
Proof.
  intros Hc. induction Hc as [|x l Hx Hl IH]; simpl; [constructor|].
  destruct (_id x =? id)%nat; [exact Hl | constructor; auto].
Qed.

Lemma subscribe_well_formed cfg st u un c n al ans :
  Forall (fun w => well_formed w = true) (wallets (db st)) ->
  toUpperCase c = c ->
  Config.lookup Config.CHAIN_CONFIG c <> None ->
  (forall a, al = Some a ->
             truthy a = true /\ Validators.validateAlias a = true) ->
  Forall (fun w => well_formed w = true)
    (wallets (db (state (subscribe cfg st u un c n al ans)))).
Proof.
  intros HW Hup Hc Hal. unfold subscribe. cbv zeta.
  destruct (findOne (wallets (db st)) (toLowerCase n) c) as [w|] eqn:F.
  - destruct (existsb (Z.eqb u) (trackingUserIds w)); [exact HW|].
    cbn [state db with_db wallets]. apply Forall_save; [exact HW|].
    apply findOne_Some in F. destruct F as [Hw _].
    rewrite Forall_forall in HW. exact (HW w Hw).
  - destruct (MoralisService.createStream n c
                (Config.webhookPublicUrl cfg ++ Config.webhookPath cfg) ans)
      as [[data|] sent]; [|exact HW].
    cbn [state db with_db wallets]. apply Forall_app. split; [exact HW|].
    constructor; [|constructor].
    unfold well_formed. cbn [address chainTicker alias].
    rewrite toLowerCase_idem, Hup, !String.eqb_refl.
    destruct (Config.lookup Config.CHAIN_CONFIG c); [|contradiction].
    cbn [andb]. destruct al as [a|]; [|reflexivity].
    destruct (Hal a eq_refl) as [Ht Hv].
    destruct (alias_checked a Ht Hv) as [Hl Hch].
    now rewrite Ht, Hl, Hch.
Qed.

Lemma unsubscribe_well_formed st u c n ans :
  Forall (fun w => well_formed w = true) (wallets (db st)) ->
  Forall (fun w => well_formed w = true)
    (wallets (db (state (unsubscribe st u c n ans)))).
Proof.
  intros HW. unfold unsubscribe. cbv zeta.
  destruct (findOne (wallets (db st)) (toLowerCase n) c) as [w|] eqn:F;
    [|exact HW].
  destruct (existsb (Z.eqb u) (trackingUserIds w)); cbn [negb];
    [|exact HW].
  apply findOne_Some in F. destruct F as [Hw _].
  destruct (filter (fun id => negb (id =? u)) (trackingUserIds w));
    cbn [state db with_db wallets].
  - now apply Forall_deleteOne.
  - apply Forall_save; [exact HW|].
    rewrite Forall_forall in HW. exact (HW w Hw).
Qed.

Lemma filter_absent (u : Z) (l : list Z) :
  ~ In u l -> filter (fun id => negb (id =? u)) l = l.
Proof.
  induction l as [|x l IH]; simpl; [reflexivity|]. intros Hn.
  destruct (Z.eqb_spec x u) as [->|_]; [tauto|]. simpl.
  rewrite IH; [reflexivity | tauto].
Qed.

Lemma deleteOne_last coll w :
  Forall (fun x => (_id x < _id w)%nat) coll ->
  deleteOne (coll ++ [w])%list (_id w) = coll.
Proof.
  intros Hf. induction Hf as [|x l Hx Hl IH]; simpl.
  - now rewrite Nat.eqb_refl.
  - destruct (Nat.eqb_spec (_id x) (_id w)) as [E|_]; [lia|].
    now rewrite IH.
Qed.

(** [subscribe] that subscribed, then [unsubscribe]: the wallets are
    back. *)
Lemma subscribe_unsubscribe cfg st st1 u un c n al ans1 ans2 :
  Inv (db st) ->
  Config.lookup Config.CHAIN_CONFIG c <> None ->
  let r1 := subscribe cfg st u un c n al ans1 in
  message r1 = TrackingStarted \/ message r1 = NowTracking ->
  db st1 = db (state r1) ->
  let r2 := unsubscribe st1 u c n ans2 in
  wallets (db (state r2)) = wallets (db st) /\ message r2 = StoppedTracking.
Proof.
  intros HI Hc r1 Hm E1 r2. subst r2. unfold unsubscribe. cbv zeta.
  rewrite E1. subst r1. revert Hm. unfold subscribe. cbv zeta.
  destruct (findOne (wallets (db st)) (toLowerCase n) c) as [w|] eqn:F.
  - destruct (existsb (Z.eqb u) (trackingUserIds w)) eqn:M; cbn [message].
    { intros [?|?]; discriminate. }
    intros _. cbn [state db with_db wallets users next_id].
    apply findOne_Some in F. destruct F as [Hw Hk].
    destruct (key_fields _ _ _ Hk) as [Ha Hch].
    destruct (locate _ _ Hw (inv_ids _ HI)) as (l1 & l2 & E & Hsave & _).
    rewrite Hsave by reflexivity.
    set (w' := {| _id := _id w; address := address w;
                  chainTicker := chainTicker w; alias := alias w;
                  trackingUserIds := (trackingUserIds w ++ [u])%list;
                  moralisStreamId := moralisStreamId w |}).
    assert (F' : findOne (l1 ++ w' :: l2)%list (toLowerCase n) c = Some w').
    { rewrite <- Ha, <- Hch. apply (findOne_middle l1 l2 w w');
        [reflexivity|]. rewrite <- E. apply (inv_keys _ HI). }
    rewrite F'. cbn [trackingUserIds w'].
    assert (Hin : existsb (Z.eqb u) (trackingUserIds w ++ [u])%list = true).
    { apply existsb_Zeqb. rewrite in_app_iff. right. now left. }
    rewrite Hin. cbn [negb].
    assert (Hno : ~ In u (trackingUserIds w)).
    { intros Hu. apply existsb_Zeqb in Hu. congruence. }
    rewrite filter_app, (filter_absent _ _ Hno). cbn [filter].
    rewrite Z.eqb_refl. cbn [negb]. rewrite app_nil_r.
    pose proof (inv_nonempty _ HI) as Hne. rewrite Forall_forall in Hne.
    specialize (Hne w Hw).
    destruct (trackingUserIds w) as [|y rest] eqn:Ids; [contradiction|].
    cbn [state db with_db wallets message _id address chainTicker alias
           moralisStreamId].
    split; [|apply (confirm_known _ _ Hc)].
    assert (Hnd : NoDup (map _id (l1 ++ w' :: l2)%list)).
    { rewrite (map_middle _id l1 l2 w w') by reflexivity.
      rewrite <- E. apply (inv_ids _ HI). }
    assert (Hw' : In w' (l1 ++ w' :: l2)%list).
    { rewrite in_app_iff. right. now left. }
    destruct (locate _ _ Hw' Hnd) as (k1 & k2 & E' & Hsave' & _).
    assert (Ek : k1 = l1 /\ k2 = l2).
    { clear - E' Hnd. revert k1 E'.
      induction l1 as [|x l1 IH]; intros k1 E'.
      - destruct k1 as [|z k1]; simpl in E'.
        + inversion E'. auto.
        + exfalso. inversion E'; subst. simpl in Hnd.
          inversion Hnd as [|? ? Hx _]; subst. apply Hx.
          rewrite map_app, in_app_iff. right. now left.
      - destruct k1 as [|z k1]; simpl in E'.
        + exfalso. inversion E'; subst. simpl in Hnd.
          inversion Hnd as [|? ? Hx _]; subst. apply Hx.
          rewrite map_app, in_app_iff. right. now left.
        + inversion E'; subst. simpl in Hnd.
          inversion Hnd as [|? ? _ Hrest]; subst.
          destruct (IH Hrest k1 H1) as [-> ->]. auto. }
    destruct Ek as [-> ->].
    rewrite Hsave' by reflexivity. rewrite E. f_equal. f_equal.
    destruct w; simpl in *. now subst.
  - unfold MoralisService.createStream.
    destruct (Config.lookup Config.CHAIN_CONFIG (toUpperCase c));
      [|intros [?|?]; discriminate].
    cbv zeta.
    match goal with
    | |- context [let '(streamData, sent0) := ?p in _] =>
        destruct p as [[d|] sent] eqn:Ep
    end; cbn [message].
    2:{ intros [?|?]; discriminate. }
    intros _. cbn [state db with_db wallets].
    set (w := {| _id := next_id (db st); address := toLowerCase n;
                 chainTicker := c; alias := al; trackingUserIds := [u];
                 moralisStreamId := Some (MoralisService.id d) |}).
    assert (F' : findOne (wallets (db st) ++ [w])%list (toLowerCase n) c
                 = Some w).
    { rewrite findOne_app_None by exact F. unfold findOne. simpl.
      unfold matches. cbn [address chainTicker w].
      now rewrite !String.eqb_refl. }
    rewrite F'. cbn [trackingUserIds w existsb]. rewrite Z.eqb_refl.
    cbn [orb negb filter]. rewrite Z.eqb_refl. cbn [negb].
    cbn [state db with_db wallets message _id].
    split; [|apply (confirm_known _ _ Hc)].
    apply (deleteOne_last (wallets (db st)) w). apply (inv_fresh _ HI).
Qed.

Section Cases.
Context `{Ethers} (cfg : Config.t).

(** [/track] either stops at one of its checks, the database as it
    was and no request made, or passes them all and subscribes. *)
Lemma track_cases st ctx now ans :
  (refused (message (track cfg st ctx now ans)) = true /\
   db (state (track cfg st ctx now ans)) = db st /\
   requests (track cfg st ctx now ans) = []) \/
  exists counts arg0 arg1 rest n,
    checkRateLimit cfg (userCommandCounts st) (from_id ctx) now
      = (true, counts) /\
    args ctx = arg0 :: arg1 :: rest /\
    includes (Config.supported cfg) (toUpperCase arg0) = true /\
    (truthy (join_space rest) = true ->
     Validators.validateAlias (join_space rest) = true) /\
    Validators.validateAddress arg1 (toUpperCase arg0)
      = Validators.Valid n /\
    track cfg st ctx now ans =
    subscribe cfg (with_counts st counts) (from_id ctx)
      (from_username ctx) (toUpperCase arg0) n
      (if truthy (join_space rest) then Some (join_space rest) else None)
      ans.
Proof.
  unfold track.
  destruct (checkRateLimit cfg (userCommandCounts st) (from_id ctx) now)
    as [allowed counts].
  destruct allowed; cbn [negb]; [|left; repeat split].
  destruct (args ctx) as [|arg0 [|arg1 rest]];
    [left; repeat split | left; repeat split |].
  cbv zeta.
  destruct (includes (Config.supported cfg) (toUpperCase arg0)) eqn:S;
    cbn [negb]; [|left; repeat split].
  destruct (truthy (join_space rest)) eqn:T.
  - destruct (Validators.validateAlias (join_space rest)) eqn:VA;
      cbn [negb]; [|left; repeat split].
    destruct (Validators.validateAddress arg1 (toUpperCase arg0))
      as [n|e] eqn:V; [|left; repeat split].
    right. exists counts, arg0, arg1, rest, n. rewrite T.
    repeat split; auto.
  - destruct (Validators.validateAddress arg1 (toUpperCase arg0))
      as [n|e] eqn:V; [|left; repeat split].
    right. exists counts, arg0, arg1, rest, n. rewrite T.
    repeat split; auto. discriminate.
Qed.

Lemma untrack_cases st ctx now ans :
  (refused (message (untrack cfg st ctx now ans)) = true /\
   db (state (untrack cfg st ctx now ans)) = db st /\
   requests (untrack cfg st ctx now ans) = []) \/
  exists counts arg0 arg1 rest n,
    checkRateLimit cfg (userCommandCounts st) (from_id ctx) now
      = (true, counts) /\
    args ctx = arg0 :: arg1 :: rest /\
    Validators.validateAddress arg1 (toUpperCase arg0)
      = Validators.Valid n /\
    untrack cfg st ctx now ans =
    unsubscribe (with_counts st counts) (from_id ctx)
      (toUpperCase arg0) n ans.
Proof.
  unfold untrack.
  destruct (checkRateLimit cfg (userCommandCounts st) (from_id ctx) now)
    as [allowed counts].
  destruct allowed; cbn [negb]; [|left; repeat split].
  destruct (args ctx) as [|arg0 [|arg1 rest]];
    [left; repeat split | left; repeat split |].
  cbv zeta.
  destruct (Validators.validateAddress arg1 (toUpperCase arg0))
    as [n|e] eqn:V; [|left; repeat split].
  right. exists counts, arg0, arg1, rest, n. repeat split; auto.
Qed.

Lemma valid_ticker arg0 arg1 n :
  Validators.validateAddress arg1 (toUpperCase arg0) = Validators.Valid n ->
  Config.lookup Config.CHAIN_CONFIG (toUpperCase arg0) <> None.
Proof.
  intros V. apply valid_chain in V. now rewrite toUpperCase_idem in V.
Qed.

Lemma handle_well_formed st cmd :
  Forall (fun w => well_formed w = true) (wallets (db st)) ->
  Forall (fun w => well_formed w = true)
    (wallets (db (state (handle cfg st cmd)))).
Proof.
  intros HW. destruct cmd as [ctx now ans|ctx now ans]; simpl.
  - destruct (track_cases st ctx now ans)
      as [(_ & E & _)|(counts & arg0 & arg1 & rest & n & _ & _ & _ & Hal
                       & V & ->)].
    + now rewrite E.
    + apply subscribe_well_formed.
      * exact HW.
      * apply toUpperCase_idem.
      * exact (valid_ticker _ _ _ V).
      * intros a. destruct (truthy (join_space rest)) eqn:T;
          [|discriminate].
        intros Ea. inversion Ea; subst. auto.
  - destruct (untrack_cases st ctx now ans)
      as [(_ & E & _)|(counts & arg0 & arg1 & rest & n & _ & _ & _ & ->)].
    + now rewrite E.
    + now apply unsubscribe_well_formed.
Qed.

End Cases.

End HandlerFacts.

(* ================================================================== *)
(** * Properties of the two commands and of the store they leave       *)
(* ================================================================== *)

Module StatsFacts.
Import TrackedWallet SubscriptionSpec StoreSpec StoreFacts.

(** A query returns documents with distinct ids. *)
Lemma find_tracking_ids coll uid :
  NoDup (map _id coll) -> NoDup (map _id (find_tracking coll uid)).
Proof.
  unfold find_tracking. intros Hnd.
  induction coll as [|w coll IH]; [constructor|].
  cbn [map] in Hnd. apply NoDup_cons_iff in Hnd. destruct Hnd as [Hw Hrest].
  cbn [filter]. destruct (existsb (Z.eqb uid) (trackingUserIds w));
    [|now apply IH].
  cbn [map]. apply NoDup_cons; [|now apply IH].
  rewrite in_map_iff. intros (y & E & Hy). apply filter_In in Hy.
  apply Hw. rewrite <- E. apply in_map. tauto.
Qed.

Lemma In_find_tracking coll uid id :
  In id (map _id (find_tracking coll uid)) <-> tracks coll uid id.
Proof.
  unfold find_tracking, tracks. rewrite in_map_iff. split.
  - intros (w & E & Hw). apply filter_In in Hw. destruct Hw as [Hw Hu].
    apply existsb_Zeqb in Hu. eauto.
  - intros (w & Hw & E & Hu). exists w. split; [exact E|].
    apply filter_In. split; [exact Hw | now apply existsb_Zeqb].
Qed.

End StatsFacts.

Section BotProperties.
Import JsString TrackedWallet SubscriptionSpec StoreSpec BotService.
Import StoreFacts BotFacts CaseFacts ChainFacts LinkFacts HandlerFacts
  StatsFacts.
Context `{Ethers} (cfg : Config.t).

(** X3.  A command that is turned down (rate limit, wrong format,
    unsupported chain, invalid alias, invalid address, or an [/untrack]
    of a wallet the user does not track) leaves both collections as they
    were and sends no request to the stream provider. *)
Theorem refused_command_changes_nothing (st : State) (cmd : command) :
  refused (message (handle cfg st cmd)) = true ->
  db (state (handle cfg st cmd)) = db st /\ requests (handle cfg st cmd) = [].
Proof.
  destruct cmd as [ctx now ans|ctx now ans]; cbn [handle]; intros Hr.
  - destruct (track_cases cfg st ctx now ans)
      as [(_ & E & R)|(counts & arg0 & arg1 & rest & n & _ & _ & _ & _
                       & V & Et)]; [tauto|].
    exfalso. rewrite Et in Hr.
    pose proof (subscribe_message cfg (with_counts st counts) (from_id ctx)
                  (from_username ctx) (toUpperCase arg0) n
                  (if truthy (join_space rest)
                   then Some (join_space rest) else None) ans
                  (valid_ticker _ _ _ V)) as Hm.
    cbv zeta in Hm.
    destruct Hm as [Hm|[Hm|[Hm|Hm]]]; rewrite Hm in Hr; discriminate.
  - destruct (untrack_cases cfg st ctx now ans)
      as [(_ & E & R)|(counts & arg0 & arg1 & rest & n & _ & _ & V & Et)];
      [tauto|].
    rewrite Et in *.
    destruct (unsubscribe_message (with_counts st counts) (from_id ctx)
                (toUpperCase arg0) n ans (valid_ticker _ _ _ V))
      as [(_ & -> & ->)|Hm].
    + split; reflexivity.
    + rewrite Hm in Hr. discriminate.
Qed.

(** X4.  With the database and Telegram answering, neither command ends
    in its catch block: a ticker that passes [validateAddress] is a key
    of [CHAIN_CONFIG], so reading the chain's icon for the final message
    does not throw, whatever [config.chains.supported] lists. *)
Theorem commands_never_reach_catch (st : State) (cmd : command) :
  message (handle cfg st cmd) <> ErrorOccurred.
Proof.
  destruct cmd as [ctx now ans|ctx now ans]; cbn [handle].
  - destruct (track_cases cfg st ctx now ans)
      as [(Hr & _)|(counts & arg0 & arg1 & rest & n & _ & _ & _ & _
                    & V & Et)].
    + intros E. rewrite E in Hr. discriminate.
    + rewrite Et.
      pose proof (subscribe_message cfg (with_counts st counts) (from_id ctx)
                    (from_username ctx) (toUpperCase arg0) n
                    (if truthy (join_space rest)
                     then Some (join_space rest) else None) ans
                    (valid_ticker _ _ _ V)) as Hm.
      cbv zeta in Hm.
      destruct Hm as [Hm|[Hm|[Hm|Hm]]]; rewrite Hm; discriminate.
  - destruct (untrack_cases cfg st ctx now ans)
      as [(Hr & _)|(counts & arg0 & arg1 & rest & n & _ & _ & V & Et)].
    + intros E. rewrite E in Hr. discriminate.
    + rewrite Et.
      destruct (unsubscribe_message (with_counts st counts) (from_id ctx)
                  (toUpperCase arg0) n ans (valid_ticker _ _ _ V))
        as [(Hm & _)|Hm]; rewrite Hm; discriminate.
Qed.

(** X5.  After any sequence of [/track] and [/untrack] commands every
    stored wallet already has the form its schema asks for: the address
    is in lower case, the chain ticker is in upper case and is a key of
    [CHAIN_CONFIG], and an alias is not empty, has at most 32 characters
    and only letters, digits, [_], [-] and white space. *)
Theorem stored_wallets_well_formed (cs : list command) :
  Forall (fun w => well_formed w = true) (wallets (db (run cfg cs initial))).
Proof.
  unfold run.
  assert (G : forall st,
             Forall (fun w => well_formed w = true) (wallets (db st)) ->
             Forall (fun w => well_formed w = true)
               (wallets (db (fold_left (fun s c => state (handle cfg s c))
                               cs st)))).
  { induction cs as [|cmd cs IH]; intros st HW; [exact HW|].
    simpl. apply IH. now apply handle_well_formed. }
  apply G. constructor.
Qed.

(** X6.  After any sequence of [/start], [/track] and [/untrack] the
    two collections agree for what [/stats] reads: when [User.findOne]
    finds the user, the user's [trackedWalletIds] are, up to order and
    without repetition, the ids of the wallets
    [TrackedWallet.find({trackingUserIds: userId})] returns; when it
    finds no user, that query returns no wallet. *)
Theorem stats_user_and_wallets_agree (es : list Session.event)
  (ctx : Context) :
  match Stats.stats (Session.run cfg es initial) ctx with
  | Some (user, ws) =>
      User.telegramId user = from_id ctx /\
      Permutation (User.trackedWalletIds user) (map _id ws)
  | None =>
      find_tracking (wallets (db (Session.run cfg es initial))) (from_id ctx)
      = []
  end.
Proof.
  destruct (session_invariants cfg es initial Inv_empty Linked_empty)
    as [HI HL].
  unfold Stats.stats.
  destruct (Stats.findUser (users (db (Session.run cfg es initial)))
              (from_id ctx)) as [user|] eqn:E.
  - split.
    + unfold Stats.findUser in E. apply find_some in E.
      now apply Z.eqb_eq.
    + assert (Ei : ids_of (users (db (Session.run cfg es initial)))
                     (from_id ctx)
                   = Some (User.trackedWalletIds user))
        by (unfold ids_of; now rewrite E).
      destruct (link_ids _ HL _ _ Ei) as [Hnd Hin].
      apply NoDup_Permutation.
      * exact Hnd.
      * apply find_tracking_ids, (inv_ids _ HI).
      * intros id. now rewrite Hin, In_find_tracking.
  - destruct (find_tracking (wallets (db (Session.run cfg es initial)))
                (from_id ctx)) as [|w ws] eqn:Ft; [reflexivity|].
    exfalso.
    assert (Ht : tracks (wallets (db (Session.run cfg es initial)))
                   (from_id ctx) (_id w)).
    { apply In_find_tracking. rewrite Ft. now left. }
    apply (link_known _ HL _ _ Ht). unfold ids_of. now rewrite E.
Qed.

(** X7.  A [/track] that subscribed the user (alone, with a new stream,
    or beside others) followed by the same user's [/untrack] with the
    same arguments, not stopped by the rate limit, stops the tracking
    and puts the wallet collection back: the same documents in the same
    order, each with the [_id], address, chain ticker, alias, subscribers
    and stream id it had.  When the [/track] created the wallet, the
    [/untrack] deletes that document and the collection is exactly as it
    was; when it joined a wallet, the two [save()] calls have rewritten
    the [updatedAt] of that document, which the fields above leave out. *)
Theorem track_then_untrack_restores (cs : list command) (ctx : Context)
  (now1 now2 : Z) (ans1 ans2 : MoralisService.http_outcome) :
  let st := run cfg cs initial in
  let r1 := track cfg st ctx now1 ans1 in
  let r2 := untrack cfg (state r1) ctx now2 ans2 in
  message r1 = TrackingStarted \/ message r1 = NowTracking ->
  message r2 <> RateLimited ->
  message r2 = StoppedTracking /\
  map content (wallets (db (state r2))) = map content (wallets (db st)) /\
  (message r1 = TrackingStarted ->
   wallets (db (state r2)) = wallets (db st)).
Proof.
  intros st r1 r2 Hm Hrl.
  assert (Hmain : wallets (db (state r2)) = wallets (db st) /\
                  message r2 = StoppedTracking).
  {
    pose proof (reachable_Inv cfg cs) as HI. fold st in HI.
    destruct (track_cases cfg st ctx now1 ans1)
      as [(Hr & _)|(counts & arg0 & arg1 & rest & n & _ & Ha & _ & _ & V & Et)].
    { fold r1 in Hr. destruct Hm as [Hm|Hm]; rewrite Hm in Hr; discriminate. }
    destruct (untrack_cases cfg (state r1) ctx now2 ans2)
      as [(Hr & _)|(counts2 & b0 & b1 & rest2 & n2 & _ & Hb & V2 & Eu)].
    { fold r2 in Hr. exfalso. revert Hr Hrl. subst r2. unfold untrack.
      destruct (checkRateLimit cfg (userCommandCounts (state r1)) (from_id ctx)
                  now2) as [[] counts2]; cbn [negb].
      - intros Hr _. rewrite Ha in Hr. cbv zeta in Hr. rewrite V in Hr.
        destruct (unsubscribe_message
                    (with_counts (state r1) counts2) (from_id ctx)
                    (toUpperCase arg0) n ans2 (valid_ticker _ _ _ V))
          as [(Hn & _)|Hs].
        + pose proof (subscribe_unsubscribe cfg (with_counts st counts)
                        (with_counts (state r1) counts2) (from_id ctx)
                        (from_username ctx) (toUpperCase arg0) n
                        (if truthy (join_space rest)
                         then Some (join_space rest) else None) ans1 ans2)
            as Hround.
          cbv zeta in Hround. rewrite <- Et in Hround. fold r1 in Hround.
          destruct (Hround HI (valid_ticker _ _ _ V) Hm eq_refl) as [_ Hs].
          rewrite Hs in Hn. discriminate.
        + rewrite Hs in Hr. discriminate.
      - intros _ Hrl. now apply Hrl. }
    rewrite Ha in Hb. inversion Hb; subst b0 b1 rest2.
    rewrite V in V2. inversion V2; subst n2.
    fold r2 in Eu. rewrite Eu.
    pose proof (subscribe_unsubscribe cfg (with_counts st counts)
                  (with_counts (state r1) counts2) (from_id ctx)
                  (from_username ctx) (toUpperCase arg0) n
                  (if truthy (join_space rest)
                   then Some (join_space rest) else None) ans1 ans2)
      as Hround.
    cbv zeta in Hround. rewrite <- Et in Hround. fold r1 in Hround.
    exact (Hround HI (valid_ticker _ _ _ V) Hm eq_refl).
  }
  destruct Hmain as [Ew Em]. split; [exact Em|].
  split; [now rewrite Ew | intros _; exact Ew].
Qed.

(** X8.  The chain ticker of a command is read without regard to letter
    case: a command does exactly what the same command with its ticker
    in upper case does (same reply, same state, same requests). *)
Theorem ticker_case_is_ignored (st : State) (cmd : command) :
  handle cfg st (upper_command cmd) = handle cfg st cmd.
Proof.
  destruct cmd as [ctx now ans|ctx now ans]; cbn [upper_command handle].
  - unfold track, upper_ticker. cbn [from_id from_username args].
    destruct (args ctx) as [|arg0 [|arg1 rest]]; try reflexivity.
    now rewrite toUpperCase_idem.
  - unfold untrack, upper_ticker. cbn [from_id from_username args].
    destruct (args ctx) as [|arg0 [|arg1 rest]]; try reflexivity.
    now rewrite toUpperCase_idem.
Qed.

End BotProperties.

Section BotWitnesses.
Import TrackedWallet StoreSpec BotService Fixture.

Lemma refused_command_changes_nothing_witness :
  db (state (handle config (run config alice_tracks initial)
               (Untrack bob 3000 unavailable)))
  = db (run config alice_tracks initial) /\
  requests (handle config (run config alice_tracks initial)
              (Untrack bob 3000 unavailable)) = [].
Proof.
  apply (@refused_command_changes_nothing ethers config
           (run config alice_tracks initial) (Untrack bob 3000 unavailable)).
  reflexivity.
Defined.

Lemma track_then_untrack_restores_witness :
  message (untrack config
             (state (track config (run config alice_tracks initial)
                       bob 2000 unavailable))
             bob 3000 unavailable) = StoppedTracking /\
  map content
    (wallets (db (state (untrack config
                           (state (track config
                                     (run config alice_tracks initial)
                                     bob 2000 unavailable))
                           bob 3000 unavailable))))
  = map content (wallets (db (run config alice_tracks initial))).
Proof.
  destruct (@track_then_untrack_restores ethers config alice_tracks bob
              2000 3000 unavailable unavailable) as (Em & Ec & _).
  - right. reflexivity.
  - discriminate.
  - split; [exact Em | exact Ec].
Defined.

End BotWitnesses.

(* ================================================================== *)
(** * More on the dispatcher: who gets an alert, and who does not      *)
(* ================================================================== *)

Module DeliveryFacts.
Import Json WebhookService DispatchSpec StoreFacts.

Lemma send_all_In subs m u m' :
  In (u, m') (send_all subs m) -> In u subs /\ m' = m.
Proof.
  unfold send_all. rewrite in_map_iff. intros (x & E & Hx).
  inversion E; subst. auto.
Qed.

Lemma formatTokenTransaction_alert item c a m :
  formatTokenTransaction item c a = Normal m -> m = TokenAlert item c a.
Proof.
  unfold formatTokenTransaction.
  repeat match goal with
         | |- context [bind ?x _] =>
             destruct x; cbn [bind]; try discriminate
         end.
  intros E. now inversion E.
Qed.

Lemma formatNativeTransaction_alert tx c a m :
  formatNativeTransaction tx c a = Normal m -> m = NativeAlert tx c a.
Proof.
  unfold formatNativeTransaction.
  repeat match goal with
         | |- context [bind ?x _] =>
             destruct x; cbn [bind]; try discriminate
         end.
  intros E. now inversion E.
Qed.

Lemma about_refl_token item c a : about c a (TokenAlert item c a) = true.
Proof. cbn [about]. now rewrite !String.eqb_refl. Qed.

Lemma about_refl_native tx c a : about c a (NativeAlert tx c a) = true.
Proof. cbn [about]. now rewrite !String.eqb_refl. Qed.

Lemma send_tokens_In items c a subs :
  forall ds fin u m,
    send_tokens items c a subs = (ds, fin) -> In (u, m) ds ->
    In u subs /\ about c a m = true.
Proof.
  induction items as [|item items IH]; intros ds fin u m; cbn [send_tokens].
  - intros E. inversion E; subst. intros [].
  - destruct (formatTokenTransaction item c a) as [msg|e] eqn:Fm.
    + destruct (send_tokens items c a subs) as [ds' fin'].
      intros E. inversion E; subst. rewrite in_app_iff.
      intros [Hin|Hin].
      * apply send_all_In in Hin. destruct Hin as [Hu ->].
        rewrite (formatTokenTransaction_alert _ _ _ _ Fm).
        split; [exact Hu | apply about_refl_token].
      * exact (IH ds' fin u m eq_refl Hin).
    + intros E. inversion E; subst. intros [].
Qed.

Lemma notify_In wallets what tx c addresses :
  forall r u m,
    notify wallets what tx c addresses = Some r -> In (u, m) (fst r) ->
    exists a w,
      In a addresses /\ TrackedWallet.findOne wallets a c = Some w /\
      In u (TrackedWallet.trackingUserIds w) /\ about c a m = true.
Proof.
  induction addresses as [|x addresses IH]; intros r u m; cbn [notify].
  - intros E. inversion E; subst. intros [].
  - assert (Hrest : forall r',
               notify wallets what tx c addresses = Some r' ->
               In (u, m) (fst r') ->
               exists a w,
                 In a (x :: addresses) /\
                 TrackedWallet.findOne wallets a c = Some w /\
                 In u (TrackedWallet.trackingUserIds w) /\
                 about c a m = true).
    { intros r' E' Hin. destruct (IH r' u m E' Hin) as (a & w & Ha & Hr).
      exists a, w. split; [now right | exact Hr]. }
    destruct (TrackedWallet.findOne wallets x c) as [w|] eqn:F;
      [|apply Hrest].
    destruct (TrackedWallet.trackingUserIds w) as [|s subs] eqn:Es;
      [apply Hrest|].
    cbv iota. rewrite <- Es. clear Es.
    destruct what as [|items| |].
    + destruct (formatNativeTransaction tx c x) as [msg|e] eqn:Fn;
        [|intros [= <-]; intros []].
      destruct (notify wallets NoTransfers tx c addresses) as [r'|];
        [|discriminate].
      cbn [option_map]. intros [= <-]. cbn [fst].
      rewrite in_app_iff. intros [Hin|Hin].
      * apply send_all_In in Hin. destruct Hin as [Hu ->].
        rewrite (formatNativeTransaction_alert _ _ _ _ Fn).
        exists x, w.
        split; [now left|]. split; [exact F|]. split; [exact Hu|].
        apply about_refl_native.
      * exact (Hrest r' eq_refl Hin).
    + destruct (send_tokens items c x (TrackedWallet.trackingUserIds w))
        as [ds fin] eqn:St.
      destruct fin.
      * destruct (notify wallets (Transfers items) tx c addresses)
          as [r'|]; [|discriminate].
        cbn [option_map]. intros [= <-]. cbn [fst].
        rewrite in_app_iff. intros [Hin|Hin].
        -- destruct (send_tokens_In _ _ _ _ _ _ _ _ St Hin) as [Hu Hab].
           exists x, w. split; [now left|]. split; [exact F|]. split; [exact Hu | exact Hab].
        -- exact (Hrest r' eq_refl Hin).
      * intros [= <-]. cbn [fst]. intros Hin.
        destruct (send_tokens_In _ _ _ _ _ _ _ _ St Hin) as [Hu Hab].
        exists x, w. split; [now left|]. split; [exact F|]. split; [exact Hu | exact Hab].
    + intros E. inversion E; subst. intros [].
    + discriminate.
Qed.

Lemma truthy_list_In (s a : string) :
  In a (if JsString.truthy s then [s] else []) -> a = s.
Proof. destruct (JsString.truthy s); [intros [<-|[]]; reflexivity | intros []]. Qed.

(** Every delivery of [processTransaction] is about a stored wallet
    on the chain of the event, at the sender or the recipient, and
    goes to one of its subscribers. *)
Lemma processTransaction_In wallets tx wd ds u m :
  processTransaction wallets tx wd = Some ds -> In (u, m) ds ->
  exists w,
    In w wallets /\ In u (TrackedWallet.trackingUserIds w) /\
    about (TrackedWallet.chainTicker w) (TrackedWallet.address w) m = true /\
    chain_of wd = Normal (Some (TrackedWallet.chainTicker w)) /\
    (sender tx = Normal (TrackedWallet.address w) \/
     recipient tx = Normal (TrackedWallet.address w)).
Proof.
  unfold processTransaction, chain_of, sender, recipient.
  destruct (prop wd "chainId") as [chainId|];
    [|intros E; inversion E; subst; intros []].
  cbn [bind].
  destruct (ticker_of Config.CHAIN_CONFIG (or_empty chainId)) as [c|] eqn:Tc;
    [|intros E; inversion E; subst; intros []].
  destruct (JsString.truthy c); cbn [negb];
    [|intros E; inversion E; subst; intros []].
  destruct (prop tx "fromAddress") as [from|];
    [|intros E; inversion E; subst; intros []].
  cbn [bind].
  destruct (lower_or_empty from) as [f|];
    [|intros E; inversion E; subst; intros []].
  cbn [bind].
  destruct (prop tx "toAddress") as [to|];
    [|intros E; inversion E; subst; intros []].
  cbn [bind].
  destruct (lower_or_empty to) as [t|];
    [|intros E; inversion E; subst; intros []].
  cbn [bind].
  destruct (erc20Transfers wd) as [what|];
    [|intros E; inversion E; subst; intros []].
  cbn [bind].
  destruct (notify wallets what tx c
              ((if JsString.truthy f then [f] else [])
               ++ (if JsString.truthy t then [t] else []))%list)
    as [r|] eqn:N; [|discriminate].
  cbn [option_map]. intros E. inversion E; subst. intros Hin.
  destruct (notify_In _ _ _ _ _ _ _ _ N Hin) as (a & w & Ha & F & Hu & Hab).
  apply findOne_Some in F. destruct F as [Hw Hk].
  destruct (key_fields _ _ _ Hk) as [Ea Ec].
  exists w. rewrite Ea, Ec. repeat split; try assumption.
  apply in_app_or in Ha. destruct Ha as [Ha|Ha];
    apply truthy_list_In in Ha; subst a; [now left | now right].
Qed.

Lemma process_all_In wallets items wd :
  forall ds d,
    process_all wallets items wd = Some ds -> In d ds ->
    exists tx ds',
      In tx items /\ processTransaction wallets tx wd = Some ds' /\
      In d ds'.
Proof.
  induction items as [|tx items IH]; intros ds d; cbn [process_all].
  - intros E. inversion E; subst. intros [].
  - destruct (processTransaction wallets tx wd) as [ds1|] eqn:P;
      [|discriminate].
    destruct (process_all wallets items wd) as [ds2|]; [|discriminate].
    intros E. inversion E; subst. rewrite in_app_iff. intros [Hin|Hin].
    + exists tx, ds1. split; [now left|]. split; [exact P | exact Hin].
    + destruct (IH ds2 d eq_refl Hin) as (tx' & ds' & Ht & Hp & Hd).
      exists tx', ds'. split; [now right|]. split; [exact Hp | exact Hd].
Qed.

(** A request that delivers something was signed and had
    transactions. *)
Lemma post_webhook_delivers cfg wallets signature wd ds d :
  deliveries (post_webhook cfg wallets signature wd) = Some ds ->
  In d ds ->
  exists s items,
    signature = Some s /\ verifyWebhookSignature cfg wd s = true /\
    txs_of wd = Normal (Txs items) /\
    process_all wallets items wd = Some ds.
Proof.
  unfold post_webhook.
  destruct signature as [s|];
    [|cbn [reply deliveries]; intros E; inversion E; subst; intros []].
  destruct (JsString.truthy s); cbn [negb];
    [|cbn [reply deliveries]; intros E; inversion E; subst; intros []].
  destruct (verifyWebhookSignature cfg wd s) eqn:V; cbn [negb];
    [|cbn [reply deliveries]; intros E; inversion E; subst; intros []].
  destruct (prop wd "tag") as [tag|]; cbn [bind];
    [|cbn [reply deliveries]; intros E; inversion E; subst; intros []].
  destruct (interpolate tag) as [[]|]; cbn [bind];
    [|cbn [reply deliveries]; intros E; inversion E; subst; intros []].
  destruct (txs_of wd) as [[|items|]|];
    try (cbn [reply deliveries]; intros E; inversion E; subst; intros []).
  cbn [deliveries]. intros E _. exists s, items.
  split; [reflexivity|]. split; [exact V|]. split; [reflexivity|].
  exact E.
Qed.

End DeliveryFacts.

Module RoutingFacts.
Import Json WebhookService DispatchSpec StoreFacts DispatchFacts.

(** The provider's id of a configured chain is mapped back to the
    chain's ticker. *)
Lemma ticker_of_lookup (c : string) (cc : Config.ChainConfig) :
  Config.lookup Config.CHAIN_CONFIG c = Some cc ->
  ticker_of Config.CHAIN_CONFIG
    (or_empty (Some (JStr (Config.moralisChain cc)))) = Some c.
Proof.
  unfold Config.lookup, Config.CHAIN_CONFIG.
  repeat match goal with
         | |- context [String.eqb ?k c] =>
             destruct (String.eqb_spec k c) as [<-|_];
             [intros [= <-]; reflexivity|]
         end.
  discriminate.
Qed.

Lemma formats_false item c a :
  formats item = false -> exists e, formatTokenTransaction item c a = Throw e.
Proof.
  unfold formats, formatTokenTransaction.
  repeat match goal with
         | |- context [bind ?x _] =>
             destruct x; cbn [bind]; [|eauto]
         end.
  discriminate.
Qed.

Lemma formats_native_false tx c a :
  formats_native tx = false ->
  exists e, formatNativeTransaction tx c a = Throw e.
Proof.
  unfold formats_native, formatNativeTransaction.
  repeat match goal with
         | |- context [bind ?x _] =>
             destruct x; cbn [bind]; [|eauto]
         end.
  discriminate.
Qed.

(** When the native alert cannot be written, the loop over the
    addresses sends nothing. *)
Lemma notify_unwritten wallets tx c (addresses : list string) :
  formats_native tx = false ->
  exists finished,
    notify wallets NoTransfers tx c addresses = Some ([], finished).
Proof.
  intros Hn. induction addresses as [|x addresses [finished IH]];
    [now exists true|].
  cbn [notify]. rewrite IH.
  destruct (TrackedWallet.findOne wallets x c) as [w|]; [|eauto].
  destruct (TrackedWallet.trackingUserIds w); [eauto|].
  destruct (formats_native_false tx c x Hn) as [e ->]. eauto.
Qed.

Lemma send_tokens_stops good bad rest c a subs :
  forallb formats good = true -> formats bad = false ->
  send_tokens (good ++ bad :: rest)%list c a subs =
  (flat_map (fun item => send_all subs (TokenAlert item c a)) good, false).
Proof.
  intros Hg Hb. induction good as [|item good IH]; cbn [send_tokens app].
  - destruct (formats_false bad c a Hb) as [e ->]. reflexivity.
  - cbn [forallb] in Hg. apply andb_true_iff in Hg. destruct Hg as [Hi Hg].
    rewrite (formats_Normal item c a Hi), (IH Hg). reflexivity.
Qed.

Lemma notify_native wallets tx c (addresses : list string) a w u :
  formats_native tx = true ->
  TrackedWallet.findOne wallets a c = Some w ->
  In u (TrackedWallet.trackingUserIds w) ->
  In a addresses ->
  exists ds,
    notify wallets NoTransfers tx c addresses = Some (ds, true) /\
    In (u, NativeAlert tx c a) ds.
Proof.
  intros Hn F Hu. induction addresses as [|x addresses IH]; [intros []|].
  assert (Hany : exists ds0,
             notify wallets NoTransfers tx c addresses = Some (ds0, true)).
  { clear - Hn. induction addresses as [|y l IH]; [now exists []|].
    destruct IH as [ds0 E]. cbn [notify]. rewrite E.
    destruct (TrackedWallet.findOne wallets y c) as [w'|]; [|eauto].
    destruct (TrackedWallet.trackingUserIds w'); [eauto|].
    rewrite (formats_native_Normal tx c y Hn).
    cbn [option_map fst snd]. eauto. }
  intros [->|Hin].
  - destruct Hany as [ds0 E]. cbn [notify]. rewrite E, F.
    destruct (TrackedWallet.trackingUserIds w) as [|s subs] eqn:Es;
      [destruct Hu|].
    rewrite (formats_native_Normal tx c a Hn).
    cbn [option_map fst snd]. eexists. split; [reflexivity|].
    apply in_or_app. left. unfold send_all. apply in_map_iff.
    exists u. split; [reflexivity | exact Hu].
  - destruct (IH Hin) as (ds & E & Hd). cbn [notify]. rewrite E.
    destruct (TrackedWallet.findOne wallets x c) as [w'|]; [|eauto].
    destruct (TrackedWallet.trackingUserIds w'); [eauto|].
    rewrite (formats_native_Normal tx c x Hn).
    cbn [option_map fst snd]. eexists. split; [reflexivity|].
    apply in_or_app. now right.
Qed.

End RoutingFacts.

Section DispatchProperties.
Import Json WebhookService DispatchSpec StoreFacts DispatchFacts
  DeliveryFacts RoutingFacts.

(** X9.  An alert is only ever sent for a request whose signature
    verified, and only to a subscriber of a stored wallet: every
    delivery of the webhook handler goes to a user in the
    [trackingUserIds] of a wallet on the chain of the event, whose
    address is the lower-case sender or recipient of one of the
    transactions of the event, and the alert is about that wallet. *)
Theorem alerts_only_to_subscribers (cfg : Config.t)
  (wallets : list TrackedWallet.t) (signature : option string)
  (webhookData : Json.t) (ds : list delivery) (u : Z) (m : alert) :
  deliveries (post_webhook cfg wallets signature webhookData) = Some ds ->
  In (u, m) ds ->
  (exists s, signature = Some s /\
             verifyWebhookSignature cfg webhookData s = true) /\
  exists w items tx,
    In w wallets /\ In u (TrackedWallet.trackingUserIds w) /\
    about (TrackedWallet.chainTicker w) (TrackedWallet.address w) m = true /\
    chain_of webhookData = Normal (Some (TrackedWallet.chainTicker w)) /\
    txs_of webhookData = Normal (Txs items) /\ In tx items /\
    (sender tx = Normal (TrackedWallet.address w) \/
     recipient tx = Normal (TrackedWallet.address w)).
Proof.
  intros Hd Hin.
  destruct (post_webhook_delivers _ _ _ _ _ _ Hd Hin)
    as (s & items & Es & V & Tx & Pa).
  split; [exists s; auto|].
  destruct (process_all_In _ _ _ _ _ Pa Hin) as (tx & ds' & Ht & Pt & Hin').
  destruct (processTransaction_In _ _ _ _ _ _ Pt Hin')
    as (w & Hw & Hu & Hab & Hc & Hsr).
  exists w, items, tx. auto 10.
Qed.

(** X10.  A token transfer that [formatTokenTransaction] throws on (a
    [null] transfer, a [from] or [to] that is not a string, a name,
    symbol, hash, address or decimals that does not convert to a string)
    ends the processing of the transaction: the subscribers of the
    sender's wallet have received the alerts of the transfers before it,
    which all format, and nothing else is sent, neither for the later
    transfers nor to the subscribers of the recipient's wallet. *)
Theorem failing_transfer_stops_alerts (wallets : list TrackedWallet.t)
  (txData webhookData : Json.t) (c f t : string) (w : TrackedWallet.t)
  (good : list Json.t) (bad : Json.t) (rest : list Json.t) :
  chain_of webhookData = Normal (Some c) ->
  sender txData = Normal f ->
  recipient txData = Normal t ->
  f <> EmptyString ->
  erc20Transfers webhookData = Normal (Transfers (good ++ bad :: rest)) ->
  forallb formats good = true ->
  formats bad = false ->
  TrackedWallet.findOne wallets f c = Some w ->
  TrackedWallet.trackingUserIds w <> [] ->
  processTransaction wallets txData webhookData =
  Some (flat_map
          (fun item =>
             send_all (TrackedWallet.trackingUserIds w) (TokenAlert item c f))
          good).
Proof.
  intros Hc Hf Ht Hne Hw Hg Hb Fw Hs.
  unfold processTransaction.
  unfold chain_of in Hc. unfold sender in Hf. unfold recipient in Ht.
  destruct (prop webhookData "chainId") as [chainId|]; [|discriminate].
  cbn [bind] in Hc |- *.
  assert (Hc' : ticker_of Config.CHAIN_CONFIG (or_empty chainId) = Some c)
    by congruence.
  rewrite Hc', (ticker_truthy _ _ Hc'). cbn [negb].
  destruct (prop txData "fromAddress") as [from|]; [|discriminate].
  cbn [bind] in Hf |- *. rewrite Hf. cbn [bind].
  destruct (prop txData "toAddress") as [to|]; [|discriminate].
  cbn [bind] in Ht |- *. rewrite Ht. cbn [bind]. rewrite Hw. cbn [bind].
  assert (Tf : JsString.truthy f = true).
  { unfold JsString.truthy. now destruct (String.eqb_spec f EmptyString). }
  rewrite Tf. cbn [app notify]. rewrite Fw.
  destruct (TrackedWallet.trackingUserIds w) as [|s subs] eqn:Es;
    [contradiction|].
  rewrite (send_tokens_stops good bad rest c f (s :: subs) Hg Hb).
  reflexivity.
Qed.

(** X24.  A native transaction whose alert cannot be written delivers
    nothing: when [formatNativeTransaction] throws on the transaction
    (its [hash] does not convert to a string, for one) and the event
    carries no token transfer, [processTransaction] sends no alert to
    anybody, whoever tracks the sender or the recipient. *)
Theorem unwritten_native_alert_sends_nothing (wallets : list TrackedWallet.t)
  (txData webhookData : Json.t) :
  formats_native txData = false ->
  erc20Transfers webhookData = Normal NoTransfers ->
  processTransaction wallets txData webhookData = Some [].
Proof.
  intros Hn Hw. unfold processTransaction.
  destruct (prop webhookData "chainId") as [chainId|]; [|reflexivity].
  cbn [bind].
  destruct (ticker_of Config.CHAIN_CONFIG (or_empty chainId)) as [c|];
    [|reflexivity].
  destruct (JsString.truthy c); cbn [negb]; [|reflexivity].
  destruct (prop txData "fromAddress") as [from|]; [|reflexivity].
  cbn [bind].
  destruct (lower_or_empty from) as [f|]; [|reflexivity]. cbn [bind].
  destruct (prop txData "toAddress") as [to|]; [|reflexivity]. cbn [bind].
  destruct (lower_or_empty to) as [t|]; [|reflexivity]. cbn [bind].
  rewrite Hw. cbn [bind].
  destruct (notify_unwritten wallets txData c
              ((if JsString.truthy f then [f] else [])
               ++ (if JsString.truthy t then [t] else []))%list Hn)
    as [finished ->].
  reflexivity.
Qed.

End DispatchProperties.

Section EndToEnd.
Import JsString Json TrackedWallet SubscriptionSpec BotService
  WebhookService DispatchSpec.
Import StoreFacts BotFacts HandlerFacts DispatchFacts RoutingFacts.
Context `{Ethers} (cfg : Config.t).

(** X11.  From the command to the alert: after a [/track] that left the
    user subscribed, a native transaction that
    [formatNativeTransaction] formats (its [hash] converts to a string),
    of an event of that chain (its [chainId] the one [CHAIN_CONFIG] has
    for the ticker), whose sender or recipient is the address, in any
    letter case, is alerted to the user. *)
Theorem tracked_wallet_is_alerted (cs : list command) (ctx : Context)
  (now : Z) (ans : MoralisService.http_outcome) (arg0 arg1 : string)
  (rest : list string) (n : string) (cc : Config.ChainConfig)
  (txData webhookData : Json.t) (f t : string) :
  let r := track cfg (run cfg cs initial) ctx now ans in
  subscribed (message r) = true ->
  args ctx = arg0 :: arg1 :: rest ->
  Validators.validateAddress arg1 (toUpperCase arg0) = Validators.Valid n ->
  Config.lookup Config.CHAIN_CONFIG (toUpperCase arg0) = Some cc ->
  prop webhookData "chainId" = Normal (Some (JStr (Config.moralisChain cc))) ->
  erc20Transfers webhookData = Normal NoTransfers ->
  formats_native txData = true ->
  sender txData = Normal f ->
  recipient txData = Normal t ->
  toLowerCase n <> EmptyString ->
  f = toLowerCase n \/ t = toLowerCase n ->
  exists ds,
    processTransaction (wallets (db (state r))) txData webhookData = Some ds /\
    In (from_id ctx, NativeAlert txData (toUpperCase arg0) (toLowerCase n)) ds.
Proof.
  intros r Hsub Ha V Hcc Hid Hw Hfmt Hf Ht Hne Hft.
  pose proof (reachable_Inv cfg cs) as HI.
  assert (Hstore : exists w,
             findOne (wallets (db (state r))) (toLowerCase n)
               (toUpperCase arg0) = Some w /\
             In (from_id ctx) (trackingUserIds w)).
  { destruct (track_cases cfg (run cfg cs initial) ctx now ans)
      as [(Hr & _)|(counts & b0 & b1 & rest' & n' & _ & Hb & _ & _ & V' & Et)].
    - fold r in Hr. exfalso. destruct (message r); discriminate.
    - rewrite Ha in Hb. inversion Hb; subst b0 b1 rest'.
      rewrite V in V'. inversion V'; subst n'.
      fold r in Et.
      assert (Hm : message r <> StreamFailed).
      { intros E. rewrite E in Hsub. discriminate. }
      rewrite Et in Hm |- *.
      destruct (subscribe_holds cfg (with_counts (run cfg cs initial) counts)
                  (from_id ctx) (from_username ctx) (toUpperCase arg0) n
                  (if JsString.truthy (join_space rest)
                   then Some (join_space rest) else None) ans HI Hm)
        as (w & Fw & Hu & _).
      exists w. auto. }
  destruct Hstore as (w & Fw & Hu).
  unfold processTransaction.
  unfold sender in Hf. unfold recipient in Ht.
  rewrite Hid. cbn [bind].
  rewrite (ticker_of_lookup _ _ Hcc).
  rewrite (ticker_truthy _ _ (ticker_of_lookup _ _ Hcc)). cbn [negb].
  destruct (prop txData "fromAddress") as [from|]; [|discriminate].
  cbn [bind] in Hf |- *. rewrite Hf. cbn [bind].
  destruct (prop txData "toAddress") as [to|]; [|discriminate].
  cbn [bind] in Ht |- *. rewrite Ht. cbn [bind]. rewrite Hw. cbn [bind].
  assert (Hin : In (toLowerCase n)
                  ((if JsString.truthy f then [f] else [])
                   ++ (if JsString.truthy t then [t] else []))%list).
  { assert (Tn : JsString.truthy (toLowerCase n) = true).
    { unfold JsString.truthy.
      now destruct (String.eqb_spec (toLowerCase n) EmptyString). }
    apply in_or_app. destruct Hft as [->| ->]; rewrite Tn;
      [left | right]; now left. }
  destruct (notify_native (wallets (db (state r))) txData (toUpperCase arg0)
              _ (toLowerCase n) w (from_id ctx) Hfmt Fw Hu Hin)
    as (ds & E & Hd).
  rewrite E. exists ds. split; [reflexivity | exact Hd].
Qed.

(** X12.  The chain id [createStream] registers for an EVM chain is the
    one the dispatcher maps back to the same ticker: the events of a
    stream are looked up among the wallets of the chain the stream was
    created for. *)
Theorem stream_chain_maps_back (chainTicker chainId : string)
  (webhookData : Json.t) :
  StreamConfig.chains chainTicker = Some [chainId] ->
  prop webhookData "chainId" = Normal (Some (JStr chainId)) ->
  chain_of webhookData = Normal (Some (toUpperCase chainTicker)).
Proof.
  unfold StreamConfig.chains, chain_of.
  destruct (Config.lookup Config.CHAIN_CONFIG (toUpperCase chainTicker))
    as [cc|] eqn:L; [|discriminate].
  destruct (String.eqb (toUpperCase chainTicker) "SOL"); [discriminate|].
  intros [= <-] ->. cbn [bind]. now rewrite (ticker_of_lookup _ _ L).
Qed.

End EndToEnd.

Section DispatchMoreWitnesses.
Import Json TrackedWallet BotService WebhookService DispatchSpec Fixture.

Lemma alerts_only_to_subscribers_witness :
  exists w,
    In w [wallet_alice] /\ In 1001 (trackingUserIds w) /\
    about (chainTicker w) (address w)
      (NativeAlert self_transfer "ETH" address_lower) = true.
Proof.
  destruct (alerts_only_to_subscribers config [wallet_alice]
              (Some (Crypto.createHmac_sha256_hex
                       (Config.webhookSecret config)
                       (stringify self_transfer_event)))
              self_transfer_event
              [(1001, NativeAlert self_transfer "ETH" address_lower);
               (1001, NativeAlert self_transfer "ETH" address_lower)]
              1001 (NativeAlert self_transfer "ETH" address_lower))
    as (_ & w & items & tx & Hw & Hu & Hab & _).
  - vm_compute. reflexivity.
  - left. reflexivity.
  - exists w. auto.
Defined.

Lemma failing_transfer_stops_alerts_witness :
  processTransaction [wallet_both] self_transfer
    (JObj [("chainId", JStr "0x1");
           ("erc20Transfers",
            JArr [JObj [("from", JStr address_lower)]; JNull; JObj []])])
  = Some [(1001, TokenAlert (JObj [("from", JStr address_lower)]) "ETH"
                   address_lower);
          (1002, TokenAlert (JObj [("from", JStr address_lower)]) "ETH"
                   address_lower)].
Proof.
  apply (failing_transfer_stops_alerts [wallet_both] self_transfer
           (JObj [("chainId", JStr "0x1");
                  ("erc20Transfers",
                   JArr [JObj [("from", JStr address_lower)]; JNull;
                         JObj []])])
           "ETH" address_lower address_lower wallet_both
           [JObj [("from", JStr address_lower)]] JNull [JObj []]);
    try reflexivity; discriminate.
Defined.

Lemma unwritten_native_alert_sends_nothing_witness :
  processTransaction [wallet_both]
    (JObj [("hash", JObj [("toString", JNum 1)]);
           ("fromAddress", JStr address_checksum);
           ("toAddress", JStr address_lower)])
    self_transfer_event = Some [].
Proof.
  apply (unwritten_native_alert_sends_nothing [wallet_both]
           (JObj [("hash", JObj [("toString", JNum 1)]);
                  ("fromAddress", JStr address_checksum);
                  ("toAddress", JStr address_lower)])
           self_transfer_event); reflexivity.
Defined.

Lemma tracked_wallet_is_alerted_witness :
  exists ds,
    processTransaction
      (wallets (db (state (track config (run config alice_tracks initial)
                             bob 2000 unavailable))))
      self_transfer self_transfer_event = Some ds /\
    In (1002, NativeAlert self_transfer "ETH" address_lower) ds.
Proof.
  apply (@tracked_wallet_is_alerted ethers config alice_tracks bob 2000
           unavailable "ETH" address_upper [] address_checksum
           {| Config.name := "Ethereum"; Config.moralisChain := "0x1";
              Config.explorer := "https://etherscan.io";
              Config.nativeSymbol := "ETH"; Config.decimals := 18;
              Config.icon := "⟠" |}
           self_transfer self_transfer_event address_lower address_lower);
    try reflexivity.
  - discriminate.
  - now left.
Defined.

Lemma stream_chain_maps_back_witness :
  chain_of self_transfer_event = Normal (Some "ETH").
Proof.
  apply (stream_chain_maps_back "eth" "0x1" self_transfer_event);
    reflexivity.
Defined.

End DispatchMoreWitnesses.

(* ================================================================== *)
(** * The shape of a signature that verifies                           *)
(* ================================================================== *)

Module DigestFacts.
Import Crypto SignatureSpec.

Lemma length_round st k w : List.length (round st k w) = List.length st.
Proof.
  unfold round.
  destruct st as [|a [|b [|c [|d [|e [|f [|g [|h [|i st]]]]]]]]];
    reflexivity.
Qed.

Lemma length_rounds ks :
  forall window st, List.length (rounds ks window st) = List.length st.
Proof.
  induction ks as [|k ks IH]; intros window st; cbn [rounds];
    [reflexivity|].
  cbv zeta. now rewrite IH, length_round.
Qed.

Lemma length_compress h block :
  List.length (compress h block) = List.length h.
Proof.
  unfold compress. rewrite length_map, length_combine, length_rounds.
  apply Nat.min_id.
Qed.

Lemma length_fold_compress bl :
  forall h, List.length (fold_left compress bl h) = List.length h.
Proof.
  induction bl as [|b bl IH]; intros h; cbn [fold_left]; [reflexivity|].
  now rewrite IH, length_compress.
Qed.

Lemma length_be_bytes n x : List.length (be_bytes n x) = n.
Proof.
  revert x. induction n as [|n IH]; intros x; cbn [be_bytes];
    [reflexivity|].
  rewrite length_app, IH. simpl. lia.
Qed.

Lemma be_bytes_range n x :
  Forall (fun b => 0 <= b < 256) (be_bytes n x).
Proof.
  revert x. induction n as [|n IH]; intros x; cbn [be_bytes];
    [constructor|].
  apply Forall_app. split; [apply IH|]. constructor; [|constructor].
  change 255 with (Z.ones 8). rewrite Z.land_ones by lia.
  change (2 ^ 8) with 256. apply Z.mod_pos_bound. lia.
Qed.

Lemma length_flat_be_bytes (h : list Z) :
  List.length (flat_map (be_bytes 4) h) = (4 * List.length h)%nat.
Proof.
  induction h as [|x h IH]; cbn [flat_map]; [reflexivity|].
  rewrite length_app, length_be_bytes, IH. simpl. lia.
Qed.

Lemma flat_be_bytes_range (h : list Z) :
  Forall (fun b => 0 <= b < 256) (flat_map (be_bytes 4) h).
Proof.
  induction h as [|x h IH]; cbn [flat_map]; [constructor|].
  apply Forall_app. split; [apply be_bytes_range | exact IH].
Qed.

(** A SHA-256 digest is 32 bytes. *)
Lemma sha256_shape (msg : list Z) :
  List.length (sha256 msg) = 32%nat /\
  Forall (fun b => 0 <= b < 256) (sha256 msg).
Proof.
  unfold sha256. cbv zeta. split.
  - rewrite length_flat_be_bytes, length_fold_compress. reflexivity.
  - apply flat_be_bytes_range.
Qed.

Lemma hex_digit_lower (d : Z) :
  0 <= d < 16 -> is_hex_lower (hex_digit d) = true.
Proof.
  intros Hd.
  assert (E : d = Z.of_nat (Z.to_nat d)) by lia.
  assert (Hk : (Z.to_nat d < 16)%nat) by lia.
  rewrite E. generalize dependent (Z.to_nat d). intros k _ Hk.
  do 16 (destruct k as [|k]; [reflexivity|]). lia.
Qed.

Lemma hex_shape (bs : list Z) :
  Forall (fun b => 0 <= b < 256) bs ->
  String.length (hex bs) = (2 * List.length bs)%nat /\
  Validators.all_chars is_hex_lower (hex bs) = true.
Proof.
  induction 1 as [|b bs Hb Hbs [IHl IHc]]; cbn [hex]; [split; reflexivity|].
  cbn [String.length Validators.all_chars List.length].
  rewrite IHl, IHc. split; [lia|].
  rewrite !hex_digit_lower; [reflexivity | |].
  - apply Z.mod_pos_bound. lia.
  - split; [apply Z.div_pos; lia | apply Z.div_lt_upper_bound; lia].
Qed.

Lemma createHmac_shape (key data : string) :
  String.length (createHmac_sha256_hex key data) = 64%nat /\
  Validators.all_chars is_hex_lower (createHmac_sha256_hex key data) = true.
Proof.
  unfold createHmac_sha256_hex, hmac_sha256. cbv zeta.
  match goal with
  | |- context [hex (sha256 ?m)] =>
      destruct (sha256_shape m) as [Hl Hr];
      destruct (hex_shape (sha256 m) Hr) as [Hhl Hhc]
  end.
  rewrite Hhl, Hl. split; [reflexivity | exact Hhc].
Qed.

End DigestFacts.

Section SignatureProperties.
Import WebhookService SignatureSpec DigestFacts.

(** X13.  A signature that [verifyWebhookSignature] accepts is the
    digest as Node prints it: exactly 64 characters, each a digit or a
    letter from [a] to [f] in lower case.  The same digest written in
    upper case, or with anything before or after it, is rejected. *)
Theorem accepted_signature_shape (cfg : Config.t) (body : Json.t)
  (signature : string) :
  verifyWebhookSignature cfg body signature = true ->
  String.length signature = 64%nat /\
  Validators.all_chars is_hex_lower signature = true.
Proof.
  intros V. apply DispatchFacts.verify_iff in V. subst signature.
  apply createHmac_shape.
Qed.

Lemma accepted_signature_shape_witness :
  String.length
    (Crypto.createHmac_sha256_hex (Config.webhookSecret Fixture.config)
       (Json.stringify Fixture.spaced_body_parsed)) = 64%nat /\
  Validators.all_chars is_hex_lower
    (Crypto.createHmac_sha256_hex (Config.webhookSecret Fixture.config)
       (Json.stringify Fixture.spaced_body_parsed)) = true.
Proof.
  apply (accepted_signature_shape Fixture.config Fixture.spaced_body_parsed).
  vm_compute. reflexivity.
Defined.

End SignatureProperties.

(* ================================================================== *)
(** * Validators and amounts                                           *)
(* ================================================================== *)

Module ShortFormFacts.
Import JsString.

Lemma length_slice0 (n : nat) (s : string) :
  String.length (slice0 n s) = Nat.min n (String.length s).
Proof.
  revert s. induction n as [|n IH]; intros s; [reflexivity|].
  destruct s as [|c s]; [reflexivity|]. cbn [slice0 String.length].
  now rewrite IH.
Qed.

Lemma length_drop (n : nat) (s : string) :
  String.length (drop n s) = (String.length s - n)%nat.
Proof.
  revert s. induction n as [|n IH]; intros s; cbn [drop].
  - now rewrite Nat.sub_0_r.
  - destruct s as [|c s]; [reflexivity|]. cbn [String.length]. apply IH.
Qed.

End ShortFormFacts.

Section ValidatorProperties.
Import JsString Validators Formatters CaseFacts ChainFacts ShortFormFacts.
Context `{Ethers}.

(** X14.  The chains [validateAddress] knows are exactly the keys of
    [CHAIN_CONFIG]: for every address, the answer is the error
    [Unsupported chain: TICKER] if and only if the ticker, in upper
    case, is not a key of the table. *)
Theorem unsupported_chain_iff_not_configured (address chainTicker : string) :
  validateAddress address chainTicker
  = Invalid ("Unsupported chain: " ++ toUpperCase chainTicker)
  <-> Config.lookup Config.CHAIN_CONFIG (toUpperCase chainTicker) = None.
Proof.
  pose proof (known_chain (toUpperCase chainTicker)) as Hk.
  unfold validateAddress. cbv zeta.
  destruct (includes evm_chains (toUpperCase chainTicker)).
  - cbn [orb] in Hk. split.
    + destruct (validateEvmAddress address); discriminate.
    + intros E. exfalso. apply (proj1 Hk eq_refl E).
  - cbn [orb] in Hk.
    destruct (String.eqb (toUpperCase chainTicker) "SOL").
    + split.
      * destruct (validateSolanaAddress address); discriminate.
      * intros E. exfalso. apply (proj1 Hk eq_refl E).
    + split; [|reflexivity]. intros _.
      destruct (Config.lookup Config.CHAIN_CONFIG (toUpperCase chainTicker));
        [|reflexivity].
      exfalso. assert (false = true); [|discriminate].
      apply Hk. discriminate.
Qed.

(** X15.  The short form of an address never has more than 13
    characters and is never longer than the address: its length is the
    smaller of the length of the address and 13. *)
Theorem formatAddress_short_length (address : string) :
  String.length (formatAddress address true)
  = Nat.min (String.length address) 13.
Proof.
  unfold formatAddress, truthy.
  destruct (String.eqb_spec address EmptyString) as [->|_]; [reflexivity|].
  cbn [negb andb].
  destruct (Nat.ltb_spec 12 (String.length address)) as [Hl|Hl].
  - rewrite !length_append. unfold slice_last.
    rewrite length_slice0, length_drop. cbn [String.length]. lia.
  - lia.
Qed.

End ValidatorProperties.

Section AmountProperties.
Import JsBigInt AmountSpec Formatters.

(** X16.  An amount below one unit of the eighth decimal place is
    shown as ["0"]: for decimals from 8 to 22 and a value that [BigInt]
    reads as an integer from 0 to [10 ^ (decimals - 8) - 1],
    [formatValue] returns ["0"]. *)
Theorem formatValue_dust_shows_zero (value : string) (decimals v : Z) :
  of_string value = Normal v ->
  8 <= decimals <= 22 ->
  0 <= v < 10 ^ (decimals - 8) ->
  formatValue value (Int decimals) = Normal "0".
Proof.
  intros Hs Hd Hv.
  rewrite (formatValue_render value decimals v Hs) by lia.
  f_equal. unfold truncated8, render. cbv zeta.
  assert (Hp8 : 0 < 10 ^ (decimals - 8)) by (apply Z.pow_pos_nonneg; lia).
  assert (Hsplit : 10 ^ decimals = 10 ^ (decimals - 8) * 10 ^ 8).
  { rewrite <- Z.pow_add_r by lia. f_equal. lia. }
  assert (Hlt : v < 10 ^ decimals) by (rewrite Hsplit; nia).
  rewrite Z2Nat.id by lia.
  rewrite (Z.div_small v), (Z.mod_small v) by lia.
  replace (Nat.min (Z.to_nat decimals) 8) with 8%nat by lia.
  replace (Z.of_nat (Z.to_nat decimals - 8)) with (decimals - 8) by lia.
  rewrite (Z.div_small v) by lia.
  reflexivity.
Qed.

Lemma formatValue_dust_shows_zero_witness :
  formatValue "9999999999" (Int 18) = Normal "0".
Proof.
  apply (formatValue_dust_shows_zero "9999999999" 18 9999999999);
    [reflexivity | lia | lia].
Defined.

End AmountProperties.

(* ================================================================== *)
(** * Alerts, lists and statistics                                     *)
(* ================================================================== *)

Module AlertFacts.
Import JsString Json Alerts CaseFacts.

Lemma lower_or_empty_lower (v : option Json.t) (s : string) :
  lower_or_empty v = Normal s -> toLowerCase s = s.
Proof.
  unfold lower_or_empty. destruct (truthy v).
  - destruct v as [[| | |x| |]|]; try discriminate.
    intros [= <-]. apply toLowerCase_idem.
  - intros [= <-]. reflexivity.
Qed.

(** The decimals of a chain are those of its entry: 18, or 9. *)
Lemma decimals_of_cases (c : string) :
  decimals_of c = 18 \/ decimals_of c = 9.
Proof.
  unfold decimals_of, Config.lookup, Config.CHAIN_CONFIG.
  repeat match goal with
         | |- context [String.eqb ?k c] =>
             destruct (String.eqb k c); [cbn; tauto|]
         end.
  now left.
Qed.

End AlertFacts.

Section AlertProperties.
Import JsString Json WebhookService DispatchSpec Alerts AlertFacts.

(** X17.  The direction an alert of a native transaction shows, for a
    transaction [formatNativeTransaction] formats (its sender and
    recipient are strings or absent, its [hash] converts to a string):
    the alert about the recipient's wallet says [Received]; the alert
    about the sender's wallet says [Sent], unless the transaction goes
    from the wallet to itself, when it says [Received] too. *)
Theorem native_alert_direction (txData : Json.t) (chainTicker f t : string) :
  formats_native txData = true ->
  sender txData = Normal f ->
  recipient txData = Normal t ->
  exists about_recipient about_sender,
    native_lines txData chainTicker t = Normal about_recipient /\
    directionText about_recipient = "Received" /\
    native_lines txData chainTicker f = Normal about_sender /\
    directionText about_sender = (if String.eqb f t then "Received" else "Sent").
Proof.
  unfold formats_native, formatNativeTransaction, sender, recipient,
    native_lines.
  intros Hn Hf Ht.
  assert (G : forall (hash from to : option Json.t),
             interpolate hash = Normal tt ->
             lower_or_empty from = Normal f ->
             lower_or_empty to = Normal t ->
             forall (gasPrice gasUsed : option Json.t) (a : string),
               (fromAddr <- lower_or_empty from ;;
                toAddr <- lower_or_empty to ;;
                _ <- interpolate hash ;;
                Normal
                  {| directionEmoji :=
                       getTransactionEmoji (String.eqb toAddr (toLowerCase a));
                     directionText :=
                       if String.eqb toAddr (toLowerCase a)
                       then "Received" else "Sent";
                     shownFrom := Formatters.formatAddress fromAddr true;
                     shownTo := Formatters.formatAddress toAddr true;
                     shownGasFee :=
                       gasFeeStr (or_default gasPrice (JStr "0"))
                         (or_default gasUsed (JStr "0"))
                         (JsBigInt.Int (decimals_of chainTicker)) |})%js
               = Normal
                   {| directionEmoji :=
                        getTransactionEmoji (String.eqb t (toLowerCase a));
                      directionText :=
                        if String.eqb t (toLowerCase a)
                        then "Received" else "Sent";
                      shownFrom := Formatters.formatAddress f true;
                      shownTo := Formatters.formatAddress t true;
                      shownGasFee :=
                        gasFeeStr (or_default gasPrice (JStr "0"))
                          (or_default gasUsed (JStr "0"))
                          (JsBigInt.Int (decimals_of chainTicker)) |}).
  { intros hash from to Eh Ef Et gasPrice gasUsed a. rewrite Ef. cbn [bind].
    rewrite Et. cbn [bind]. rewrite Eh. reflexivity. }
  assert (P : forall (tx : Json.t) (hash from to : option Json.t),
             lower_or_empty from = Normal f ->
             lower_or_empty to = Normal t ->
             match
               (_ <- lower_or_empty from ;; _ <- lower_or_empty to ;;
                _ <- interpolate hash ;;
                Normal (NativeAlert tx EmptyString EmptyString))%js
             with
             | Normal _ => true
             | Throw _ => false
             end = true ->
             interpolate hash = Normal tt).
  { intros tx hash from to Ef Et. rewrite Ef. cbn [bind]. rewrite Et.
    cbn [bind]. destruct (interpolate hash) as [[]|];
      [reflexivity | discriminate]. }
  destruct txData as [|b|n|s|items|fields];
    cbn [prop bind] in Hn, Hf, Ht |- *;
    try discriminate;
    apply (P _ _ _ _ Hf Ht) in Hn;
    pose proof (lower_or_empty_lower _ _ Hf) as Lf;
    pose proof (lower_or_empty_lower _ _ Ht) as Lt;
    rewrite !(G _ _ _ Hn Hf Ht), Lf, Lt, String.eqb_refl, (String.eqb_sym t f);
    eexists; eexists;
    (split; [reflexivity|]); (split; [reflexivity|]);
    (split; [reflexivity|]); reflexivity.
Qed.

(** X18.  The gas fee of an alert is counted in whole coins: for a gas
    price and a gas amount that [BigInt] reads, the fee shown is the
    product divided by ten to the decimals of the chain, rounded toward
    zero; any fee below one coin is shown as ["0"]. *)
Theorem gas_fee_in_whole_coins (chainTicker gasPrice gasUsed : string)
  (p g : Z) :
  JsBigInt.of_string gasPrice = Normal p ->
  JsBigInt.of_string gasUsed = Normal g ->
  gasFeeStr (JStr gasPrice) (JStr gasUsed)
    (JsBigInt.Int (decimals_of chainTicker))
  = Some (JsBigInt.toString (Z.quot (p * g) (10 ^ decimals_of chainTicker)))
  /\ (0 <= p * g < 10 ^ decimals_of chainTicker ->
      gasFeeStr (JStr gasPrice) (JStr gasUsed)
        (JsBigInt.Int (decimals_of chainTicker)) = Some "0").
Proof.
  intros Hp Hg.
  assert (E : gasFeeStr (JStr gasPrice) (JStr gasUsed)
                (JsBigInt.Int (decimals_of chainTicker))
              = Some (JsBigInt.toString
                        (Z.quot (p * g) (10 ^ decimals_of chainTicker)))).
  { unfold gasFeeStr, gasFee_try. cbn [to_bigint]. rewrite Hp, Hg.
    destruct (decimals_of_cases chainTicker) as [-> | ->]; reflexivity. }
  split; [exact E|]. intros Hsmall. rewrite E.
  rewrite Z.quot_small by exact Hsmall. reflexivity.
Qed.

Lemma native_alert_direction_witness :
  exists about_recipient about_sender,
    native_lines Fixture.self_transfer "ETH" Fixture.address_lower
      = Normal about_recipient /\
    directionText about_recipient = "Received" /\
    native_lines Fixture.self_transfer "ETH" Fixture.address_lower
      = Normal about_sender /\
    directionText about_sender = "Received".
Proof.
  apply (native_alert_direction Fixture.self_transfer "ETH"
           Fixture.address_lower Fixture.address_lower); reflexivity.
Defined.

Lemma gas_fee_in_whole_coins_witness :
  gasFeeStr (JStr "20000000000") (JStr "21000") (JsBigInt.Int (decimals_of "ETH"))
  = Some "0".
Proof.
  apply (proj2 (gas_fee_in_whole_coins "ETH" "20000000000" "21000"
                  20000000000 21000 eq_refl eq_refl)).
  vm_compute. split; [discriminate | reflexivity].
Defined.

End AlertProperties.

Module ListingFacts.
Import JsString TrackedWallet Listing.

(** ** Counting by chain *)

Lemma count_of_bump byChain k c :
  Forall (fun p => 0 < snd p) byChain ->
  count_of (bump byChain k) c =
  count_of byChain c + (if String.eqb k c then 1 else 0).
Proof.
  unfold count_of. induction 1 as [|[k0 n] rest Hn Hrest IH];
    cbn [bump find fst snd].
  - destruct (String.eqb k c); reflexivity.
  - cbn [snd] in Hn.
    destruct (String.eqb_spec k0 k) as [->|Hne]; cbn [find fst snd].
    + destruct (String.eqb k c).
      * cbn [snd]. destruct (Z.eqb_spec n 0); [lia|].
        destruct (Z.eqb_spec (n + 1) 0); lia.
      * now rewrite Z.add_0_r.
    + destruct (String.eqb_spec k0 c) as [->|Hc].
      * destruct (String.eqb_spec k c) as [->|_]; [contradiction|].
        now rewrite Z.add_0_r.
      * exact IH.
Qed.

Lemma positive_bump byChain k :
  Forall (fun p => 0 < snd p) byChain ->
  Forall (fun p => 0 < snd p) (bump byChain k).
Proof.
  induction 1 as [|[k0 n] rest Hn Hrest IH]; cbn [bump].
  - constructor; [simpl; lia | constructor].
  - cbn [snd] in Hn. destruct (String.eqb k0 k); constructor; auto.
    cbn [snd]. destruct (n =? 0); lia.
Qed.

Lemma keys_bump byChain k x :
  In x (map fst (bump byChain k)) <-> In x (map fst byChain) \/ x = k.
Proof.
  induction byChain as [|[k0 n] rest IH]; cbn [bump map fst In].
  - intuition.
  - destruct (String.eqb_spec k0 k) as [->|Hne]; cbn [map fst In].
    + intuition.
    + rewrite IH. intuition.
Qed.

Lemma NoDup_keys_bump byChain k :
  NoDup (map fst byChain) -> NoDup (map fst (bump byChain k)).
Proof.
  induction byChain as [|[k0 n] rest IH]; cbn [bump map fst]; intros Hnd.
  - constructor; [intros [] | constructor].
  - inversion Hnd as [|? ? Hk Hrest]; subst.
    destruct (String.eqb_spec k0 k) as [->|Hne]; cbn [map fst].
    + now constructor.
    + constructor; [|now apply IH].
      rewrite keys_bump. intros [Hin|E]; [contradiction | congruence].
Qed.

Lemma sum_bump byChain k :
  Forall (fun p => 0 < snd p) byChain ->
  list_sum_Z (map snd (bump byChain k)) = list_sum_Z (map snd byChain) + 1.
Proof.
  induction 1 as [|[k0 n] rest Hn Hrest IH]; cbn [bump map snd list_sum_Z].
  - lia.
  - cbn [snd] in Hn.
    destruct (String.eqb k0 k); cbn [map snd list_sum_Z].
    + destruct (Z.eqb_spec n 0); lia.
    + lia.
Qed.

Lemma count_fold wallets :
  forall byChain,
    Forall (fun p => 0 < snd p) byChain ->
    NoDup (map fst byChain) ->
    let result :=
      fold_left (fun acc w => bump acc (chain_key w)) wallets byChain in
    Forall (fun p => 0 < snd p) result /\
    NoDup (map fst result) /\
    (forall c,
        count_of result c =
        count_of byChain c
        + Z.of_nat (List.length
                      (filter (fun w => String.eqb (chain_key w) c)
                         wallets))) /\
    (forall c,
        In c (map fst result) <->
        In c (map fst byChain) \/ exists w, In w wallets /\ chain_key w = c) /\
    list_sum_Z (map snd result)
    = list_sum_Z (map snd byChain) + Z.of_nat (List.length wallets).
Proof.
  induction wallets as [|w wallets IH]; intros byChain Hpos Hnd;
    cbn [fold_left].
  - cbv zeta. split; [exact Hpos|]. split; [exact Hnd|].
    split; [intros c; simpl; lia|]. split; [|simpl; lia].
    intros c. split; [tauto|]. intros [Hc|(w & [] & _)]. exact Hc.
  - destruct (IH (bump byChain (chain_key w))
                (positive_bump _ _ Hpos) (NoDup_keys_bump _ _ Hnd))
      as (P & N & C & K & S).
    cbv zeta. split; [exact P|]. split; [exact N|]. split; [|split].
    + intros c. rewrite C, (count_of_bump _ _ _ Hpos). cbn [filter].
      destruct (String.eqb (chain_key w) c); cbn [List.length]; lia.
    + intros c. rewrite K, keys_bump. split.
      * intros [[Hc|Hc]|(w' & Hw' & E)].
        -- now left.
        -- right. exists w. split; [now left | congruence].
        -- right. exists w'. split; [now right | exact E].
      * intros [Hc|(w' & [<-|Hw'] & E)].
        -- left. now left.
        -- left. right. congruence.
        -- right. exists w'. auto.
    + rewrite S, (sum_bump _ _ Hpos). cbn [List.length]. lia.
Qed.

(** ** Grouping by chain *)

Lemma flat_push byChain c w :
  Permutation (flat_map snd (push byChain c w))
    (flat_map snd byChain ++ [w])%list.
Proof.
  induction byChain as [|[k g] rest IH]; cbn [push flat_map snd].
  - apply Permutation_refl.
  - destruct (String.eqb k c); cbn [flat_map snd].
    + rewrite <- !app_assoc. apply Permutation_app_head.
      apply Permutation_app_comm.
    + rewrite <- app_assoc. now apply Permutation_app_head.
Qed.

Lemma keys_push byChain c w x :
  In x (map fst (push byChain c w)) <-> In x (map fst byChain) \/ x = c.
Proof.
  induction byChain as [|[k g] rest IH]; cbn [push map fst In].
  - intuition.
  - destruct (String.eqb_spec k c) as [->|Hne]; cbn [map fst In].
    + intuition.
    + rewrite IH. intuition.
Qed.

Lemma NoDup_keys_push byChain c w :
  NoDup (map fst byChain) -> NoDup (map fst (push byChain c w)).
Proof.
  induction byChain as [|[k g] rest IH]; cbn [push map fst]; intros Hnd.
  - constructor; [intros [] | constructor].
  - inversion Hnd as [|? ? Hk Hrest]; subst.
    destruct (String.eqb_spec k c) as [->|Hne]; cbn [map fst].
    + now constructor.
    + constructor; [|now apply IH].
      rewrite keys_push. intros [Hin|E]; [contradiction | congruence].
Qed.

Lemma groups_push byChain w :
  Forall (fun p => snd p <> [] /\
                   Forall (fun x => chain_key x = fst p) (snd p)) byChain ->
  Forall (fun p => snd p <> [] /\
                   Forall (fun x => chain_key x = fst p) (snd p))
    (push byChain (chain_key w) w).
Proof.
  induction 1 as [|[k g] rest [Hne Hg] Hrest IH]; cbn [push].
  - constructor; [|constructor]. cbn [fst snd].
    split; [discriminate | now constructor].
  - cbn [fst snd] in Hne, Hg.
    destruct (String.eqb_spec k (chain_key w)) as [E|_]; constructor; auto.
    cbn [fst snd]. split.
    + intros E'. apply app_eq_nil in E'. destruct E' as [_ E'].
      discriminate.
    + apply Forall_app. split; [exact Hg|]. now constructor.
Qed.

Lemma group_fold wallets :
  forall byChain,
    NoDup (map fst byChain) ->
    Forall (fun p => snd p <> [] /\
                     Forall (fun x => chain_key x = fst p) (snd p))
      byChain ->
    let result :=
      fold_left (fun acc w => push acc (chain_key w) w) wallets byChain in
    Permutation (flat_map snd result) (flat_map snd byChain ++ wallets)%list
    /\ NoDup (map fst result) /\
    Forall (fun p => snd p <> [] /\
                     Forall (fun x => chain_key x = fst p) (snd p)) result.
Proof.
  induction wallets as [|w wallets IH]; intros byChain Hnd Hg;
    cbn [fold_left].
  - cbv zeta. rewrite app_nil_r. auto.
  - destruct (IH (push byChain (chain_key w) w)
                (NoDup_keys_push _ _ _ Hnd) (groups_push _ _ Hg))
      as (P & N & G).
    cbv zeta. split; [|auto].
    eapply Permutation_trans; [exact P|].
    change (w :: wallets) with ([w] ++ wallets)%list.
    rewrite app_assoc. apply Permutation_app_tail. apply flat_push.
Qed.

End ListingFacts.

Section ListingProperties.
Import JsString TrackedWallet BotService Listing ListingFacts CaseFacts.

(** X19.  The statistics by chain are right: the count
    [formatStatsMessage] keeps for a chain is the number of the wallets
    on that chain, a chain is listed once, and only when it has a
    wallet, and the counts add up to the number of tracked wallets shown
    above them. *)
Theorem stats_counts_by_chain (wallets : list TrackedWallet.t) :
  (forall chain,
      count_of (count_by_chain wallets) chain
      = Z.of_nat (List.length
                    (filter (fun w => String.eqb (chain_key w) chain)
                       wallets))) /\
  NoDup (map fst (count_by_chain wallets)) /\
  (forall chain,
      In chain (map fst (count_by_chain wallets)) <->
      exists w, In w wallets /\ chain_key w = chain) /\
  list_sum_Z (map snd (count_by_chain wallets))
  = Z.of_nat (List.length wallets).
Proof.
  destruct (count_fold wallets [] (Forall_nil _) (NoDup_nil _))
    as (_ & N & C & K & S).
  cbv zeta in *. fold (count_by_chain wallets) in *.
  split; [intros c; now rewrite C|]. split; [exact N|]. split.
  - intros c. rewrite K. simpl. tauto.
  - exact S.
Qed.

(** X20.  [/list] shows the user's wallets, each once: when the reply
    is a list of groups, the wallets of the groups are, up to order,
    the wallets whose [trackingUserIds] hold the user (those of the
    chain named in the command, when one is named); every group is
    not empty and holds wallets of its chain only, and no chain has two
    groups. *)
Theorem list_shows_tracked_wallets (cfg : Config.t) (st : State)
  (ctx : Context) (byChain : list (string * list TrackedWallet.t)) :
  list_command cfg st ctx = WalletList (Groups byChain) ->
  Permutation (flat_map snd byChain)
    (filter (selected ctx) (find_tracking (wallets (db st)) (from_id ctx))) /\
  NoDup (map fst byChain) /\
  Forall (fun p => snd p <> [] /\
                   Forall (fun w => chain_key w = fst p) (snd p)) byChain.
Proof.
  assert (G : forall ws,
             Permutation (flat_map snd (group_by_chain ws)) ws /\
             NoDup (map fst (group_by_chain ws)) /\
             Forall (fun p => snd p <> [] /\
                              Forall (fun w => chain_key w = fst p) (snd p))
               (group_by_chain ws)).
  { intros ws. apply (group_fold ws [] (NoDup_nil _) (Forall_nil _)). }
  assert (Fall : forall ws : list TrackedWallet.t,
             filter (fun _ => true) ws = ws).
  { induction ws as [|w ws IH]; simpl; [reflexivity | now rewrite IH]. }
  unfold list_command, selected. cbv zeta.
  set (mine := find_tracking (wallets (db st)) (from_id ctx)).
  destruct (args ctx) as [|arg0 rest].
  - unfold formatWalletList. destruct mine as [|w ws] eqn:Em; [discriminate|].
    intros [= <-]. rewrite Fall. apply G.
  - destruct (truthy arg0) eqn:T.
    + assert (Tu : truthy (toUpperCase arg0) = true).
      { destruct arg0 as [|c s]; [cbv in T; discriminate | reflexivity]. }
      rewrite Tu. cbn [andb].
      destruct (negb (includes (Config.supported cfg) (toUpperCase arg0)));
        [discriminate|].
      unfold formatWalletList.
      destruct mine as [|w ws] eqn:Em; [discriminate|].
      rewrite Tu, toUpperCase_idem.
      destruct (filter (fun w0 => String.eqb (chainTicker w0)
                                    (toUpperCase arg0)) (w :: ws))
        as [|x xs] eqn:Ef; [discriminate|].
      intros [= <-]. apply G.
    + unfold formatWalletList. destruct mine as [|w ws] eqn:Em;
        [discriminate|].
      intros [= <-]. rewrite Fall. apply G.
Qed.

End ListingProperties.

Section ListingWitnesses.
Import TrackedWallet BotService Listing Fixture.

Lemma list_shows_tracked_wallets_witness :
  Permutation (flat_map snd [("ETH", [wallet_both])])
    (filter (selected alice)
       (find_tracking
          (wallets (db (run config both_track initial)))
          1001)).
Proof.
  apply (list_shows_tracked_wallets config
           (run config both_track initial) alice
           [("ETH", [wallet_both])]).
  reflexivity.
Defined.

End ListingWitnesses.

(* ================================================================== *)
(** * The rate limit on the commands                                   *)
(* ================================================================== *)

Module CommandLimitFacts.
Import JsString BotService RateLimit RateLimitFacts.

Lemma subscribe_counts cfg st u un c n al ans :
  userCommandCounts (state (subscribe cfg st u un c n al ans))
    = userCommandCounts st /\
  message (subscribe cfg st u un c n al ans) <> RateLimited.
Proof.
  unfold subscribe, confirm. cbv zeta.
  destruct (TrackedWallet.findOne (wallets (db st)) (toLowerCase n) c)
    as [w|].
  - destruct (existsb (Z.eqb u) (TrackedWallet.trackingUserIds w));
      cbn [state message with_db userCommandCounts];
      [split; [reflexivity | discriminate]|].
    destruct (Config.lookup Config.CHAIN_CONFIG c);
      split; try reflexivity; discriminate.
  - destruct (MoralisService.createStream n c
                (Config.webhookPublicUrl cfg ++ Config.webhookPath cfg) ans)
      as [[data|] sent]; cbn [state message with_db userCommandCounts].
    + destruct (Config.lookup Config.CHAIN_CONFIG c);
        split; try reflexivity; discriminate.
    + split; [reflexivity | discriminate].
Qed.

Lemma unsubscribe_counts st u c n ans :
  userCommandCounts (state (unsubscribe st u c n ans))
    = userCommandCounts st /\
  message (unsubscribe st u c n ans) <> RateLimited.
Proof.
  unfold unsubscribe, confirm. cbv zeta.
  destruct (TrackedWallet.findOne (wallets (db st)) (toLowerCase n) c)
    as [w|]; [|split; [reflexivity | discriminate]].
  destruct (existsb (Z.eqb u) (TrackedWallet.trackingUserIds w));
    cbn [negb]; [|split; [reflexivity | discriminate]].
  destruct (filter (fun id => negb (id =? u))
              (TrackedWallet.trackingUserIds w));
    cbn [state message with_db userCommandCounts];
    destruct (Config.lookup Config.CHAIN_CONFIG c);
    split; try reflexivity; discriminate.
Qed.

Section Commands.
Context `{Ethers} (cfg : Config.t).

(** A command asks the limiter once, keeps the map it leaves, and
    replies [RateLimited] exactly when it refuses. *)
Lemma handle_limit st c :
  let '(allowed, m) :=
    checkRateLimit cfg (userCommandCounts st) (fst (call_of c))
      (snd (call_of c)) in
  userCommandCounts (state (handle cfg st c)) = m /\
  (message (handle cfg st c) = RateLimited <-> allowed = false).
Proof.
  destruct c as [ctx now ans|ctx now ans]; cbn [call_of fst snd handle].
  - unfold track.
    destruct (checkRateLimit cfg (userCommandCounts st) (from_id ctx) now)
      as [[] counts]; cbn [negb];
      [|split; [reflexivity | split; reflexivity]].
    destruct (args ctx) as [|arg0 [|arg1 rest]];
      try (split; [reflexivity | split; discriminate]).
    cbv zeta.
    destruct (negb (includes (Config.supported cfg) (toUpperCase arg0)));
      [split; [reflexivity | split; discriminate]|].
    match goal with
    | |- context [if ?b then _ else _] => destruct b
    end; [split; [reflexivity | split; discriminate]|].
    destruct (Validators.validateAddress arg1 (toUpperCase arg0))
      as [n|e]; [|split; [reflexivity | split; discriminate]].
    match goal with
    | |- context [subscribe cfg ?s ?u ?un ?c ?n ?al ?a] =>
        destruct (subscribe_counts cfg s u un c n al a) as [E Hm]
    end.
    rewrite E. split; [reflexivity|]. split; [contradiction | discriminate].
  - unfold untrack.
    destruct (checkRateLimit cfg (userCommandCounts st) (from_id ctx) now)
      as [[] counts]; cbn [negb];
      [|split; [reflexivity | split; reflexivity]].
    destruct (args ctx) as [|arg0 [|arg1 rest]];
      try (split; [reflexivity | split; discriminate]).
    cbv zeta.
    destruct (Validators.validateAddress arg1 (toUpperCase arg0))
      as [n|e]; [|split; [reflexivity | split; discriminate]].
    match goal with
    | |- context [unsubscribe ?s ?u ?c ?n ?a] =>
        destruct (unsubscribe_counts s u c n a) as [E Hm]
    end.
    rewrite E. split; [reflexivity|]. split; [contradiction | discriminate].
Qed.

(** The commands that get past the limit are the calls the limiter
    grants. *)
Lemma admitted_granted cs :
  forall st,
    admitted cs (replies cfg cs st) =
    granted (map call_of cs)
      (fst (check_all cfg (map call_of cs) (userCommandCounts st))).
Proof.
  induction cs as [|c cs IH]; intros st; [reflexivity|].
  cbn [replies admitted map check_all].
  pose proof (handle_limit st c) as Hl.
  destruct (call_of c) as [u now] eqn:Ec. cbn [fst snd] in Hl.
  destruct (checkRateLimit cfg (userCommandCounts st) u now)
    as [allowed m].
  destruct Hl as [Em Hr].
  rewrite IH, Em.
  destruct (check_all cfg (map call_of cs) m) as [results m'].
  cbn [fst granted].
  destruct allowed.
  - destruct (message (handle cfg st c)); try reflexivity.
    assert (true = false) by now apply Hr. discriminate.
  - assert (E : message (handle cfg st c) = RateLimited) by now apply Hr.
    now rewrite E.
Qed.

End Commands.

End CommandLimitFacts.

Section CommandLimit.
Import BotService RateLimit RateLimitFacts CommandLimitFacts.
Context `{Ethers} (cfg : Config.t).

(** X22.  No user gets more commands past the rate limit in one window
    than the limit: over [/track] and [/untrack] commands handled at
    times that do not go back, from the start of the service, for every
    user and every instant [T], the commands of that user handled at
    times [t] with [t <= T] and [T - t < rateLimitWindowMs] whose reply
    is not the rate-limit message are at most [rateLimitMaxRequests]. *)
Theorem commands_within_rate_limit (cs : list command) (userId T : Z) :
  chronological (map call_of cs) ->
  Z.of_nat (List.length
              (filter (in_window cfg userId T)
                 (admitted cs (replies cfg cs initial))))
  <= Z.max 0 (Config.rateLimitMaxRequests cfg).
Proof.
  intros Hch. rewrite admitted_granted.
  pose proof (window_bound cfg userId (map call_of cs) [] T Hch) as Hb.
  unfold stored in Hb. simpl in Hb. apply Hb; [lia|]. intros ts c [].
Qed.

End CommandLimit.

Section CommandLimitWitness.
Import BotService RateLimit Fixture.

Lemma commands_within_rate_limit_witness :
  Z.of_nat (List.length
              (filter (in_window config 1001 2000)
                 (admitted both_track (replies config both_track initial))))
  <= Z.max 0 (Config.rateLimitMaxRequests config).
Proof.
  apply (@commands_within_rate_limit ethers config both_track 1001 2000).
  simpl. repeat split; repeat constructor; simpl; lia.
Defined.

End CommandLimitWitness.

(* ================================================================== *)
(** * Solana addresses                                                 *)
(* ================================================================== *)

Module Base58Facts.
Import JsString Validators.

Lemma index_of_range (c : ascii) (s : string) :
  forall i d,
    index_of c s i = Some d -> i <= d < i + Z.of_nat (String.length s).
Proof.
  induction s as [|a s IH]; intros i d; cbn [index_of String.length];
    [discriminate|].
  destruct (Ascii.eqb a c).
  - intros [= <-]. lia.
  - intros E. specialize (IH _ _ E). lia.
Qed.

(** The number a base-58 string denotes is below 58 to its length. *)
Lemma base58_value_bound (s : string) :
  forall acc v,
    0 <= acc -> base58_value acc s = Normal v ->
    acc * 58 ^ Z.of_nat (String.length s) <= v
    < (acc + 1) * 58 ^ Z.of_nat (String.length s).
Proof.
  induction s as [|c s IH]; intros acc v Hacc;
    cbn [base58_value String.length].
  - intros [= <-]. simpl. lia.
  - destruct (index_of c base58_alphabet 0) as [d|] eqn:Ed; [|discriminate].
    apply index_of_range in Ed.
    change (Z.of_nat (String.length base58_alphabet)) with 58 in Ed.
    intros E. apply IH in E; [|lia].
    rewrite Nat2Z.inj_succ, Z.pow_succ_r by lia.
    assert (Hp : 0 < 58 ^ Z.of_nat (String.length s))
      by (apply Z.pow_pos_nonneg; lia).
    nia.
Qed.

End Base58Facts.

Section SolanaProperties.
Import JsString Validators Base58Facts.

(** X23.  The length [validateSolanaAddress] really asks for: an
    address it accepts is returned as it is, and unless it starts with
    the character [1] (a leading zero byte of the key) it has 43 or 44
    characters; the 32 to 42 characters the regular expression lets
    through decode to fewer than 32 bytes. *)
Theorem solana_address_length (address n : string) :
  validateSolanaAddress address = Valid n ->
  leading_ones address = O ->
  n = address /\ (43 <= String.length address <= 44)%nat.
Proof.
  unfold validateSolanaAddress, solanaAddressRegex, bs58_decode_length.
  destruct (all_chars is_base58_char address); cbn [andb negb];
    [|discriminate].
  destruct (Nat.leb_spec 32 (String.length address)) as [H32|_];
    cbn [andb negb]; [|discriminate].
  destruct (Nat.leb_spec (String.length address) 44) as [H44|_];
    cbn [andb negb]; [|discriminate].
  destruct (base58_value 0 address) as [v|] eqn:Ev; cbn [bind];
    [|discriminate].
  intros Hvalid Hlead. rewrite Hlead in Hvalid. cbn [Nat.add] in Hvalid.
  destruct (Z.eqb_spec v 0) as [_|Hv0]; [discriminate|].
  destruct (Nat.eqb_spec (S (Z.to_nat (Z.log2 v / 8))) 32) as [Hb|_];
    [|discriminate].
  inversion Hvalid; subst n. split; [reflexivity|]. split; [|exact H44].
  destruct (base58_value_bound address 0 v (Z.le_refl 0) Ev) as [Hlo Hhi].
  rewrite Z.mul_0_l in Hlo. rewrite Z.add_0_l, Z.mul_1_l in Hhi.
  assert (Hpos : 0 < v) by lia.
  destruct (Z.log2_spec v Hpos) as [Hlog _].
  assert (Hq : Z.log2 v / 8 = 31).
  { assert (0 <= Z.log2 v / 8)
      by (apply Z.div_pos; [apply Z.log2_nonneg | lia]).
    lia. }
  assert (H248 : 248 <= Z.log2 v).
  { pose proof (Z.mul_div_le (Z.log2 v) 8 ltac:(lia)). lia. }
  assert (Hbig : 2 ^ 248 <= v).
  { eapply Z.le_trans; [|exact Hlog]. apply Z.pow_le_mono_r; lia. }
  destruct (Nat.le_gt_cases 43 (String.length address)) as [Hok|Hshort];
    [exact Hok|].
  exfalso.
  assert (Hle : 58 ^ Z.of_nat (String.length address) <= 58 ^ 42)
    by (apply Z.pow_le_mono_r; lia).
  assert (Hcmp : 58 ^ 42 < 2 ^ 248) by reflexivity.
  lia.
Qed.

Lemma solana_address_length_witness :
  "So11111111111111111111111111111111111111112"
  = "So11111111111111111111111111111111111111112" /\
  (43 <= String.length "So11111111111111111111111111111111111111112" <= 44)%nat.
Proof.
  apply (solana_address_length "So11111111111111111111111111111111111111112"
           "So11111111111111111111111111111111111111112");
    reflexivity.
Defined.

End SolanaProperties.

(* ================================================================== *)
(** * A stream is released where it was created                        *)
(* ================================================================== *)

Module ReleaseFacts.
Import JsString TrackedWallet SubscriptionSpec BotService StoreFacts
  HandlerFacts.


End ReleaseFacts.

Section ReleaseProperties.
Import JsString TrackedWallet SubscriptionSpec BotService.
Import BotFacts CaseFacts HandlerFacts ReleaseFacts.
Context `{Ethers} (cfg : Config.t).


End ReleaseProperties.

Section ReleaseWitnesses.
Import BotService Fixture.


End ReleaseWitnesses.
